(** * Chatwoot history import: a shallow embedding of [chatwoot-import-helper.ts]

    The repository carries three revisions of the class [ChatwootImport]:

    - [V1]: the first class of [chatwoot-import-helper.ts] (label, tag and
      taggings; [sliceIntoChunks] builds the chunks and flattens them again;
      messages are inserted one by one);
    - [V2]: the second class of the same file ([sliceIntoChunks] is a
      destructive [splice]; two-step key resolver; bulk message insert with
      [ON CONFLICT (conversation_id, created_at)]);
    - [V3]: the revision whose file name is not known ([sliceIntoChunks] is a
      non-destructive [slice]; single-statement key resolver; bulk message
      insert without a conflict clause).

    The staging store (three [Map]s keyed by [instance.instanceName]) and the
    staging operations are identical in the three revisions and are modelled
    once.  The relational store is the external collaborator reached through
    [pgClient.query]; every SQL text issued by the code is given its
    PostgreSQL meaning on an explicit table state, and every call may throw
    according to a fault script kept in the connection state.

    Abstractions, stated once:
    - strings are sequences of code units below 256;
    - JavaScript numbers are modelled by [Z] (exact below 2^53), [NaN] by
      [None];
    - [undefined]/[null] results are [None]; row identifiers are serial keys
      (positive numbers);
    - [while] loops run on fuel; running out of fuel is the outcome
      [Diverge], which no [try]/[catch] intercepts;
    - one method runs at a time: the [await]s of a call are not interleaved
      with other calls. *)

From Stdlib Require Import ZArith String Ascii List Lia Bool Permutation.
From Stdlib Require Import Sorting.Sorted.
From stdpp Require Import base option list gmap strings pretty.

Local Open Scope Z_scope.

(** ** JavaScript primitives used by the importer *)

Module Js.

(** [s.split('@')[0]]: the code units before the first ['@'], the whole
    string when there is none. *)
Fixpoint beforeAt (s : string) : string :=
  match s with
  | EmptyString => EmptyString
  | String c s' =>
      if Ascii.eqb c "@" then EmptyString else String c (beforeAt s')
  end.

(** [StrWhiteSpaceChar] restricted to code units below 256. *)
Definition isWhiteSpace (c : ascii) : bool :=
  let n := nat_of_ascii c in
  ((9 <=? n)%nat && (n <=? 13)%nat) || (n =? 32)%nat || (n =? 160)%nat.

Fixpoint trimStart (s : string) : string :=
  match s with
  | EmptyString => EmptyString
  | String c s' => if isWhiteSpace c then trimStart s' else s
  end.

(** Value of a code unit read as a digit, for radix up to 36. *)
Definition digitValue (c : ascii) : option Z :=
  let n := Z.of_nat (nat_of_ascii c) in
  if (48 <=? n) && (n <=? 57) then Some (n - 48)
  else if (97 <=? n) && (n <=? 122) then Some (n - 87)
  else if (65 <=? n) && (n <=? 90) then Some (n - 55)
  else None.

Definition digitIn (radix : Z) (c : ascii) : option Z :=
  match digitValue c with
  | Some v => if v <? radix then Some v else None
  | None => None
  end.

(** The longest prefix of digits, as a number; [None] when it is empty. *)
Fixpoint parseDigits (radix : Z) (acc : option Z) (s : string) : option Z :=
  match s with
  | EmptyString => acc
  | String c s' =>
      match digitIn radix c with
      | Some v => parseDigits radix (Some (radix * default 0 acc + v)) s'
      | None => acc
      end
  end.

Definition stripSign (s : string) : Z * string :=
  match s with
  | String c r =>
      if Ascii.eqb c "-" then (-1, r)
      else if Ascii.eqb c "+" then (1, r)
      else (1, s)
  | EmptyString => (1, s)
  end.

Definition stripHexPrefix (s : string) : Z * string :=
  match s with
  | String c0 (String c1 r) =>
      if Ascii.eqb c0 "0" && (Ascii.eqb c1 "x" || Ascii.eqb c1 "X")
      then (16, r) else (10, s)
  | _ => (10, s)
  end.

(** [parseInt(s)] with no radix argument; [None] is [NaN]. *)
Definition parseInt (s : string) : option Z :=
  let '(sign, s2) := stripSign (trimStart s) in
  let '(radix, s3) := stripHexPrefix s2 in
  option_map (Z.mul sign) (parseDigits radix None s3).

(** Numeric subtraction; [NaN] is absorbing. *)
Definition sub (a b : option Z) : option Z :=
  match a, b with
  | Some x, Some y => Some (x - y)
  | _, _ => None
  end.

(** [x || y] on numbers: [x] when it is neither [0] nor [NaN]. *)
Definition orElse (x : option Z) (y : Z) : Z :=
  match x with
  | Some d => if d =? 0 then y else d
  | None => y
  end.

(** [arr.slice(i, j)] for [0 <= i <= j]. *)
Definition slice {A} (i j : nat) (arr : list A) : list A :=
  take (j - i) (drop i arr).

(** [arr.sort(cmp)]: the sort is stable, and [a] is placed before [b]
    when [cmp a b <= 0].  For a comparator that is not a consistent order
    the language leaves the result to the engine; the model is then one
    admissible result. *)
Section Sort.
Context {A : Type} (cmp : A -> A -> Z).

Fixpoint insertSorted (x : A) (l : list A) : list A :=
  match l with
  | [] => [x]
  | y :: ys => if cmp x y <=? 0 then x :: y :: ys else y :: insertSorted x ys
  end.

Fixpoint sort (l : list A) : list A :=
  match l with
  | [] => []
  | x :: xs => insertSorted x (sort xs)
  end.
End Sort.

End Js.

(** ** Data model *)

(** [ContactRaw]: a staged contact. *)
Module ContactRaw.
Record t : Type := mk { id : string; pushName : string }.
End ContactRaw.

(** [proto.IMessage], as far as the importer looks inside it. *)
Module MessageBody.
Record t : Type := mk { conversation : string; extendedText : string }.
End MessageBody.

(** [MessageRaw]: a staged message.  [remoteJid] is [key.remoteJid];
    [extendedText] is [message.extendedTextMessage.text]; [messageText] is
    read by revision [V3] only, [from] by [V1] only.  An absent string field
    is the empty string (both are falsy). *)
Module MessageRaw.
Record t : Type := mk {
  remoteJid : string;
  messageTimestamp : Z;
  pushName : string;
  message : option MessageBody.t;
  messageText : string;
  from : string
}.
End MessageRaw.

(** [ChatwootRaw]: the provider configuration. *)
Module ChatwootRaw.
Record t : Type := mk { account_id : Z; id : Z; email : string; inbox_id : Z }.
End ChatwootRaw.

Module Inbox.
Record t : Type := mk { id : Z }.
End Inbox.

Module ChatwootUser.
Record t : Type := mk { user_type : string; user_id : Z }.
End ChatwootUser.

Module FksChatwoot.
Record t : Type := mk {
  phone_number : string;
  contact_id : option Z;
  conversation_id : option Z
}.
End FksChatwoot.

Module FirstLastTimestamp.
Record t : Type := mk { first : option Z; last : option Z }.
End FirstLastTimestamp.

(** Truthiness of a numeric value that may be [null]. *)
Definition truthy (x : option Z) : bool :=
  match x with
  | Some z => negb (z =? 0)
  | None => false
  end.

(** Truthiness of a string. *)
Definition nonEmpty (s : string) : bool := negb (String.eqb s "").

(** ** The relational store *)

Module Pg.

Record LabelRow : Type := mkLabel { l_title : string; l_account_id : Z }.
Record TagRow : Type := mkTag { t_id : Z; t_name : string; t_taggings_count : Z }.
Record TaggingRow : Type := mkTagging { tg_tag_id : option Z; tg_taggable_id : Z }.
Record ContactRow : Type := mkContact {
  c_id : Z;
  c_name : option string;
  c_phone_number : string;
  c_account_id : Z;
  c_identifier : string;
  c_created_at : Z
}.
Record ConversationRow : Type := mkConversation {
  cv_id : Z;
  cv_account_id : Z;
  cv_inbox_id : Z;
  cv_contact_id : Z;
  cv_created_at : Z
}.
Record MessageRow : Type := mkMessage {
  m_id : Z;
  m_content : string;
  m_account_id : Z;
  m_inbox_id : Z;
  m_conversation_id : Z;
  m_sender_id : option Z;
  m_created_at : Z
}.
Record UserRow : Type := mkUser { u_email : string; u_user_id : Z; u_user_type : string }.
Record AccountUserRow : Type := mkAccountUser {
  au_account_id : Z;
  au_user_id : Z;
  au_user_type : string
}.

(** The tables and the value of [NOW()]. *)
Record DB : Type := mkDB {
  labels : list LabelRow;
  tags : list TagRow;
  taggings : list TaggingRow;
  contacts : list ContactRow;
  conversations : list ConversationRow;
  messages : list MessageRow;
  users : list UserRow;
  account_users : list AccountUserRow;
  now : Z
}.

Definition with_labels (d : DB) (x : list LabelRow) : DB :=
  mkDB x (tags d) (taggings d) (contacts d) (conversations d) (messages d) (users d) (account_users d) (now d).
Definition with_tags (d : DB) (x : list TagRow) : DB :=
  mkDB (labels d) x (taggings d) (contacts d) (conversations d) (messages d) (users d) (account_users d) (now d).
Definition with_taggings (d : DB) (x : list TaggingRow) : DB :=
  mkDB (labels d) (tags d) x (contacts d) (conversations d) (messages d) (users d) (account_users d) (now d).
Definition with_contacts (d : DB) (x : list ContactRow) : DB :=
  mkDB (labels d) (tags d) (taggings d) x (conversations d) (messages d) (users d) (account_users d) (now d).
Definition with_conversations (d : DB) (x : list ConversationRow) : DB :=
  mkDB (labels d) (tags d) (taggings d) (contacts d) x (messages d) (users d) (account_users d) (now d).
Definition with_messages (d : DB) (x : list MessageRow) : DB :=
  mkDB (labels d) (tags d) (taggings d) (contacts d) (conversations d) x (users d) (account_users d) (now d).
(** A serial key: one more than every key in use. *)
Definition nextId (ids : list Z) : Z := 1 + fold_right Z.max 0 ids.

(** A statement either raises (the tables are left as they were) or
    returns a result and the new tables. *)
Definition Stmt (A : Type) : Type := DB -> string + (A * DB).

(** [{rowCount, rows}] *)
Record QueryResult (R : Type) : Type := mkResult { rowCount : Z; rows : list R }.
Arguments mkResult {R} _ _.
Arguments rowCount {R} _.
Arguments rows {R} _.

Definition resultOf {R} (l : list R) : QueryResult R :=
  mkResult (Z.of_nat (length l)) l.

End Pg.

(** The part of [ChatwootService] the importer calls; its code is outside
    this file.  [getMessageContent] renders a message body (a result that is
    [undefined], [null] or empty is the empty string); [createConversation]
    is the helpdesk API call, taken by what it does to the tables:
    [createConversation account_id contact_id inbox_id source_id]. *)
Module ChatwootService.
Record t : Type := mk {
  getMessageContent : MessageBody.t -> string;
  createConversation : Z -> string -> Z -> string -> Pg.Stmt Z
}.
End ChatwootService.

(** ** The staging store and the effects of the class

    A [World] is the state a method of [ChatwootImport] can see or change:
    the three maps of the class, the tables behind [pgClient], the fault
    script of the connection ([true]: the next [query] throws) and what the
    logger has written. *)

Record World : Type := mkWorld {
  repositoryMessagesCache : gmap string (gset string);
  historyMessages : gmap string (list MessageRaw.t);
  historyContacts : gmap string (list ContactRaw.t);
  db : Pg.DB;
  faults : list bool;
  log : list string
}.

Definition with_cache (w : World) (x : gmap string (gset string)) : World :=
  mkWorld x (historyMessages w) (historyContacts w) (db w) (faults w) (log w).
Definition with_historyMessages (w : World) (x : gmap string (list MessageRaw.t)) : World :=
  mkWorld (repositoryMessagesCache w) x (historyContacts w) (db w) (faults w) (log w).
Definition with_historyContacts (w : World) (x : gmap string (list ContactRaw.t)) : World :=
  mkWorld (repositoryMessagesCache w) (historyMessages w) x (db w) (faults w) (log w).
Definition with_db (w : World) (x : Pg.DB) : World :=
  mkWorld (repositoryMessagesCache w) (historyMessages w) (historyContacts w) x (faults w) (log w).
Definition with_faults (w : World) (x : list bool) : World :=
  mkWorld (repositoryMessagesCache w) (historyMessages w) (historyContacts w) (db w) x (log w).
Definition with_log (w : World) (x : list string) : World :=
  mkWorld (repositoryMessagesCache w) (historyMessages w) (historyContacts w) (db w) (faults w) x.

(** Outcome of running a method body: a value, a thrown error, or a loop
    that has not finished within the fuel. *)
Inductive Res (A : Type) : Type :=
| Ok (a : A)
| Throw (e : string)
| Diverge.
Arguments Ok {A} _.
Arguments Throw {A} _.
Arguments Diverge {A}.

Definition M (A : Type) : Type := World -> Res A * World.

Definition ret {A} (a : A) : M A := fun w => (Ok a, w).

Definition bind {A B} (m : M A) (k : A -> M B) : M B :=
  fun w =>
    match m w with
    | (Ok a, w') => k a w'
    | (Throw e, w') => (Throw e, w')
    | (Diverge, w') => (Diverge, w')
    end.

Definition throw {A} (e : string) : M A := fun w => (Throw e, w).

Definition diverge {A} : M A := fun w => (Diverge, w).

(** [try { m } catch (error) { h error }] *)
Definition tryCatch {A} (m : M A) (h : string -> M A) : M A :=
  fun w =>
    match m w with
    | (Throw e, w') => h e w'
    | r => r
    end.

Definition gets {A} (f : World -> A) : M A := fun w => (Ok (f w), w).

Definition modify (f : World -> World) : M unit := fun w => (Ok tt, f w).

Notation "'let*' x ':=' m 'in' k" := (bind m (fun x => k))
  (at level 10, x name, m at level 100, k at level 200).
Notation "m '>>' k" := (bind m (fun _ => k))
  (at level 190, right associativity).

(** [this.logger.error(prefix + error.toString())] *)
Definition loggerError (prefix e : string) : M unit :=
  modify (fun w => with_log w (log w ++ [prefix +:+ e])).

Definition loggerInfo (msg : string) : M unit :=
  modify (fun w => with_log w (log w ++ [msg])).

(** [await pgClient.query(...)]: the call throws when the fault script says
    so or when the statement raises. *)
Definition query {A} (s : Pg.Stmt A) : M A :=
  fun w =>
    match faults w with
    | true :: fs => (Throw "Error: query failed", with_faults w fs)
    | fl =>
        match s (db w) with
        | inl e => (Throw e, with_faults w (tail fl))
        | inr (a, d') => (Ok a, with_db (with_faults w (tail fl)) d')
        end
    end.

(** ** The SQL statements of the importer

    Each definition is the meaning of one SQL text of the source on the
    tables.  Row order of a [SELECT] is table order.  The unique indexes are
    the ones the source names in its [ON CONFLICT] clauses:
    [contacts (identifier, account_id)] and, for revision [V2],
    [messages (conversation_id, created_at)]. *)

Module Sql.
Import Pg.

Definition ok {A} (a : A) (d : DB) : string + (A * DB) := inr (a, d).

Fixpoint hasDup {K} (eqb : K -> K -> bool) (l : list K) : bool :=
  match l with
  | [] => false
  | x :: xs => existsb (eqb x) xs || hasDup eqb xs
  end.

(** *** labels *)

(** [SELECT 1 FROM labels WHERE title = $1 AND account_id = $2] *)
Definition checkLabel (title : string) (account : Z) : Stmt (QueryResult unit) :=
  fun d =>
    ok (resultOf (map (fun _ => tt)
          (List.filter (fun r => String.eqb (l_title r) title && (l_account_id r =? account))
             (labels d)))) d.

(** [INSERT INTO labels (...) VALUES ($1, ..., $2, NOW(), NOW()) RETURNING *] *)
Definition insertLabel (title : string) (account : Z) : Stmt (QueryResult LabelRow) :=
  fun d =>
    let r := mkLabel title account in
    ok (resultOf [r]) (with_labels d (labels d ++ [r])).

(** *** tags *)

(** [SELECT id, taggings_count FROM tags WHERE name = $1] *)
Definition checkTag (name : string) : Stmt (QueryResult TagRow) :=
  fun d => ok (resultOf (List.filter (fun r => String.eqb (t_name r) name) (tags d))) d.

(** [INSERT INTO tags (name, taggings_count) VALUES ($1, $2) RETURNING id] *)
Definition insertTag (name : string) (count : Z) : Stmt (QueryResult Z) :=
  fun d =>
    let i := nextId (map t_id (tags d)) in
    ok (resultOf [i]) (with_tags d (tags d ++ [mkTag i name count])).

(** [UPDATE tags SET taggings_count = taggings_count + $1 WHERE name = $2
     RETURNING id] *)
Definition updateTag (count : Z) (name : string) : Stmt (QueryResult Z) :=
  fun d =>
    let hit r := String.eqb (t_name r) name in
    ok (resultOf (map t_id (List.filter hit (tags d))))
       (with_tags d
          (map (fun r => if hit r
                         then mkTag (t_id r) (t_name r) (t_taggings_count r + count)
                         else r)
             (tags d))).

(** *** taggings *)

(** [INSERT INTO taggings (tag_id, taggable_type, taggable_id, ...)
     VALUES ($1, 'Contact', $2, NULL, NULL, 'labels', ...)] *)
Definition insertTagging (tagId : option Z) (contactId : Z) : Stmt (QueryResult unit) :=
  fun d => ok (mkResult 1 []) (with_taggings d (taggings d ++ [mkTagging tagId contactId])).

(** *** contacts *)

Record ContactValues : Type := mkContactValues {
  v_name : string;
  v_phone_number : string;
  v_identifier : string
}.

Definition contactKey (account : Z) (identifier : string) (r : ContactRow) : bool :=
  String.eqb (c_identifier r) identifier && (c_account_id r =? account).

(** One [VALUES] row of the upsert: the row in conflict is overwritten,
    otherwise a new row is appended.  The result is the row's [id]. *)
Definition upsertContactRow (account : Z) (at_ : Z)
    (acc : list ContactRow * list Z) (v : ContactValues) : list ContactRow * list Z :=
  let '(tbl, ids) := acc in
  match List.find (contactKey account (v_identifier v)) tbl with
  | Some hit =>
      (map (fun r => if contactKey account (v_identifier v) r
                     then mkContact (c_id r) (Some (v_name v)) (v_phone_number v)
                            (c_account_id r) (v_identifier v) (c_created_at r)
                     else r) tbl,
       ids ++ [c_id hit])
  | None =>
      let i := nextId (map c_id tbl) in
      (tbl ++ [mkContact i (Some (v_name v)) (v_phone_number v) account (v_identifier v) at_],
       ids ++ [i])
  end.

(** [INSERT INTO contacts (...) VALUES (..),(..),...
     ON CONFLICT (identifier, account_id) DO UPDATE SET name = EXCLUDED.name,
     phone_number = EXCLUDED.phone_number, identifier = EXCLUDED.identifier],
    with [RETURNING id] when [returning] is set.  An empty [VALUES] list is
    a syntax error; two [VALUES] rows with one key make PostgreSQL raise. *)
Definition upsertContacts (returning : bool) (account : Z) (vs : list ContactValues)
    : Stmt (QueryResult Z) :=
  fun d =>
    match vs with
    | [] => inl "error: syntax error at or near ON"
    | _ =>
        if hasDup String.eqb (map v_identifier vs)
        then inl "error: ON CONFLICT DO UPDATE command cannot affect row a second time"
        else
          let '(tbl, ids) := fold_left (upsertContactRow account (now d)) vs (contacts d, []) in
          ok (mkResult (Z.of_nat (length vs)) (if returning then ids else []))
             (with_contacts d tbl)
    end.

(** [INSERT INTO contacts (name, phone_number, account_id, identifier, ...)
     VALUES ($1, $2, $3, $4, NOW(), NOW()) RETURNING id] *)
Definition insertContact (name : option string) (phone : string) (account : Z)
    (identifier : string) : Stmt (QueryResult Z) :=
  fun d =>
    if existsb (contactKey account identifier) (contacts d)
    then inl "error: duplicate key value violates unique constraint"
    else
      let i := nextId (map c_id (contacts d)) in
      ok (resultOf [i])
         (with_contacts d (contacts d ++ [mkContact i name phone account identifier (now d)])).

(** *** conversations *)

(** [INSERT INTO conversations (account_id, inbox_id, contact_id, status, ...)
     VALUES ($1, $2, $3, 'open', NOW(), NOW()) RETURNING id]; a [NULL]
    contact violates the column's constraint. *)
Definition insertConversation (account inbox : Z) (contact : option Z)
    : Stmt (QueryResult Z) :=
  fun d =>
    match contact with
    | None => inl "error: null value in column contact_id"
    | Some c =>
        let i := nextId (map cv_id (conversations d)) in
        ok (resultOf [i])
           (with_conversations d (conversations d ++ [mkConversation i account inbox c (now d)]))
    end.

(** *** users *)

(** [SELECT ... FROM users WHERE email = $1] *)
Definition selectUser (email : string) : Stmt (QueryResult ChatwootUser.t) :=
  fun d =>
    ok (resultOf (map (fun u => ChatwootUser.mk (u_user_type u) (u_user_id u))
                    (List.filter (fun u => String.eqb (u_email u) email) (users d)))) d.

(** [SELECT user_type, user_id FROM account_users WHERE account_id = $1
     LIMIT 1] *)
Definition selectAccountUser (account : Z) : Stmt (QueryResult ChatwootUser.t) :=
  fun d =>
    ok (resultOf
          (take 1
             (map (fun u => ChatwootUser.mk (au_user_type u) (au_user_id u))
                (List.filter (fun u => au_account_id u =? account) (account_users d))))) d.

(** *** revision [V1]: conversations and messages *)

Record ConversationRef : Type := mkConversationRef {
  cr_phone_number : string;
  cr_conversation_id : Z
}.

(** [SELECT c.id AS conversation_id, ..., contact.phone_number, ...
     FROM conversations AS c JOIN contacts AS contact ON contact.id = c.contact_id
     WHERE c.account_id = $1
     AND c.created_at BETWEEN to_timestamp($2) AND to_timestamp($3)] *)
Definition selectConversations (account : Z) (first last : option Z)
    : Stmt (QueryResult ConversationRef) :=
  fun d =>
    let inRange (cv : ConversationRow) : bool :=
      match first, last with
      | Some f, Some l => (f <=? cv_created_at cv) && (cv_created_at cv <=? l)
      | _, _ => false
      end in
    let joined (cv : ConversationRow) : list ConversationRef :=
      map (fun c => mkConversationRef (c_phone_number c) (cv_id cv))
        (List.filter (fun c => c_id c =? cv_contact_id cv) (contacts d)) in
    ok (resultOf
          (flat_map joined
             (List.filter (fun cv => (cv_account_id cv =? account) && inRange cv)
                (conversations d)))) d.

(** [INSERT INTO messages (content, account_id, inbox_id, conversation_id,
     sender_id, created_at, updated_at) VALUES ($1, $2, $3, $4, $5, $6, NOW())] *)
Definition insertMessage (content : string) (account inbox conversation sender at_ : Z)
    : Stmt (QueryResult unit) :=
  fun d =>
    ok (mkResult 1 [])
       (with_messages d
          (messages d ++ [mkMessage (nextId (map m_id (messages d))) content account inbox
                            conversation (Some sender) at_])).

(** *** revision [V2]: key lookup *)

(** [SELECT c.phone_number, c.id as contact_id, con.id as conversation_id
     FROM contacts c LEFT JOIN conversations con ON con.contact_id = c.id
     WHERE c.phone_number = ANY ($1::text[])] *)
Definition selectFks (phones : list string) : Stmt (QueryResult FksChatwoot.t) :=
  fun d =>
    let joined (c : ContactRow) : list FksChatwoot.t :=
      match List.filter (fun cv => cv_contact_id cv =? c_id c) (conversations d) with
      | [] => [FksChatwoot.mk (c_phone_number c) (Some (c_id c)) None]
      | cvs => map (fun cv => FksChatwoot.mk (c_phone_number c) (Some (c_id c)) (Some (cv_id cv))) cvs
      end in
    ok (resultOf
          (flat_map joined
             (List.filter (fun c => existsb (String.eqb (c_phone_number c)) phones) (contacts d)))) d.

(** *** revision [V2]: messages *)

Record MessageValues : Type := mkMessageValues {
  mv_content : string;
  mv_conversation_id : Z;
  mv_sender_id : Z;
  mv_created_at : Z
}.

Definition messageKey (conv at_ : Z) (r : MessageRow) : bool :=
  (m_conversation_id r =? conv) && (m_created_at r =? at_).

Definition upsertMessageRow (account inbox : Z) (tbl : list MessageRow) (v : MessageValues)
    : list MessageRow :=
  let hit := messageKey (mv_conversation_id v) (mv_created_at v) in
  if existsb hit tbl
  then map (fun r => if hit r
                     then mkMessage (m_id r) (mv_content v) (m_account_id r) (m_inbox_id r)
                            (m_conversation_id r) (m_sender_id r) (m_created_at r)
                     else r) tbl
  else tbl ++ [mkMessage (nextId (map m_id tbl)) (mv_content v) account inbox
                 (mv_conversation_id v) (Some (mv_sender_id v)) (mv_created_at v)].

(** [INSERT INTO messages (content, account_id, inbox_id, conversation_id,
     message_type, private, content_type, sender_type, sender_id, created_at,
     updated_at) VALUES (..),(..),...
     ON CONFLICT (conversation_id, created_at) DO UPDATE SET
     content = EXCLUDED.content] *)
Definition upsertMessages (account inbox : Z) (vs : list MessageValues) : Stmt (QueryResult unit) :=
  fun d =>
    match vs with
    | [] => inl "error: syntax error at or near ON"
    | _ =>
        if hasDup (fun a b : Z * Z => (a.1 =? b.1) && (a.2 =? b.2))
             (map (fun v => (mv_conversation_id v, mv_created_at v)) vs)
        then inl "error: ON CONFLICT DO UPDATE command cannot affect row a second time"
        else ok (mkResult (Z.of_nat (length vs)) [])
                (with_messages d (fold_left (upsertMessageRow account inbox) vs (messages d)))
    end.

End Sql.

(** ** Staging store operations (the same text in the three revisions) *)

Module InstanceDto.
Record t : Type := mk { instanceName : string }.
End InstanceDto.

Section Staging.
Variable instance : InstanceDto.t.
Let name := InstanceDto.instanceName instance.

Definition getRepositoryMessagesCache : M (option (gset string)) :=
  gets (fun w => repositoryMessagesCache w !! name).

Definition setRepositoryMessagesCache (cache : gset string) : M unit :=
  modify (fun w => with_cache w (<[name := cache]> (repositoryMessagesCache w))).

Definition deleteRepositoryMessagesCache : M unit :=
  modify (fun w => with_cache w (delete name (repositoryMessagesCache w))).

Definition addHistoryMessages (messagesRaw : list MessageRaw.t) : M unit :=
  modify (fun w =>
    let actualValue := default [] (historyMessages w !! name) in
    with_historyMessages w (<[name := actualValue ++ messagesRaw]> (historyMessages w))).

Definition addHistoryContacts (contactsRaw : list ContactRaw.t) : M unit :=
  modify (fun w =>
    let actualValue := default [] (historyContacts w !! name) in
    with_historyContacts w (<[name := actualValue ++ contactsRaw]> (historyContacts w))).

Definition deleteHistoryMessages : M unit :=
  modify (fun w => with_historyMessages w (delete name (historyMessages w))).

Definition deleteHistoryContacts : M unit :=
  modify (fun w => with_historyContacts w (delete name (historyContacts w))).

Definition clearAll : M unit :=
  deleteRepositoryMessagesCache >> deleteHistoryMessages >> deleteHistoryContacts.

Definition getHistoryMessagesLenght : M nat :=
  gets (fun w => length (default [] (historyMessages w !! name))).
End Staging.

(** [for (const x of l) { await f(x) }] *)
Fixpoint forEachM {A} (f : A -> M unit) (l : list A) : M unit :=
  match l with
  | [] => ret tt
  | x :: xs => f x >> forEachM f xs
  end.

(** A helper whose own loop does not finish does not return. *)
Definition orDiverge {A} (o : option A) : M A :=
  match o with
  | Some a => ret a
  | None => diverge
  end.

(** [insertLabel]: check, then insert; every error is logged and absorbed. *)
Definition insertLabel (instanceName : string) (accountId : Z) : M (option Pg.LabelRow) :=
  tryCatch
    (let* checkResult := query (Sql.checkLabel instanceName accountId) in
     if Pg.rowCount checkResult =? 0
     then
       let* result := query (Sql.insertLabel instanceName accountId) in
       ret (head (Pg.rows result))
     else
       loggerInfo ("Label with title " +:+ instanceName +:+
                   " already exists for account_id " +:+ pretty accountId) >>
       ret None)
    (fun e => loggerError "Error on insert label: " e >> ret None).

(** The [VALUES] row built for one staged contact:
    [(contact.pushName, `+${contact.id.split('@')[0]}`, $1, contact.id)]. *)
Definition contactValues (contact : ContactRaw.t) : Sql.ContactValues :=
  Sql.mkContactValues
    (ContactRaw.pushName contact)
    ("+" +:+ Js.beforeAt (ContactRaw.id contact))
    (ContactRaw.id contact).

Definition typeError {A} : M A :=
  throw "TypeError: Cannot read properties of undefined".

(** ** Revision V1 *)

Module V1.

(** [for (let i = 0; i < arr.length; i += chunkSize)
       res.push(arr.slice(i, i + chunkSize))]; the loop makes at most
    [arr.length] rounds when [chunkSize > 0] and none finishes it when
    [chunkSize = 0] and [arr] is not empty. *)
Fixpoint chunkLoop {A} (fuel : nat) (arr : list A) (chunkSize i : nat)
    (res : list (list A)) : option (list (list A)) :=
  if (i <? length arr)%nat then
    match fuel with
    | O => None
    | S fuel' =>
        chunkLoop fuel' arr chunkSize (i + chunkSize)
          (res ++ [Js.slice i (i + chunkSize) arr])
    end
  else Some res.

(** The array [res] at the [return] statement. *)
Definition chunksBuilt {A} (arr : list A) (chunkSize : nat) : option (list (list A)) :=
  chunkLoop (length arr) arr chunkSize 0 [].

(** [return res.flat()] *)
Definition sliceIntoChunks {A} (arr : list A) (chunkSize : nat) : option (list A) :=
  option_map (@concat A) (chunksBuilt arr chunkSize).

Definition insertTag (instanceName : string) (totalContacts : Z) : M (option Z) :=
  tryCatch
    (let* checkResult := query (Sql.checkTag instanceName) in
     if Pg.rowCount checkResult =? 0
     then
       let* result := query (Sql.insertTag instanceName totalContacts) in
       match Pg.rows result with
       | i :: _ => ret (Some i)
       | [] => typeError
       end
     else
       loggerInfo ("Tag with name " +:+ instanceName +:+ " already exists") >>
       let* updateResult := query (Sql.updateTag totalContacts instanceName) in
       match Pg.rows updateResult with
       | i :: _ => ret (Some i)
       | [] => typeError
       end)
    (fun e => loggerError "Error on insert tag: " e >> ret None).

Definition insertTaggings (instanceName : string) (tagId : option Z) (contactIds : list Z)
    : M unit :=
  tryCatch
    (forEachM (fun contactId => query (Sql.insertTagging tagId contactId) >> ret tt) contactIds)
    (fun e => loggerError "Error on insert taggings: " e).

Section Importers.
Variable instance : InstanceDto.t.
Variable provider : ChatwootRaw.t.
Let name := InstanceDto.instanceName instance.

(** The [while (contactsChunk.length > 0)] loop; [contacts] is never
    changed by it. *)
Fixpoint contactsLoop (fuel : nat) (contacts contactsChunk : list ContactRaw.t)
    (totalContactsImported : Z) (contactIds : list Z) : M (Z * list Z) :=
  match contactsChunk with
  | [] => ret (totalContactsImported, contactIds)
  | _ :: _ =>
      match fuel with
      | O => diverge
      | S fuel' =>
          let* result :=
            query (Sql.upsertContacts true (ChatwootRaw.account_id provider)
                     (map contactValues contactsChunk)) in
          let* next := orDiverge (sliceIntoChunks contacts 3000) in
          contactsLoop fuel' contacts next
            (totalContactsImported + Pg.rowCount result)
            (contactIds ++ Pg.rows result)
      end
  end.

Definition importHistoryContacts (fuel : nat) : M (option Z) :=
  tryCatch
    (let* n := getHistoryMessagesLenght instance in
     if (0 <? n)%nat then ret None
     else
       let* contacts := gets (fun w => default [] (historyContacts w !! name)) in
       if (length contacts =? 0)%nat then ret (Some 0)
       else
         let* contactsChunk := orDiverge (sliceIntoChunks contacts 3000) in
         insertLabel name (ChatwootRaw.account_id provider) >>
         let* tagId := insertTag name (Z.of_nat (length contacts)) in
         let* done := contactsLoop fuel contacts contactsChunk 0 [] in
         insertTaggings name tagId done.2 >>
         deleteHistoryContacts instance >>
         ret (Some done.1))
    (fun e => loggerError "Error on import history contacts: " e >> ret None).
End Importers.

Definition getChatwootUser (provider : ChatwootRaw.t) : M (option ChatwootUser.t) :=
  tryCatch
    (let* result := query (Sql.selectAccountUser (ChatwootRaw.account_id provider)) in
     ret (head (Pg.rows result)))
    (fun e => loggerError "Error on get chatwoot user: " e >> ret None).

Definition getAllConversationIds (accountId : Z) (first last : option Z)
    : M (option (list Sql.ConversationRef)) :=
  tryCatch
    (let* result := query (Sql.selectConversations accountId first last) in
     ret (Some (Pg.rows result)))
    (fun e => loggerError "Error on get all conversation ids: " e >> ret None).

Section MessageImporter.
Variable instance : InstanceDto.t.
Variable chatwootService : ChatwootService.t.
Variable provider : ChatwootRaw.t.
Let name := InstanceDto.instanceName instance.

(** [this.historyMessages.get(name)?.sort((a, b) => a.messageTimestamp -
    b.messageTimestamp)]: the staged array itself is reordered; [None] when
    the tenant has none. *)
Definition sortStagedByTimestamp : M (option (list MessageRaw.t)) :=
  fun w =>
    match historyMessages w !! name with
    | Some messages =>
        let sorted :=
          Js.sort (fun a b => MessageRaw.messageTimestamp a - MessageRaw.messageTimestamp b)
            messages in
        (Ok (Some sorted), with_historyMessages w (<[name := sorted]> (historyMessages w)))
    | None => (Ok None, w)
    end.

(** The body of [for (const message of messagesOrderedByTimestamp)];
    [conversations] is [None] when [getAllConversationIds] failed. *)
Fixpoint messagesLoop (contacts : list ContactRaw.t) (chatwootUser : ChatwootUser.t)
    (messages : list MessageRaw.t) (conversations : option (list Sql.ConversationRef))
    (totalMessagesImported : Z) : M Z :=
  match messages with
  | [] => ret totalMessagesImported
  | message :: rest =>
      match List.find (fun contact => String.eqb (ContactRaw.id contact) (MessageRaw.from message))
              contacts with
      | None => messagesLoop contacts chatwootUser rest conversations totalMessagesImported
      | Some sender =>
          match conversations with
          | None => typeError
          | Some known =>
              let phone := "+" +:+ Js.beforeAt (MessageRaw.from message) in
              let* found :=
                match List.find (fun conv => String.eqb (Sql.cr_phone_number conv) phone) known with
                | Some conversation => ret (conversation, known)
                | None =>
                    let* created :=
                      query (ChatwootService.createConversation chatwootService
                               (ChatwootRaw.account_id provider) (ContactRaw.id sender)
                               (ChatwootRaw.inbox_id provider) (MessageRaw.remoteJid message)) in
                    let conversation := Sql.mkConversationRef phone created in
                    ret (conversation, known ++ [conversation])
                end in
              let content :=
                match MessageRaw.message message with
                | Some body =>
                    if nonEmpty (MessageBody.conversation body) then MessageBody.conversation body
                    else MessageBody.extendedText body
                | None => ""
                end in
              let* result :=
                query (Sql.insertMessage content (ChatwootRaw.account_id provider)
                         (ChatwootRaw.inbox_id provider) (Sql.cr_conversation_id found.1)
                         (ChatwootUser.user_id chatwootUser)
                         (MessageRaw.messageTimestamp message)) in
              messagesLoop contacts chatwootUser rest (Some found.2)
                (totalMessagesImported + Pg.rowCount result)
          end
      end
  end.

Definition importHistoryMessages : M (option Z) :=
  tryCatch
    (let* chatwootUser := getChatwootUser provider in
     match chatwootUser with
     | None => throw "Error: User not found to import messages."
     | Some user =>
         let* messagesOrderedByTimestamp := sortStagedByTimestamp in
         match messagesOrderedByTimestamp with
         | None => ret (Some 0)
         | Some [] => ret (Some 0)
         | Some messages =>
             let* conversations :=
               getAllConversationIds (ChatwootRaw.account_id provider)
                 (MessageRaw.messageTimestamp <$> head messages)
                 (MessageRaw.messageTimestamp <$> last messages) in
             let* contacts := gets (fun w => default [] (historyContacts w !! name)) in
             let* total := messagesLoop contacts user messages conversations 0 in
             deleteHistoryMessages instance >>
             clearAll instance >>
             ret (Some total)
         end
     end)
    (fun e => loggerError "Error on import history messages: " e >> ret None).
End MessageImporter.

End V1.

(** ** [Map<string, V>]: keys keep their insertion order *)

Module JsMap.
Section Ops.
Context {V : Type}.

Fixpoint get (k : string) (m : list (string * V)) : option V :=
  match m with
  | [] => None
  | (k', v) :: r => if String.eqb k' k then Some v else get k r
  end.

Fixpoint set (k : string) (v : V) (m : list (string * V)) : list (string * V) :=
  match m with
  | [] => [(k, v)]
  | (k', v') :: r => if String.eqb k' k then (k', v) :: r else (k', v') :: set k v r
  end.
End Ops.
End JsMap.

(** [createMessagesMapByPhoneNumber], for the key each revision derives from
    a message. *)
Definition groupMessages (key : MessageRaw.t -> string) (messages : list MessageRaw.t)
    : list (string * list MessageRaw.t) :=
  fold_left
    (fun map message =>
       let phoneNumber := key message in
       let messagesList := default [] (JsMap.get phoneNumber map) in
       JsMap.set phoneNumber (messagesList ++ [message]) map)
    messages [].

(** The comparator given to [messagesOrdered.sort] in [V2] and [V3]:
    [parseInt(a.key.remoteJid) - parseInt(b.key.remoteJid) ||
     a.messageTimestamp - b.messageTimestamp]. *)
Definition compareMessages (a b : MessageRaw.t) : Z :=
  Js.orElse
    (Js.sub (Js.parseInt (MessageRaw.remoteJid a)) (Js.parseInt (MessageRaw.remoteJid b)))
    (MessageRaw.messageTimestamp a - MessageRaw.messageTimestamp b).

(** [phoneNumbersWithTimestamp]: first and last timestamp of every group. *)
Definition firstLastOf (messages : list MessageRaw.t) : FirstLastTimestamp.t :=
  FirstLastTimestamp.mk
    (MessageRaw.messageTimestamp <$> head messages)
    (MessageRaw.messageTimestamp <$> last messages).

Definition timestampsByPhoneNumber (all : list (string * list MessageRaw.t))
    : list (string * FirstLastTimestamp.t) :=
  map (fun '(phoneNumber, messages) => (phoneNumber, firstLastOf messages)) all.

(** [messagesOrdered.sort(...)] where [messagesOrdered] is the array held by
    [historyMessages]: the staged array itself is reordered. *)
Definition sortStagedMessages (instance : InstanceDto.t) : M (list MessageRaw.t) :=
  fun w =>
    let name := InstanceDto.instanceName instance in
    match historyMessages w !! name with
    | Some messages =>
        let sorted := Js.sort compareMessages messages in
        (Ok sorted, with_historyMessages w (<[name := sorted]> (historyMessages w)))
    | None => (Ok [], w)
    end.


(** ** Revision V2 *)

Module V2.

(** [messages.splice(0, chunkSize)]: the removed prefix, and what the
    array holds afterwards. *)
Definition sliceIntoChunks {A} (messages : list A) (chunkSize : nat) : list A * list A :=
  (take chunkSize messages, drop chunkSize messages).

(** The chunks a [while (chunk.length > 0)] loop of this revision sees:
    it calls [sliceIntoChunks] on the same array until the result is
    empty. *)
Fixpoint chunksDrained {A} (fuel : nat) (messages : list A) (chunkSize : nat)
    : list (list A) :=
  match fuel with
  | O => []
  | S fuel' =>
      let '(chunk, rest) := sliceIntoChunks messages chunkSize in
      match chunk with
      | [] => []
      | _ :: _ => chunk :: chunksDrained fuel' rest chunkSize
      end
  end.

(** [`+${message.key.remoteJid.split('@')[0]}`] *)
Definition phoneNumberOf (message : MessageRaw.t) : string :=
  "+" +:+ Js.beforeAt (MessageRaw.remoteJid message).

Definition createMessagesMapByPhoneNumber := groupMessages phoneNumberOf.

Definition getChatwootUser (provider : ChatwootRaw.t) : M (option ChatwootUser.t) :=
  let* result := query (Sql.selectUser (ChatwootRaw.email provider)) in
  ret (head (Pg.rows result)).

Definition getContentMessage (chatwootService : ChatwootService.t) (message : MessageRaw.t)
    : string :=
  match MessageRaw.message message with
  | Some body =>
      if nonEmpty (MessageBody.conversation body) then MessageBody.conversation body
      else ChatwootService.getMessageContent chatwootService body
  | None => ""
  end.

Definition insertContactChatwoot (provider : ChatwootRaw.t) (phone_number identifier : string)
    : M (option Z) :=
  let* result :=
    query (Sql.insertContact None phone_number (ChatwootRaw.account_id provider) identifier) in
  ret (head (Pg.rows result)).

Definition insertConversationChatwoot (provider : ChatwootRaw.t) (inbox : Inbox.t)
    (contact_id : option Z) : M (option Z) :=
  let* result :=
    query (Sql.insertConversation (ChatwootRaw.account_id provider) (Inbox.id inbox) contact_id) in
  ret (head (Pg.rows result)).

Section Importers.
Variable instance : InstanceDto.t.
Variable chatwootService : ChatwootService.t.
Variable inbox : Inbox.t.
Variable provider : ChatwootRaw.t.
Let name := InstanceDto.instanceName instance.

(** [sliceIntoChunks(contacts, n)] where [contacts] is the array held by
    [historyContacts]: the removal is seen by the staging store. *)
Definition spliceStagedContacts (chunkSize : nat) : M (list ContactRaw.t) :=
  fun w =>
    match historyContacts w !! name with
    | Some contacts =>
        let '(chunk, rest) := sliceIntoChunks contacts chunkSize in
        (Ok chunk, with_historyContacts w (<[name := rest]> (historyContacts w)))
    | None => (Ok [], w)
    end.

Definition spliceStagedMessages (chunkSize : nat) : M (list MessageRaw.t) :=
  fun w =>
    match historyMessages w !! name with
    | Some messages =>
        let '(chunk, rest) := sliceIntoChunks messages chunkSize in
        (Ok chunk, with_historyMessages w (<[name := rest]> (historyMessages w)))
    | None => (Ok [], w)
    end.

Fixpoint contactsLoop (fuel : nat) (contactsChunk : list ContactRaw.t)
    (totalContactsImported : Z) : M Z :=
  match contactsChunk with
  | [] => ret totalContactsImported
  | _ :: _ =>
      match fuel with
      | O => diverge
      | S fuel' =>
          forEachM
            (fun _ => insertLabel name (ChatwootRaw.account_id provider) >> ret tt)
            contactsChunk >>
          let* result :=
            query (Sql.upsertContacts false (ChatwootRaw.account_id provider)
                     (map contactValues contactsChunk)) in
          let* next := spliceStagedContacts 3000 in
          contactsLoop fuel' next (totalContactsImported + Pg.rowCount result)
      end
  end.

Definition importHistoryContacts (fuel : nat) : M (option Z) :=
  tryCatch
    (let* n := getHistoryMessagesLenght instance in
     if (0 <? n)%nat then ret None
     else
       let* contacts := gets (fun w => default [] (historyContacts w !! name)) in
       if (length contacts =? 0)%nat then ret (Some 0)
       else
         let* contactsChunk := spliceStagedContacts 3000 in
         let* total := contactsLoop fuel contactsChunk 0 in
         deleteHistoryContacts instance >>
         ret (Some total))
    (fun e => loggerError "Error on import history contacts: " e >> ret None).

(** One pass of the [for (const phoneNumber of phoneNumbers)] loop of
    the key resolver. *)
Definition resolveOne
    (rows : list FksChatwoot.t)
    (phoneNumbersWithTimestamp : list (string * FirstLastTimestamp.t))
    (messagesByPhoneNumber : list (string * list MessageRaw.t))
    (fksByNumber : list (string * FksChatwoot.t)) (phoneNumber : string)
    : M (list (string * FksChatwoot.t)) :=
  let contact := List.find (fun row => String.eqb (FksChatwoot.phone_number row) phoneNumber) rows in
  if truthy (contact ≫= FksChatwoot.conversation_id)
  then ret (match contact with
            | Some row => JsMap.set phoneNumber row fksByNumber
            | None => fksByNumber
            end)
  else
    let messages := default [] (JsMap.get phoneNumber messagesByPhoneNumber) in
    match messages with
    | [] => ret fksByNumber
    | _ :: _ =>
        let firstMessageTimestamp :=
          JsMap.get phoneNumber phoneNumbersWithTimestamp ≫= FirstLastTimestamp.first in
        let firstMessage :=
          List.find (fun message =>
                       match firstMessageTimestamp with
                       | Some t => MessageRaw.messageTimestamp message =? t
                       | None => false
                       end) messages in
        match firstMessage with
        | Some m =>
            if nonEmpty (MessageRaw.remoteJid m)
            then
              let* contact_id :=
                insertContactChatwoot provider phoneNumber (MessageRaw.remoteJid m) in
              let* conversation_id :=
                insertConversationChatwoot provider inbox contact_id in
              ret (JsMap.set phoneNumber
                     (FksChatwoot.mk phoneNumber contact_id conversation_id) fksByNumber)
            else ret fksByNumber
        | None => ret fksByNumber
        end
    end.

Fixpoint resolveAll
    (rows : list FksChatwoot.t)
    (phoneNumbersWithTimestamp : list (string * FirstLastTimestamp.t))
    (messagesByPhoneNumber : list (string * list MessageRaw.t))
    (fksByNumber : list (string * FksChatwoot.t)) (phoneNumbers : list string)
    : M (list (string * FksChatwoot.t)) :=
  match phoneNumbers with
  | [] => ret fksByNumber
  | phoneNumber :: rest =>
      let* fks' :=
        resolveOne rows phoneNumbersWithTimestamp messagesByPhoneNumber fksByNumber phoneNumber in
      resolveAll rows phoneNumbersWithTimestamp messagesByPhoneNumber fks' rest
  end.

Definition selectOrCreateFksFromChatwoot
    (phoneNumbersWithTimestamp : list (string * FirstLastTimestamp.t))
    (messagesByPhoneNumber : list (string * list MessageRaw.t))
    : M (list (string * FksChatwoot.t)) :=
  let phoneNumbers := map fst messagesByPhoneNumber in
  let* result := query (Sql.selectFks phoneNumbers) in
  resolveAll (Pg.rows result) phoneNumbersWithTimestamp messagesByPhoneNumber [] phoneNumbers.

(** The [VALUES] row built for one message of a group, or nothing when
    the message is skipped. *)
Definition messageValues (fksChatwoot : option FksChatwoot.t) (message : MessageRaw.t)
    : option Sql.MessageValues :=
  match MessageRaw.message message with
  | None => None
  | Some _ =>
      match fksChatwoot ≫= FksChatwoot.conversation_id, fksChatwoot ≫= FksChatwoot.contact_id with
      | Some conversation_id, Some contact_id =>
          if negb (conversation_id =? 0) && negb (contact_id =? 0)
          then
            let contentMessage := getContentMessage chatwootService message in
            if nonEmpty contentMessage
            then Some (Sql.mkMessageValues contentMessage conversation_id contact_id
                         (MessageRaw.messageTimestamp message))
            else None
          else None
      | _, _ => None
      end
  end.

Definition chunkValues (fksByNumber : list (string * FksChatwoot.t))
    (messagesByPhoneNumber : list (string * list MessageRaw.t)) : list Sql.MessageValues :=
  flat_map
    (fun '(phoneNumber, messages) =>
       omap (messageValues (JsMap.get phoneNumber fksByNumber)) messages)
    messagesByPhoneNumber.

(** The [while (messagesChunk.length > 0)] loop.  The next chunk is
    taken inside the [if (messagesByPhoneNumber.size > 0)] block. *)
Fixpoint messagesLoop (fuel : nat)
    (phoneNumbersWithTimestamp : list (string * FirstLastTimestamp.t))
    (messagesChunk : list MessageRaw.t) (totalMessagesImported : Z) : M Z :=
  match messagesChunk with
  | [] => ret totalMessagesImported
  | _ :: _ =>
      match fuel with
      | O => diverge
      | S fuel' =>
          let messagesByPhoneNumber := createMessagesMapByPhoneNumber messagesChunk in
          if (0 <? length messagesByPhoneNumber)%nat
          then
            let* fksByNumber :=
              selectOrCreateFksFromChatwoot phoneNumbersWithTimestamp messagesByPhoneNumber in
            let* result :=
              query (Sql.upsertMessages (ChatwootRaw.account_id provider) (Inbox.id inbox)
                       (chunkValues fksByNumber messagesByPhoneNumber)) in
            let* next := spliceStagedMessages 4000 in
            messagesLoop fuel' phoneNumbersWithTimestamp next
              (totalMessagesImported + Pg.rowCount result)
          else
            messagesLoop fuel' phoneNumbersWithTimestamp messagesChunk totalMessagesImported
      end
  end.

Definition importHistoryMessages (fuel : nat) : M (option Z) :=
  tryCatch
    (let* chatwootUser := getChatwootUser provider in
     match chatwootUser with
     | None => throw "Error: User not found to import messages."
     | Some _ =>
         let* staged := gets (fun w => default [] (historyMessages w !! name)) in
         if (length staged =? 0)%nat then ret (Some 0)
         else
           let* messagesOrdered := sortStagedMessages instance in
           let phoneNumbersWithTimestamp :=
             timestampsByPhoneNumber (createMessagesMapByPhoneNumber messagesOrdered) in
           let* messagesChunk := spliceStagedMessages 4000 in
           let* total := messagesLoop fuel phoneNumbersWithTimestamp messagesChunk 0 in
           deleteHistoryMessages instance >>
           ret (Some total)
     end)
    (fun e => loggerError "Error on import history messages: " e >> ret None).
End Importers.

End V2.

(** ** Revision V3 *)

Module V3Sql.
Import Pg.

Fixpoint allDigits (s : string) : bool :=
  match s with
  | EmptyString => true
  | String c r =>
      match Js.digitIn 10 c with
      | Some _ => allDigits r
      | None => false
      end
  end.

(** A text parameter bound to an integer column: digits convert, anything
    else raises. *)
Definition pgInteger (s : string) : option Z :=
  if allDigits s then Js.parseDigits 10 None s else None.

(** The tagging insert of this revision binds [contact.id], a string, as
    [taggable_id]. *)
Definition insertTagging (tagId : option Z) (contactId : string) : Stmt (QueryResult unit) :=
  fun d =>
    match pgInteger contactId with
    | Some i => Sql.insertTagging tagId i d
    | None => inl "error: invalid input syntax for type integer"
    end.

(** The single statement of the key resolver:
    [WITH ins1 AS (INSERT INTO contacts ... ON CONFLICT (identifier,
     account_id) DO NOTHING RETURNING id AS contact_id),
     ins2 AS (INSERT INTO conversations (...) VALUES ($1, $6,
     COALESCE((SELECT contact_id FROM ins1), (SELECT id FROM contacts WHERE
     identifier = $5 AND account_id = $1)), ...) RETURNING id AS
     conversation_id, contact_id)
     SELECT COALESCE(ins1.contact_id, <existing contact>) AS contact_id,
            COALESCE(ins2.conversation_id, <existing conversation>) AS
            conversation_id].
    The sub-statements read the tables as they were when the statement
    started; [ins2] has no condition. *)
Definition selectOrCreateContactConversation
    (account : Z) (phone name : string) (contactAt : option Z) (identifier : string)
    (inbox : Z) (conversationAt : option Z) : Stmt (QueryResult FksChatwoot.t) :=
  fun d =>
    match contactAt, conversationAt with
    | Some cAt, Some cvAt =>
        let existing := List.find (Sql.contactKey account identifier) (contacts d) in
        let ins1 : option Z :=
          match existing with
          | Some _ => None
          | None => Some (nextId (map c_id (contacts d)))
          end in
        let contacts' :=
          match ins1 with
          | Some i => contacts d ++ [mkContact i (Some name) phone account identifier cAt]
          | None => contacts d
          end in
        match (match ins1 with Some i => Some i | None => c_id <$> existing end) with
        | Some contact_id =>
            let conversation_id := nextId (map cv_id (conversations d)) in
            inr (resultOf [FksChatwoot.mk phone (Some contact_id) (Some conversation_id)],
                 with_conversations (with_contacts d contacts')
                   (conversations d ++ [mkConversation conversation_id account inbox contact_id cvAt]))
        | None => inl "error: null value in column contact_id"
        end
    | _, _ => inl "error: null value in column created_at"
    end.

Record MessageValues : Type := mkMessageValues {
  mv_content : string;
  mv_conversation_id : option Z
}.

(** [INSERT INTO messages (content, account_id, inbox_id, conversation_id,
     message_type, private, status, created_at, updated_at) VALUES
     (..., NOW(), NOW()),...]: no conflict clause. *)
Definition insertMessages (account inbox : Z) (vs : list MessageValues) : Stmt (QueryResult unit) :=
  fun d =>
    match vs with
    | [] => inl "error: syntax error at end of input"
    | _ =>
        if forallb (fun v => bool_decide (is_Some (mv_conversation_id v))) vs
        then
          inr (mkResult (Z.of_nat (length vs)) [],
               with_messages d
                 (fold_left
                    (fun tbl v =>
                       tbl ++ [mkMessage (nextId (map m_id tbl)) (mv_content v) account inbox
                                 (default 0 (mv_conversation_id v)) None (now d)])
                    vs (messages d)))
        else inl "error: null value in column conversation_id"
    end.
End V3Sql.

Module V3.

(** [array.slice(0, chunkSize)] *)
Definition sliceIntoChunks {A} (array : list A) (chunkSize : nat) : list A :=
  Js.slice 0 chunkSize array.

Definition createMessagesMapByPhoneNumber := groupMessages MessageRaw.remoteJid.

Definition insertTag (instanceName : string) (totalContacts : Z) : M (option Z) :=
  tryCatch
    (let* result := query (Sql.insertTag instanceName totalContacts) in
     match Pg.rows result with
     | i :: _ => ret (Some i)
     | [] => typeError
     end)
    (fun e => loggerError "Error on insert tag: " e >> ret None).

Definition insertTaggings (tagId : option Z) (contacts : list ContactRaw.t) : M unit :=
  tryCatch
    (forEachM
       (fun contact => query (V3Sql.insertTagging tagId (ContactRaw.id contact)) >> ret tt)
       contacts)
    (fun e => loggerError "Error on insert taggings: " e).

Definition getChatwootUser (provider : ChatwootRaw.t) : M (option ChatwootUser.t) :=
  tryCatch
    (let* user := query (Sql.selectUser (ChatwootRaw.email provider)) in
     ret (head (Pg.rows user)))
    (fun e => loggerError "Error on select chatwoot user: " e >> ret None).

Section Importers.
Variable instance : InstanceDto.t.
Variable provider : ChatwootRaw.t.
Let name := InstanceDto.instanceName instance.

Fixpoint contactsLoop (fuel : nat) (contacts contactsChunk : list ContactRaw.t)
    (totalContactsImported : Z) : M Z :=
  match contactsChunk with
  | [] => ret totalContactsImported
  | _ :: _ =>
      match fuel with
      | O => diverge
      | S fuel' =>
          let* result :=
            query (Sql.upsertContacts false (ChatwootRaw.account_id provider)
                     (map contactValues contactsChunk)) in
          contactsLoop fuel' contacts (sliceIntoChunks contacts 3000)
            (totalContactsImported + Pg.rowCount result)
      end
  end.

Definition importHistoryContacts (fuel : nat) : M (option Z) :=
  tryCatch
    (let* n := getHistoryMessagesLenght instance in
     if (0 <? n)%nat then ret None
     else
       let* contacts := gets (fun w => default [] (historyContacts w !! name)) in
       if (length contacts =? 0)%nat then ret (Some 0)
       else
         let contactsChunk := sliceIntoChunks contacts 3000 in
         insertLabel name (ChatwootRaw.account_id provider) >>
         let* tagId := insertTag name (Z.of_nat (length contacts)) in
         let* total := contactsLoop fuel contacts contactsChunk 0 in
         insertTaggings tagId contacts >>
         deleteHistoryContacts instance >>
         ret (Some total))
    (fun e => loggerError "Error on import history contacts: " e >> ret None).

(** One pass of the resolver's [for] loop; an error ends the loop and the
    pairs found so far are returned. *)
Definition resolveOne
    (phoneNumbersWithTimestamp : list (string * FirstLastTimestamp.t))
    (fksByNumber : list (string * FksChatwoot.t))
    (entry : string * list MessageRaw.t) : M (list (string * FksChatwoot.t)) :=
  let '(phoneNumber, messages) := entry in
  match JsMap.get phoneNumber phoneNumbersWithTimestamp, messages with
  | Some firstLastTimestamp, first :: _ =>
      let* result :=
        query (V3Sql.selectOrCreateContactConversation
                 (ChatwootRaw.account_id provider)
                 ("+" +:+ Js.beforeAt phoneNumber)
                 (MessageRaw.pushName first)
                 (FirstLastTimestamp.first firstLastTimestamp)
                 phoneNumber
                 (ChatwootRaw.id provider)
                 (FirstLastTimestamp.first firstLastTimestamp)) in
      let row := head (Pg.rows result) in
      ret (JsMap.set phoneNumber
             (FksChatwoot.mk phoneNumber
                (row ≫= FksChatwoot.contact_id)
                (row ≫= FksChatwoot.conversation_id))
             fksByNumber)
  | _, _ => typeError
  end.

Fixpoint resolveAll
    (phoneNumbersWithTimestamp : list (string * FirstLastTimestamp.t))
    (fksByNumber : list (string * FksChatwoot.t))
    (entries : list (string * list MessageRaw.t)) : M (list (string * FksChatwoot.t)) :=
  match entries with
  | [] => ret fksByNumber
  | entry :: rest =>
      let* step :=
        tryCatch
          (let* fks' := resolveOne phoneNumbersWithTimestamp fksByNumber entry in
           ret (Some fks'))
          (fun e =>
             loggerError "Error on select or create Fks from chatwoot: " e >> ret None) in
      match step with
      | Some fks' => resolveAll phoneNumbersWithTimestamp fks' rest
      | None => ret fksByNumber
      end
  end.

Definition selectOrCreateFksFromChatwoot
    (phoneNumbersWithTimestamp : list (string * FirstLastTimestamp.t))
    (messagesByPhoneNumber : list (string * list MessageRaw.t))
    : M (list (string * FksChatwoot.t)) :=
  resolveAll phoneNumbersWithTimestamp [] messagesByPhoneNumber.

(** The [VALUES] rows of a chunk; reading [fks.conversation_id] of a
    phone number the resolver did not return is a [TypeError]. *)
Fixpoint chunkValues (fksByNumber : list (string * FksChatwoot.t))
    (messagesByPhoneNumber : list (string * list MessageRaw.t))
    : option (list V3Sql.MessageValues) :=
  match messagesByPhoneNumber with
  | [] => Some []
  | (phoneNumber, messages) :: rest =>
      match messages, JsMap.get phoneNumber fksByNumber with
      | _ :: _, None => None
      | _, fks =>
          option_map
            (app (map (fun message =>
                         V3Sql.mkMessageValues (MessageRaw.messageText message)
                           (fks ≫= FksChatwoot.conversation_id))
                    messages))
            (chunkValues fksByNumber rest)
      end
  end.

Fixpoint messagesLoop (fuel : nat)
    (phoneNumbersWithTimestamp : list (string * FirstLastTimestamp.t))
    (messagesOrdered messagesChunk : list MessageRaw.t) (totalMessagesImported : Z) : M Z :=
  match messagesChunk with
  | [] => ret totalMessagesImported
  | _ :: _ =>
      match fuel with
      | O => diverge
      | S fuel' =>
          let messagesByPhoneNumber := createMessagesMapByPhoneNumber messagesChunk in
          let* imported :=
            if (0 <? length messagesByPhoneNumber)%nat
            then
              let* fksByNumber :=
                selectOrCreateFksFromChatwoot phoneNumbersWithTimestamp messagesByPhoneNumber in
              match chunkValues fksByNumber messagesByPhoneNumber with
              | Some vs =>
                  let* result :=
                    query (V3Sql.insertMessages (ChatwootRaw.account_id provider)
                             (ChatwootRaw.id provider) vs) in
                  ret (Pg.rowCount result)
              | None => typeError
              end
            else ret 0 in
          messagesLoop fuel' phoneNumbersWithTimestamp messagesOrdered
            (sliceIntoChunks messagesOrdered 4000) (totalMessagesImported + imported)
      end
  end.

Definition importHistoryMessages (fuel : nat) : M (option Z) :=
  tryCatch
    (let* chatwootUser := getChatwootUser provider in
     match chatwootUser with
     | None => throw "Error: User not found to import messages."
     | Some _ =>
         let* staged := gets (fun w => default [] (historyMessages w !! name)) in
         if (length staged =? 0)%nat then ret (Some 0)
         else
           let* messagesOrdered := sortStagedMessages instance in
           let phoneNumbersWithTimestamp :=
             timestampsByPhoneNumber (createMessagesMapByPhoneNumber messagesOrdered) in
           let messagesChunk := sliceIntoChunks messagesOrdered 4000 in
           let* total :=
             messagesLoop fuel phoneNumbersWithTimestamp messagesOrdered messagesChunk 0 in
           deleteHistoryMessages instance >>
           clearAll instance >>
           ret (Some total)
     end)
    (fun e => loggerError "Error on import history messages: " e >> ret None).
End Importers.

End V3.

(** ** Vocabulary of the statements *)

(** [ceil (n / c)] *)
Definition ceilDiv (n c : nat) : nat := ((n + c - 1) / c)%nat.

(** An invariant of the world that a method never breaks, whatever its
    outcome. *)
Definition maintains {A} (I : World -> Prop) (m : M A) : Prop :=
  forall w, I w -> I (m w).2.

(** A method that comes back, with a value or an error. *)
Definition total {A} (m : M A) : Prop := forall w, (m w).1 <> Diverge.

(** A method that comes back with a value. *)
Definition returns {A} (m : M A) : Prop := forall w, exists a, (m w).1 = Ok a.

(** Invariants that only read the three maps of the class, the fault
    script, or the message table. *)
Definition onStore
    (J : gmap string (gset string) -> gmap string (list MessageRaw.t) ->
         gmap string (list ContactRaw.t) -> Prop) (w : World) : Prop :=
  J (repositoryMessagesCache w) (historyMessages w) (historyContacts w).

Definition noFaults (w : World) : Prop := faults w = [].

Definition onMessages (P : list Pg.MessageRow -> Prop) (w : World) : Prop :=
  P (Pg.messages (db w)).

(** What tenant [b] has staged. *)
Definition tenantView (b : string) (w : World)
    : option (gset string) * option (list MessageRaw.t) * option (list ContactRaw.t) :=
  (repositoryMessagesCache w !! b, historyMessages w !! b, historyContacts w !! b).

(** The three maps of the class are the same in both worlds. *)
Definition sameStore (w w' : World) : Prop :=
  repositoryMessagesCache w' = repositoryMessagesCache w /\
  historyMessages w' = historyMessages w /\
  historyContacts w' = historyContacts w.

(** No two message rows share [(conversation_id, created_at)]. *)
Definition messageKeys (tbl : list Pg.MessageRow) : list (Z * Z) :=
  map (fun r => (Pg.m_conversation_id r, Pg.m_created_at r)) tbl.

Definition keysUnique (tbl : list Pg.MessageRow) : Prop := NoDup (messageKeys tbl).

(** Every staged identifier starts with a number, as in ["<digits>@<domain>"]. *)
Definition hasNumber (m : MessageRaw.t) : Prop :=
  is_Some (Js.parseInt (MessageRaw.remoteJid m)).

Definition numbered (messages : list MessageRaw.t) : Prop := Forall hasNumber messages.

(** The public methods of the class that touch the staging store, with the
    arguments they take next to [instance]. *)
Inductive Operation : Type :=
| GetRepositoryMessagesCache
| SetRepositoryMessagesCache (cache : gset string)
| DeleteRepositoryMessagesCache
| AddHistoryMessages (messagesRaw : list MessageRaw.t)
| AddHistoryContacts (contactsRaw : list ContactRaw.t)
| DeleteHistoryMessages
| DeleteHistoryContacts
| ClearAll
| GetHistoryMessagesLenght
| ImportHistoryContactsV1 (provider : ChatwootRaw.t) (fuel : nat)
| ImportHistoryContactsV2 (provider : ChatwootRaw.t) (fuel : nat)
| ImportHistoryContactsV3 (provider : ChatwootRaw.t) (fuel : nat)
| ImportHistoryMessagesV1 (chatwootService : ChatwootService.t) (provider : ChatwootRaw.t)
| ImportHistoryMessagesV2 (chatwootService : ChatwootService.t) (inbox : Inbox.t)
    (provider : ChatwootRaw.t) (fuel : nat)
| ImportHistoryMessagesV3 (provider : ChatwootRaw.t) (fuel : nat).

(** Calling a method for [instance]; its result is dropped. *)
Definition perform (instance : InstanceDto.t) (op : Operation) : M unit :=
  match op with
  | GetRepositoryMessagesCache => getRepositoryMessagesCache instance >> ret tt
  | SetRepositoryMessagesCache cache => setRepositoryMessagesCache instance cache
  | DeleteRepositoryMessagesCache => deleteRepositoryMessagesCache instance
  | AddHistoryMessages messagesRaw => addHistoryMessages instance messagesRaw
  | AddHistoryContacts contactsRaw => addHistoryContacts instance contactsRaw
  | DeleteHistoryMessages => deleteHistoryMessages instance
  | DeleteHistoryContacts => deleteHistoryContacts instance
  | ClearAll => clearAll instance
  | GetHistoryMessagesLenght => getHistoryMessagesLenght instance >> ret tt
  | ImportHistoryContactsV1 provider fuel =>
      V1.importHistoryContacts instance provider fuel >> ret tt
  | ImportHistoryContactsV2 provider fuel =>
      V2.importHistoryContacts instance provider fuel >> ret tt
  | ImportHistoryContactsV3 provider fuel =>
      V3.importHistoryContacts instance provider fuel >> ret tt
  | ImportHistoryMessagesV1 chatwootService provider =>
      V1.importHistoryMessages instance chatwootService provider >> ret tt
  | ImportHistoryMessagesV2 chatwootService inbox provider fuel =>
      V2.importHistoryMessages instance chatwootService inbox provider fuel >> ret tt
  | ImportHistoryMessagesV3 provider fuel =>
      V3.importHistoryMessages instance provider fuel >> ret tt
  end.

(** Tenant [b] has staged exactly [v]. *)
Definition stagedFor (b : string)
    (v : option (gset string) * option (list MessageRaw.t) * option (list ContactRaw.t))
    : World -> Prop :=
  onStore (fun c hm hc => (c !! b, hm !! b, hc !! b) = v).

(** The staging store is exactly the given one. *)
Definition storeIs (c0 : gmap string (gset string)) (hm0 : gmap string (list MessageRaw.t))
    (hc0 : gmap string (list ContactRaw.t)) : World -> Prop :=
  onStore (fun c hm hc => c = c0 /\ hm = hm0 /\ hc = hc0).

(** The staging store is the given one, except that tenant [name] is left
    with a suffix of [ordered] as its staged messages (resp. contacts). *)
Definition messagesDrained (name : string) (c0 : gmap string (gset string))
    (hm0 : gmap string (list MessageRaw.t)) (hc0 : gmap string (list ContactRaw.t))
    (ordered : list MessageRaw.t) : World -> Prop :=
  onStore (fun c hm hc =>
    c = c0 /\ hc = hc0 /\ exists k : nat, hm = <[name := drop k ordered]> hm0).

Definition contactsDrained (name : string) (c0 : gmap string (gset string))
    (hm0 : gmap string (list MessageRaw.t)) (hc0 : gmap string (list ContactRaw.t))
    (staged : list ContactRaw.t) : World -> Prop :=
  onStore (fun c hm hc =>
    c = c0 /\ hm = hm0 /\ exists k : nat, hc = <[name := drop k staged]> hc0).

(** A map of groups holds, under every key, the messages of that key in the
    order of the sequence they were taken from. *)
Definition sameKey (key : MessageRaw.t -> string) (p : string) (m : MessageRaw.t) : bool :=
  String.eqb (key m) p.

Definition groupsOf (key : MessageRaw.t -> string)
    (groups : list (string * list MessageRaw.t)) (messages : list MessageRaw.t) : Prop :=
  NoDup (map fst groups) /\
  (forall p g, (p, g) ∈ groups -> g = List.filter (sameKey key p) messages) /\
  (forall x, x ∈ messages -> key x ∈ map fst groups).

Definition olderFirst (a b : MessageRaw.t) : Prop :=
  MessageRaw.messageTimestamp a <= MessageRaw.messageTimestamp b.

(** ** Sample data for the concrete runs *)

Module Sample.
Definition instance : InstanceDto.t := InstanceDto.mk "tenant-a".
Definition provider : ChatwootRaw.t := ChatwootRaw.mk 1 5 "agent@example.com" 3.
Definition inbox : Inbox.t := Inbox.mk 3.
(** A helpdesk that opens a conversation for the contact whose identifier
    it is given. *)
Definition openConversation (account : Z) (contact : string) (inbox : Z) (source : string)
    : Pg.Stmt Z :=
  fun d =>
    match List.find (Sql.contactKey account contact) (Pg.contacts d) with
    | Some c =>
        let i := Pg.nextId (map Pg.cv_id (Pg.conversations d)) in
        inr (i, Pg.with_conversations d
                  (Pg.conversations d ++ [Pg.mkConversation i account inbox (Pg.c_id c) (Pg.now d)]))
    | None => inl "Error: Contact not found"
    end.

Definition service : ChatwootService.t :=
  ChatwootService.mk MessageBody.extendedText openConversation.

Definition text (jid : string) (at_ : Z) (body : string) : MessageRaw.t :=
  MessageRaw.mk jid at_ "Alice" (Some (MessageBody.mk body "")) body jid.

Definition alice : ContactRaw.t := ContactRaw.mk "100@d" "Alice".
Definition bob : ContactRaw.t := ContactRaw.mk "200@d" "Bob".

Definition hi : MessageRaw.t := text "100@d" 10 "hi".
Definition yo : MessageRaw.t := text "100@d" 5 "yo".
Definition bye : MessageRaw.t := text "100@d" 20 "bye".

(** Empty tables, with or without the acting user. *)
Definition tables (users : list Pg.UserRow) : Pg.DB :=
  Pg.mkDB [] [] [] [] [] [] users [] 1000.

Definition agent : Pg.UserRow := Pg.mkUser "agent@example.com" 7 "SuperAdmin".

Definition world (users : list Pg.UserRow) (script : list bool)
    (messages : list MessageRaw.t) (contacts : list ContactRaw.t) : World :=
  mkWorld ∅
    (if messages is [] then ∅ else {[ "tenant-a" := messages ]})
    (if contacts is [] then ∅ else {[ "tenant-a" := contacts ]})
    (tables users) script [].
End Sample.

(** ** Vocabulary of the further properties *)

(** The string holds no ['@']. *)
Fixpoint noAt (s : string) : bool :=
  match s with
  | EmptyString => true
  | String c r => negb (Ascii.eqb c "@") && noAt r
  end.

(** An invariant that only reads the tables. *)
Definition onTables (P : Pg.DB -> Prop) (w : World) : Prop := P (db w).

(** No two contact rows share [(identifier, account_id)]. *)
Definition contactKeys (tbl : list Pg.ContactRow) : list (string * Z) :=
  map (fun r => (Pg.c_identifier r, Pg.c_account_id r)) tbl.

Definition contactKeysUnique (d : Pg.DB) : Prop := NoDup (contactKeys (Pg.contacts d)).

(** No two labels share [(title, account_id)]; no two tags share a name. *)
Definition labelKeys (tbl : list Pg.LabelRow) : list (string * Z) :=
  map (fun r => (Pg.l_title r, Pg.l_account_id r)) tbl.

Definition labelsUnique (d : Pg.DB) : Prop := NoDup (labelKeys (Pg.labels d)).

Definition tagNamesUnique (d : Pg.DB) : Prop := NoDup (map Pg.t_name (Pg.tags d)).

(** Every message row has some content. *)
Definition contentful (tbl : list Pg.MessageRow) : Prop :=
  Forall (fun r => nonEmpty (Pg.m_content r) = true) tbl.

(** [contacts.find(contact => contact.id === message.from)] finds a
    contact. *)
Definition senderStaged (contacts : list ContactRaw.t) (message : MessageRaw.t) : bool :=
  existsb (fun contact => String.eqb (ContactRaw.id contact) (MessageRaw.from message)) contacts.

(** The comparator given to [sort] in the first class:
    [(a, b) => a.messageTimestamp - b.messageTimestamp]. *)
Definition byTimestamp (a b : MessageRaw.t) : Z :=
  MessageRaw.messageTimestamp a - MessageRaw.messageTimestamp b.

(** * Properties *)

(** ** JavaScript primitives *)

Example parseInt_jid : Js.parseInt "5521999999999@s.whatsapp.net" = Some 5521999999999.
Proof. reflexivity. Qed.

Example parseInt_nan : Js.parseInt "status@broadcast" = None.
Proof. reflexivity. Qed.

Example beforeAt_jid : Js.beforeAt "5521999999999@domain" = "5521999999999".
Proof. reflexivity. Qed.

Section SortFacts.
Context {A : Type} (cmp : A -> A -> Z).

Lemma insertSorted_Permutation x l : Js.insertSorted cmp x l ≡ₚ x :: l.
Proof.
  induction l as [|y ys IH]; simpl; [done|].
  destruct (cmp x y <=? 0); [done|].
  rewrite IH. apply Permutation_swap.
Qed.

Lemma sort_Permutation l : Js.sort cmp l ≡ₚ l.
Proof.
  induction l as [|x xs IH]; simpl; [done|].
  rewrite insertSorted_Permutation. by rewrite IH.
Qed.

Lemma sort_length l : length (Js.sort cmp l) = length l.
Proof. apply Permutation_length, sort_Permutation. Qed.

(** On a set of elements where the comparator is an antisymmetric and
    transitive order, the result is ordered all along. *)
Variable dom : A -> Prop.
Hypothesis cmp_total : forall a b, dom a -> dom b -> 0 < cmp a b -> cmp b a <= 0.
Hypothesis cmp_trans :
  forall a b c, dom a -> dom b -> dom c -> cmp a b <= 0 -> cmp b c <= 0 -> cmp a c <= 0.

Let le (a b : A) : Prop := cmp a b <= 0.

Lemma insertSorted_sorted x l :
  dom x -> Forall dom l -> StronglySorted le l ->
  StronglySorted le (Js.insertSorted cmp x l).
Proof.
  intros Hx Hl Hs. induction Hs as [|y ys Hys IH Hall]; simpl.
  - repeat constructor.
  - apply Forall_cons in Hl as [Hy Hl].
    destruct (cmp x y <=? 0) eqn:E.
    + apply Z.leb_le in E.
      apply SSorted_cons; [by apply SSorted_cons|].
      apply Forall_cons; split; [exact E|].
      rewrite Forall_forall in Hall. rewrite Forall_forall in Hl.
      apply Forall_forall. intros z Hz.
      apply (cmp_trans x y z); auto. by apply Hall.
    + apply Z.leb_gt in E.
      apply SSorted_cons; [by apply IH|].
      rewrite insertSorted_Permutation.
      apply Forall_cons; split; [|done].
      apply cmp_total; auto.
Qed.

Lemma sort_sorted l : Forall dom l -> StronglySorted le (Js.sort cmp l).
Proof.
  induction l as [|x xs IH]; intros Hl; simpl; [constructor|].
  apply Forall_cons in Hl as [Hx Hl].
  apply insertSorted_sorted; [done| |by apply IH].
  by rewrite sort_Permutation.
Qed.
End SortFacts.

(** [parseInt] reads nothing beyond the first ['@']. *)

Lemma isWhiteSpace_at : Js.isWhiteSpace "@" = false.
Proof. reflexivity. Qed.

Lemma digitIn_at radix : Js.digitIn radix "@" = None.
Proof. reflexivity. Qed.

Lemma trimStart_beforeAt s : Js.trimStart (Js.beforeAt s) = Js.beforeAt (Js.trimStart s).
Proof.
  induction s as [|c s IH]; simpl; [done|].
  destruct (Ascii.eqb_spec c "@") as [->|Hc].
  - by rewrite isWhiteSpace_at; simpl.
  - simpl. destruct (Js.isWhiteSpace c); [done|].
    simpl. by destruct (Ascii.eqb_spec c "@").
Qed.

Lemma parseDigits_beforeAt radix acc s :
  Js.parseDigits radix acc (Js.beforeAt s) = Js.parseDigits radix acc s.
Proof.
  revert acc. induction s as [|c s IH]; intros acc; simpl; [done|].
  destruct (Ascii.eqb_spec c "@") as [->|Hc].
  - by rewrite digitIn_at.
  - simpl. destruct (Js.digitIn radix c); [apply IH|done].
Qed.

Lemma stripSign_beforeAt s :
  Js.stripSign (Js.beforeAt s) = ((Js.stripSign s).1, Js.beforeAt (Js.stripSign s).2).
Proof.
  destruct s as [|c s]; simpl; [done|].
  destruct (Ascii.eqb_spec c "@") as [->|Hc]; simpl; [done|].
  destruct (Ascii.eqb c "-"); [done|].
  destruct (Ascii.eqb c "+"); [done|].
  simpl. by destruct (Ascii.eqb_spec c "@").
Qed.

Lemma stripHexPrefix_beforeAt s :
  Js.stripHexPrefix (Js.beforeAt s)
  = ((Js.stripHexPrefix s).1, Js.beforeAt (Js.stripHexPrefix s).2).
Proof.
  destruct s as [|c0 [|c1 s]]; simpl; [done| |].
  - by destruct (Ascii.eqb c0 "@").
  - destruct (Ascii.eqb_spec c0 "@") as [->|H0]; simpl; [done|].
    destruct (Ascii.eqb_spec c1 "@") as [->|H1]; simpl.
    + rewrite andb_false_r. simpl.
      destruct (Ascii.eqb_spec c0 "@"); [done|]. simpl. reflexivity.
    + destruct (Ascii.eqb c0 "0" && (Ascii.eqb c1 "x" || Ascii.eqb c1 "X")); simpl; [done|].
      destruct (Ascii.eqb_spec c0 "@"); [done|].
      by destruct (Ascii.eqb_spec c1 "@").
Qed.

Lemma parseInt_beforeAt s : Js.parseInt (Js.beforeAt s) = Js.parseInt s.
Proof.
  unfold Js.parseInt.
  rewrite trimStart_beforeAt, stripSign_beforeAt.
  destruct (Js.stripSign (Js.trimStart s)) as [sign s2]; simpl.
  rewrite stripHexPrefix_beforeAt.
  destruct (Js.stripHexPrefix s2) as [radix s3]; simpl.
  by rewrite parseDigits_beforeAt.
Qed.

(** Two identifiers with one derived phone number start with one number. *)
Lemma phoneNumberOf_parseInt a b :
  V2.phoneNumberOf a = V2.phoneNumberOf b ->
  Js.parseInt (MessageRaw.remoteJid a) = Js.parseInt (MessageRaw.remoteJid b).
Proof.
  unfold V2.phoneNumberOf. intros H. injection H as H.
  change (Js.beforeAt (MessageRaw.remoteJid a) = Js.beforeAt (MessageRaw.remoteJid b)) in H.
  rewrite <- (parseInt_beforeAt (MessageRaw.remoteJid a)).
  rewrite <- (parseInt_beforeAt (MessageRaw.remoteJid b)).
  by rewrite H.
Qed.

(** On identifiers that start with a number the comparator is the
    lexicographic order on (number, timestamp). *)

Lemma compareMessages_total a b :
  hasNumber a -> hasNumber b -> 0 < compareMessages a b -> compareMessages b a <= 0.
Proof.
  unfold hasNumber, compareMessages. intros [x ->] [y ->]. simpl.
  destruct (Z.eqb_spec (x - y) 0), (Z.eqb_spec (y - x) 0); lia.
Qed.

Lemma compareMessages_trans a b c :
  hasNumber a -> hasNumber b -> hasNumber c ->
  compareMessages a b <= 0 -> compareMessages b c <= 0 -> compareMessages a c <= 0.
Proof.
  unfold hasNumber, compareMessages. intros [x ->] [y ->] [z ->]. simpl.
  destruct (Z.eqb_spec (x - y) 0), (Z.eqb_spec (y - z) 0), (Z.eqb_spec (x - z) 0); lia.
Qed.

Lemma compareMessages_same_number a b :
  Js.parseInt (MessageRaw.remoteJid a) = Js.parseInt (MessageRaw.remoteJid b) ->
  compareMessages a b = MessageRaw.messageTimestamp a - MessageRaw.messageTimestamp b.
Proof.
  unfold compareMessages. intros ->.
  destruct (Js.parseInt (MessageRaw.remoteJid b)) as [y|]; simpl; [|done].
  by rewrite Z.sub_diag.
Qed.

Lemma sorted_messages staged :
  numbered staged ->
  StronglySorted (fun a b => compareMessages a b <= 0) (Js.sort compareMessages staged).
Proof.
  intros H. apply (sort_sorted compareMessages hasNumber).
  - apply compareMessages_total.
  - apply compareMessages_trans.
  - exact H.
Qed.

(** In a list ordered all along, an element found later is not smaller. *)
Lemma StronglySorted_lookup {A} (R : A -> A -> Prop) (l : list A) (i j : nat) (x y : A) :
  StronglySorted R l -> l !! i = Some x -> l !! j = Some y -> (i < j)%nat -> R x y.
Proof.
  intros Hs. revert i j. induction Hs as [|z l Hl IH Hall]; intros i j Hi Hj Hij.
  - by rewrite lookup_nil in Hi.
  - destruct j as [|j]; [lia|]. simpl in Hj.
    destruct i as [|i]; simpl in Hi.
    + injection Hi as ->. rewrite Forall_forall in Hall.
      apply Hall. by eapply list_elem_of_lookup_2.
    + apply (IH i j); [done|done|lia].
Qed.

(** ** Reasoning rules for method bodies *)

Section Rules.
Context {A B : Type}.
Implicit Types (I : World -> Prop).

Lemma maintains_ret I (a : A) : maintains I (ret a).
Proof. by intros w. Qed.

Lemma maintains_throw I e : maintains I (@throw A e).
Proof. by intros w. Qed.

Lemma maintains_diverge I : maintains I (@diverge A).
Proof. by intros w. Qed.

Lemma maintains_gets I (f : World -> A) : maintains I (gets f).
Proof. by intros w. Qed.

Lemma maintains_bind I (m : M A) (k : A -> M B) :
  maintains I m -> (forall a, maintains I (k a)) -> maintains I (bind m k).
Proof.
  intros Hm Hk w Hw. unfold bind. specialize (Hm w Hw).
  destruct (m w) as [[a|e|] w']; simpl in *; [by apply Hk|done|done].
Qed.

Lemma maintains_tryCatch I (m : M A) (h : string -> M A) :
  maintains I m -> (forall e, maintains I (h e)) -> maintains I (tryCatch m h).
Proof.
  intros Hm Hh w Hw. unfold tryCatch. specialize (Hm w Hw).
  destruct (m w) as [[a|e|] w']; simpl in *; [done|by apply Hh|done].
Qed.

Lemma total_ret (a : A) : total (ret a).
Proof. by intros w. Qed.

Lemma total_throw e : total (@throw A e).
Proof. by intros w. Qed.

Lemma total_gets (f : World -> A) : total (gets f).
Proof. by intros w. Qed.

Lemma total_query (s : Pg.Stmt A) : total (query s).
Proof.
  intros w. unfold query.
  destruct (faults w) as [|[] fs]; simpl; try done;
    destruct (s (db w)) as [e|[a d']]; done.
Qed.

Lemma total_bind (m : M A) (k : A -> M B) :
  total m -> (forall a, total (k a)) -> total (bind m k).
Proof.
  intros Hm Hk w. unfold bind. specialize (Hm w).
  destruct (m w) as [[a|e|] w']; simpl in *; [apply Hk|done|done].
Qed.

Lemma total_tryCatch (m : M A) (h : string -> M A) :
  total m -> (forall e, total (h e)) -> total (tryCatch m h).
Proof.
  intros Hm Hh w. unfold tryCatch. specialize (Hm w).
  destruct (m w) as [[a|e|] w']; simpl in *; [done|apply Hh|done].
Qed.

Lemma returns_ret (a : A) : returns (ret a).
Proof. intros w. by exists a. Qed.

Lemma returns_bind (m : M A) (k : A -> M B) :
  returns m -> (forall a, returns (k a)) -> returns (bind m k).
Proof.
  intros Hm Hk w. unfold bind. destruct (Hm w) as [a Ha].
  destruct (m w) as [r w']; simpl in *; subst r. apply Hk.
Qed.

(** A body that comes back, under a handler that absorbs the error. *)
Lemma returns_tryCatch (m : M A) (h : string -> M A) :
  total m -> (forall e, returns (h e)) -> returns (tryCatch m h).
Proof.
  intros Hm Hh w. unfold tryCatch. specialize (Hm w).
  destruct (m w) as [[a|e|] w']; simpl in *; [by exists a|apply Hh|done].
Qed.

Lemma returns_total (m : M A) : returns m -> total m.
Proof. intros H w. destruct (H w) as [a ->]. done. Qed.
End Rules.

Lemma total_modify f : total (modify f).
Proof. by intros w. Qed.

Lemma returns_modify f : returns (modify f).
Proof. intros w. by exists tt. Qed.

Lemma returns_loggerError p e : returns (loggerError p e).
Proof. apply returns_modify. Qed.

Lemma returns_loggerInfo msg : returns (loggerInfo msg).
Proof. apply returns_modify. Qed.

Lemma maintains_forEachM {A} I (f : A -> M unit) l :
  (forall x, maintains I (f x)) -> maintains I (forEachM f l).
Proof.
  intros Hf. induction l as [|x xs IH]; simpl.
  - apply maintains_ret.
  - apply maintains_bind; [apply Hf|intros _; apply IH].
Qed.

Lemma total_forEachM {A} (f : A -> M unit) l :
  (forall x, total (f x)) -> total (forEachM f l).
Proof.
  intros Hf. induction l as [|x xs IH]; simpl.
  - apply total_ret.
  - apply total_bind; [apply Hf|intros _; apply IH].
Qed.

(** The three kinds of invariants and the effects that cannot break them. *)

Lemma onStore_query {A} J (s : Pg.Stmt A) : maintains (onStore J) (query s).
Proof.
  intros w Hw. unfold query.
  destruct (faults w) as [|[] fs]; simpl; try done;
    destruct (s (db w)) as [e|[a d']]; done.
Qed.

Lemma onStore_log J f :
  (forall w, repositoryMessagesCache (f w) = repositoryMessagesCache w /\
             historyMessages (f w) = historyMessages w /\
             historyContacts (f w) = historyContacts w) ->
  maintains (onStore J) (modify f).
Proof.
  intros Hf w Hw. unfold modify, onStore in *. simpl.
  destruct (Hf w) as (-> & -> & ->). done.
Qed.

Lemma onStore_loggerError J p e : maintains (onStore J) (loggerError p e).
Proof. by apply onStore_log. Qed.

Lemma onStore_loggerInfo J msg : maintains (onStore J) (loggerInfo msg).
Proof. by apply onStore_log. Qed.

Lemma noFaults_query {A} (s : Pg.Stmt A) : maintains noFaults (query s).
Proof.
  intros w Hw. unfold query, noFaults in *. rewrite Hw. simpl.
  destruct (s (db w)) as [e|[a d']]; done.
Qed.

Lemma noFaults_modify f :
  (forall w, faults (f w) = faults w) -> maintains noFaults (modify f).
Proof. intros Hf w Hw. unfold modify, noFaults in *. simpl. by rewrite Hf. Qed.

Lemma onMessages_query {A} P (s : Pg.Stmt A) :
  (forall d a d', s d = inr (a, d') -> P (Pg.messages d) -> P (Pg.messages d')) ->
  maintains (onMessages P) (query s).
Proof.
  intros Hs w Hw. unfold query, onMessages in *.
  destruct (faults w) as [|[] fs]; simpl; try done;
    destruct (s (db w)) as [e|[a d']] eqn:E; simpl; eauto.
Qed.

Lemma onMessages_modify P f :
  (forall w, db (f w) = db w) -> maintains (onMessages P) (modify f).
Proof. intros Hf w Hw. unfold modify, onMessages in *. simpl. by rewrite Hf. Qed.

Create HintDb maintain.

#[local] Hint Resolve onStore_query onStore_loggerError onStore_loggerInfo
  noFaults_query total_query total_modify : maintain.

(** One step through the text of a method. *)
Ltac step_rule :=
  lazymatch goal with
  | |- maintains _ (bind _ _) => apply maintains_bind; [|intros ?]
  | |- maintains _ (tryCatch _ _) => apply maintains_tryCatch; [|intros ?]
  | |- maintains _ (ret _) => apply maintains_ret
  | |- maintains _ (throw _) => apply maintains_throw
  | |- maintains _ typeError => apply maintains_throw
  | |- maintains _ diverge => apply maintains_diverge
  | |- maintains _ (gets _) => apply maintains_gets
  | |- maintains _ (forEachM _ _) => apply maintains_forEachM; intros ?
  | |- total (bind _ _) => apply total_bind; [|intros ?]
  | |- total (tryCatch _ _) => apply total_tryCatch; [|intros ?]
  | |- total (ret _) => apply total_ret
  | |- total (throw _) => apply total_throw
  | |- total typeError => apply total_throw
  | |- total (gets _) => apply total_gets
  | |- total (forEachM _ _) => apply total_forEachM; intros ?
  | |- _ (orDiverge ?o) => destruct o; simpl
  | |- _ (if ?b then _ else _) => destruct b
  | |- _ (match ?x with _ => _ end) => destruct x
  end.

Ltac walk := repeat (first [step_rule | solve [eauto with maintain]]).

(** ** The helpers leave alone whatever no query and no log line can break *)

Section Helpers.
Variable I : World -> Prop.
Hypothesis I_query : forall A (s : Pg.Stmt A), maintains I (query s).
Hypothesis I_error : forall p e, maintains I (loggerError p e).

#[local] Hint Resolve I_query I_error : maintain.

Lemma insertLabel_maintains n a : maintains I (insertLabel n a).
Proof. unfold insertLabel. walk. Qed.

Lemma V1_insertTag_maintains n c : maintains I (V1.insertTag n c).
Proof. unfold V1.insertTag. walk. Qed.

Lemma V1_insertTaggings_maintains n t ids : maintains I (V1.insertTaggings n t ids).
Proof. unfold V1.insertTaggings. walk. Qed.

Lemma V2_getChatwootUser_maintains p : maintains I (V2.getChatwootUser p).
Proof. unfold V2.getChatwootUser. walk. Qed.

Lemma V2_resolveOne_maintains inbox p rows pts byPhone fks phone :
  maintains I (V2.resolveOne inbox p rows pts byPhone fks phone).
Proof.
  unfold V2.resolveOne, V2.insertContactChatwoot, V2.insertConversationChatwoot. walk.
Qed.

Lemma V2_resolveAll_maintains inbox p rows pts byPhone fks phones :
  maintains I (V2.resolveAll inbox p rows pts byPhone fks phones).
Proof.
  revert fks. induction phones as [|phone rest IH]; intros fks; simpl.
  - apply maintains_ret.
  - apply maintains_bind; [apply V2_resolveOne_maintains|intros fks'; apply IH].
Qed.

Lemma V2_selectOrCreateFks_maintains inbox p pts byPhone :
  maintains I (V2.selectOrCreateFksFromChatwoot inbox p pts byPhone).
Proof.
  unfold V2.selectOrCreateFksFromChatwoot.
  apply maintains_bind; [apply I_query|intros r; apply V2_resolveAll_maintains].
Qed.

Lemma V3_insertTag_maintains n c : maintains I (V3.insertTag n c).
Proof. unfold V3.insertTag. walk. Qed.

Lemma V3_insertTaggings_maintains t cs : maintains I (V3.insertTaggings t cs).
Proof. unfold V3.insertTaggings. walk. Qed.

Lemma V3_getChatwootUser_maintains p : maintains I (V3.getChatwootUser p).
Proof. unfold V3.getChatwootUser. walk. Qed.

Lemma V3_resolveOne_maintains p pts fks entry : maintains I (V3.resolveOne p pts fks entry).
Proof. unfold V3.resolveOne. destruct entry as [phone messages]. walk. Qed.

Lemma V3_resolveAll_maintains p pts fks entries :
  maintains I (V3.resolveAll p pts fks entries).
Proof.
  revert fks. induction entries as [|entry rest IH]; intros fks; simpl.
  - apply maintains_ret.
  - apply maintains_bind.
    + apply maintains_tryCatch.
      * apply maintains_bind; [apply V3_resolveOne_maintains|intros ?; apply maintains_ret].
      * intros e. walk.
    + intros [fks'|]; [apply IH|apply maintains_ret].
Qed.

Lemma V3_selectOrCreateFks_maintains p pts byPhone :
  maintains I (V3.selectOrCreateFksFromChatwoot p pts byPhone).
Proof. apply V3_resolveAll_maintains. Qed.

Lemma V1_getChatwootUser_maintains p : maintains I (V1.getChatwootUser p).
Proof. unfold V1.getChatwootUser. walk. Qed.

Lemma V1_getAllConversationIds_maintains a f l : maintains I (V1.getAllConversationIds a f l).
Proof. unfold V1.getAllConversationIds. walk. Qed.

Lemma V1_messagesLoop_maintains svc p contacts user messages conversations n :
  maintains I (V1.messagesLoop svc p contacts user messages conversations n).
Proof.
  revert conversations n. induction messages as [|m rest IH]; intros conversations n;
    simpl; walk.
Qed.

(** The loops of [V1] and [V3] only talk to the database. *)
Lemma V1_contactsLoop_maintains p fuel contacts chunk n ids :
  maintains I (V1.contactsLoop p fuel contacts chunk n ids).
Proof.
  revert chunk n ids. induction fuel as [|fuel IH]; intros chunk n ids;
    destruct chunk as [|c chunk]; simpl; walk.
Qed.

Lemma V3_contactsLoop_maintains p fuel contacts chunk n :
  maintains I (V3.contactsLoop p fuel contacts chunk n).
Proof.
  revert chunk n. induction fuel as [|fuel IH]; intros chunk n;
    destruct chunk as [|c chunk]; simpl; walk.
Qed.

Lemma V3_messagesLoop_maintains p fuel pts ordered chunk n :
  maintains I (V3.messagesLoop p fuel pts ordered chunk n).
Proof.
  revert chunk n. induction fuel as [|fuel IH]; intros chunk n;
    destruct chunk as [|c chunk]; simpl; walk.
  apply V3_selectOrCreateFks_maintains.
Qed.
End Helpers.

(** The helpers come back. *)

Lemma insertLabel_returns n a : returns (insertLabel n a).
Proof.
  unfold insertLabel. apply returns_tryCatch.
  - walk.
  - intros e. apply returns_bind; [apply returns_loggerError|intros; apply returns_ret].
Qed.

Lemma V1_insertTag_returns n c : returns (V1.insertTag n c).
Proof.
  unfold V1.insertTag. apply returns_tryCatch.
  - walk.
  - intros e. apply returns_bind; [apply returns_loggerError|intros; apply returns_ret].
Qed.

Lemma V3_insertTag_returns n c : returns (V3.insertTag n c).
Proof.
  unfold V3.insertTag. apply returns_tryCatch.
  - walk.
  - intros e. apply returns_bind; [apply returns_loggerError|intros; apply returns_ret].
Qed.

(** The loops of [V2] also take chunks out of the staged arrays. *)
Section DrainingLoops.
Variable instance : InstanceDto.t.
Variable I : World -> Prop.
Hypothesis I_query : forall A (s : Pg.Stmt A), maintains I (query s).
Hypothesis I_error : forall p e, maintains I (loggerError p e).

#[local] Hint Resolve I_query I_error : maintain.
#[local] Hint Extern 1 (maintains _ (insertLabel _ _)) =>
  apply insertLabel_maintains; intros : maintain.
#[local] Hint Extern 1 (maintains _ (V2.selectOrCreateFksFromChatwoot _ _ _ _)) =>
  apply V2_selectOrCreateFks_maintains; intros : maintain.

Lemma V2_contactsLoop_maintains p fuel chunk n :
  (forall k, maintains I (V2.spliceStagedContacts instance k)) ->
  maintains I (V2.contactsLoop instance p fuel chunk n).
Proof.
  intros Hsplice. revert chunk n. induction fuel as [|fuel IH]; intros chunk n;
    destruct chunk as [|c chunk]; simpl; walk.
Qed.

Lemma V2_messagesLoop_maintains svc inbox p fuel pts chunk n :
  (forall k, maintains I (V2.spliceStagedMessages instance k)) ->
  maintains I (V2.messagesLoop instance svc inbox p fuel pts chunk n).
Proof.
  intros Hsplice. revert chunk n. induction fuel as [|fuel IH]; intros chunk n;
    destruct chunk as [|c chunk]; simpl; walk.
Qed.
End DrainingLoops.

(** ** Isolation of tenants *)

Section Isolation.
Variable instance : InstanceDto.t.
Variable b : string.
Hypothesis other : InstanceDto.instanceName instance <> b.
Variable v : option (gset string) * option (list MessageRaw.t) * option (list ContactRaw.t).

Let I := stagedFor b v.

Ltac store_edit :=
  intros w; unfold I, stagedFor, onStore, modify; simpl;
  rewrite ?lookup_insert_ne, ?lookup_delete_ne by exact other; done.

Lemma setRepositoryMessagesCache_other c : maintains I (setRepositoryMessagesCache instance c).
Proof. store_edit. Qed.

Lemma deleteRepositoryMessagesCache_other : maintains I (deleteRepositoryMessagesCache instance).
Proof. store_edit. Qed.

Lemma addHistoryMessages_other l : maintains I (addHistoryMessages instance l).
Proof. store_edit. Qed.

Lemma addHistoryContacts_other l : maintains I (addHistoryContacts instance l).
Proof. store_edit. Qed.

Lemma deleteHistoryMessages_other : maintains I (deleteHistoryMessages instance).
Proof. store_edit. Qed.

Lemma deleteHistoryContacts_other : maintains I (deleteHistoryContacts instance).
Proof. store_edit. Qed.

Lemma getHistoryMessagesLenght_other : maintains I (getHistoryMessagesLenght instance).
Proof. apply maintains_gets. Qed.

#[local] Hint Resolve setRepositoryMessagesCache_other deleteRepositoryMessagesCache_other
  addHistoryMessages_other addHistoryContacts_other deleteHistoryMessages_other
  deleteHistoryContacts_other getHistoryMessagesLenght_other : maintain.

Lemma clearAll_other : maintains I (clearAll instance).
Proof. unfold clearAll. walk. Qed.

Lemma sortStagedMessages_other : maintains I (sortStagedMessages instance).
Proof.
  intros w. unfold I, stagedFor, onStore, sortStagedMessages. simpl.
  destruct (historyMessages w !! InstanceDto.instanceName instance); simpl; [|done].
  by rewrite lookup_insert_ne by exact other.
Qed.

Lemma spliceStagedContacts_other n : maintains I (V2.spliceStagedContacts instance n).
Proof.
  intros w. unfold I, stagedFor, onStore, V2.spliceStagedContacts. simpl.
  destruct (historyContacts w !! InstanceDto.instanceName instance); simpl; [|done].
  by rewrite lookup_insert_ne by exact other.
Qed.

Lemma spliceStagedMessages_other n : maintains I (V2.spliceStagedMessages instance n).
Proof.
  intros w. unfold I, stagedFor, onStore, V2.spliceStagedMessages. simpl.
  destruct (historyMessages w !! InstanceDto.instanceName instance); simpl; [|done].
  by rewrite lookup_insert_ne by exact other.
Qed.

#[local] Hint Resolve clearAll_other sortStagedMessages_other spliceStagedContacts_other
  spliceStagedMessages_other : maintain.

#[local] Hint Extern 1 (maintains _ (insertLabel _ _)) =>
  apply insertLabel_maintains; intros : maintain.
#[local] Hint Extern 1 (maintains _ (V1.insertTag _ _)) =>
  apply V1_insertTag_maintains; intros : maintain.
#[local] Hint Extern 1 (maintains _ (V1.insertTaggings _ _ _)) =>
  apply V1_insertTaggings_maintains; intros : maintain.
#[local] Hint Extern 1 (maintains _ (V3.insertTag _ _)) =>
  apply V3_insertTag_maintains; intros : maintain.
#[local] Hint Extern 1 (maintains _ (V3.insertTaggings _ _)) =>
  apply V3_insertTaggings_maintains; intros : maintain.
#[local] Hint Extern 1 (maintains _ (V2.getChatwootUser _)) =>
  apply V2_getChatwootUser_maintains; intros : maintain.
#[local] Hint Extern 1 (maintains _ (V3.getChatwootUser _)) =>
  apply V3_getChatwootUser_maintains; intros : maintain.
#[local] Hint Extern 1 (maintains _ (V2.selectOrCreateFksFromChatwoot _ _ _ _)) =>
  apply V2_selectOrCreateFks_maintains; intros : maintain.
#[local] Hint Extern 1 (maintains _ (V1.contactsLoop _ _ _ _ _ _)) =>
  apply V1_contactsLoop_maintains; intros : maintain.
#[local] Hint Extern 1 (maintains _ (V1.getChatwootUser _)) =>
  apply V1_getChatwootUser_maintains; intros : maintain.
#[local] Hint Extern 1 (maintains _ (V1.getAllConversationIds _ _ _)) =>
  apply V1_getAllConversationIds_maintains; intros : maintain.
#[local] Hint Extern 1 (maintains _ (V1.messagesLoop _ _ _ _ _ _ _)) =>
  apply V1_messagesLoop_maintains; intros : maintain.
#[local] Hint Extern 1 (maintains _ (V3.contactsLoop _ _ _ _ _)) =>
  apply V3_contactsLoop_maintains; intros : maintain.
#[local] Hint Extern 1 (maintains _ (V3.messagesLoop _ _ _ _ _ _)) =>
  apply V3_messagesLoop_maintains; intros : maintain.

Lemma V1_importHistoryContacts_other p fuel :
  maintains I (V1.importHistoryContacts instance p fuel).
Proof. unfold V1.importHistoryContacts. walk. Qed.

Lemma sortStagedByTimestamp_other : maintains I (V1.sortStagedByTimestamp instance).
Proof.
  intros w. unfold I, stagedFor, onStore, V1.sortStagedByTimestamp. simpl.
  destruct (historyMessages w !! InstanceDto.instanceName instance); simpl; [|done].
  by rewrite lookup_insert_ne by exact other.
Qed.

Lemma V1_importHistoryMessages_other svc p :
  maintains I (V1.importHistoryMessages instance svc p).
Proof.
  unfold V1.importHistoryMessages. walk; apply sortStagedByTimestamp_other.
Qed.

Lemma V3_importHistoryContacts_other p fuel :
  maintains I (V3.importHistoryContacts instance p fuel).
Proof. unfold V3.importHistoryContacts. walk. Qed.

Lemma V3_importHistoryMessages_other p fuel :
  maintains I (V3.importHistoryMessages instance p fuel).
Proof. unfold V3.importHistoryMessages. walk. Qed.

Lemma V2_contactsLoop_other p fuel chunk n :
  maintains I (V2.contactsLoop instance p fuel chunk n).
Proof. apply V2_contactsLoop_maintains; eauto with maintain. Qed.

Lemma V2_messagesLoop_other svc inbox p fuel pts chunk n :
  maintains I (V2.messagesLoop instance svc inbox p fuel pts chunk n).
Proof. apply V2_messagesLoop_maintains; eauto with maintain. Qed.

#[local] Hint Resolve V2_contactsLoop_other V2_messagesLoop_other : maintain.

Lemma V2_importHistoryContacts_other p fuel :
  maintains I (V2.importHistoryContacts instance p fuel).
Proof. unfold V2.importHistoryContacts. walk. Qed.

Lemma V2_importHistoryMessages_other svc inbox p fuel :
  maintains I (V2.importHistoryMessages instance svc inbox p fuel).
Proof. unfold V2.importHistoryMessages. walk. Qed.

Lemma perform_other op : maintains I (perform instance op).
Proof.
  destruct op; simpl; walk;
    eauto using V1_importHistoryContacts_other, V1_importHistoryMessages_other,
      V2_importHistoryContacts_other,
      V3_importHistoryContacts_other, V2_importHistoryMessages_other,
      V3_importHistoryMessages_other.
Qed.
End Isolation.

(** C10.  Every staging, clearing or import method called for one tenant
    leaves what any other tenant has staged (its contacts, its messages and
    its message cache) exactly as it was. *)
Theorem tenant_isolation (instance : InstanceDto.t) (op : Operation) (b : string) (w : World) :
  InstanceDto.instanceName instance <> b ->
  tenantView b (perform instance op w).2 = tenantView b w.
Proof.
  intros Hne.
  apply (perform_other instance b Hne (tenantView b w) op w).
  reflexivity.
Qed.

(** ** The guard of the contact importer *)

(** C6.  When the tenant has at least one staged message, [importHistoryContacts]
    returns at once: it returns no count ([undefined]), it sends nothing to
    the database, it logs nothing and it leaves every staged sequence as it
    was.  This holds in the three revisions. *)
Theorem importHistoryContacts_guard
    (instance : InstanceDto.t) (provider : ChatwootRaw.t) (fuel : nat) (w : World) :
  (0 < length (default [] (historyMessages w !! InstanceDto.instanceName instance)))%nat ->
  V1.importHistoryContacts instance provider fuel w = (Ok None, w) /\
  V2.importHistoryContacts instance provider fuel w = (Ok None, w) /\
  V3.importHistoryContacts instance provider fuel w = (Ok None, w).
Proof.
  intros Hn. apply Nat.ltb_lt in Hn.
  unfold V1.importHistoryContacts, V2.importHistoryContacts, V3.importHistoryContacts,
    tryCatch, bind, getHistoryMessagesLenght, gets. simpl.
  rewrite Hn. simpl. done.
Qed.

Lemma importHistoryContacts_guard_witness :
  let w := Sample.world [] [] [Sample.hi] [Sample.alice; Sample.bob] in
  V1.importHistoryContacts Sample.instance Sample.provider 5 w = (Ok None, w) /\
  V2.importHistoryContacts Sample.instance Sample.provider 5 w = (Ok None, w) /\
  V3.importHistoryContacts Sample.instance Sample.provider 5 w = (Ok None, w).
Proof.
  apply importHistoryContacts_guard. vm_compute. lia.
Defined.

(** ** The missing acting user *)

(** C8 (amended).  If no user row has the provider's e-mail,
    [importHistoryMessages] throws ['User not found to import messages.'];
    the error is caught by the method's own [catch], logged, and the call
    returns no count ([undefined]).  No table is changed and the staging
    store is exactly as before.  Revisions [V2] and [V3]. *)
Theorem importHistoryMessages_without_user
    (instance : InstanceDto.t) (chatwootService : ChatwootService.t) (inbox : Inbox.t)
    (provider : ChatwootRaw.t) (fuel : nat) (w : World) :
  List.filter (fun u => String.eqb (Pg.u_email u) (ChatwootRaw.email provider))
    (Pg.users (db w)) = [] ->
  let r2 := V2.importHistoryMessages instance chatwootService inbox provider fuel w in
  let r3 := V3.importHistoryMessages instance provider fuel w in
  (r2.1 = Ok None /\ sameStore w r2.2 /\ db r2.2 = db w /\
   exists e, log r2.2 = log w ++ ["Error on import history messages: " +:+ e]) /\
  (r3.1 = Ok None /\ sameStore w r3.2 /\ db r3.2 = db w /\
   exists entries,
     log r3.2 = log w ++ entries ++
       ["Error on import history messages: Error: User not found to import messages."]).
Proof.
  intros Hu. simpl.
  unfold V2.importHistoryMessages, V3.importHistoryMessages, V2.getChatwootUser,
    V3.getChatwootUser, tryCatch, bind, query, Sql.selectUser, Sql.ok, sameStore,
    loggerError, modify, ret, throw.
  rewrite Hu. simpl.
  destruct (faults w) as [|[] fs]; simpl;
    (split; [repeat split; eauto|repeat split]).
  - by exists [].
  - eexists [_]. by rewrite <- app_assoc.
  - by exists [].
Qed.

Lemma importHistoryMessages_without_user_witness :
  let w := Sample.world [] [] [Sample.hi; Sample.yo] [Sample.alice] in
  let r2 := V2.importHistoryMessages Sample.instance Sample.service Sample.inbox
              Sample.provider 5 w in
  let r3 := V3.importHistoryMessages Sample.instance Sample.provider 5 w in
  (r2.1 = Ok None /\ sameStore w r2.2 /\ db r2.2 = db w /\
   exists e, log r2.2 = log w ++ ["Error on import history messages: " +:+ e]) /\
  (r3.1 = Ok None /\ sameStore w r3.2 /\ db r3.2 = db w /\
   exists entries,
     log r3.2 = log w ++ entries ++
       ["Error on import history messages: Error: User not found to import messages."]).
Proof.
  apply importHistoryMessages_without_user. reflexivity.
Defined.

(** C8, as stated, fails: the missing user is not the one error that ends
    [importHistoryMessages] without a count.  With the acting user present
    and one staged message, a failing key look-up ends the call the same
    way. *)
Lemma missing_user_is_not_the_only_fatal_error :
  ~ (forall instance chatwootService inbox provider fuel w,
       (V2.importHistoryMessages instance chatwootService inbox provider fuel w).1 = Ok None ->
       List.filter (fun u => String.eqb (Pg.u_email u) (ChatwootRaw.email provider))
         (Pg.users (db w)) = []).
Proof.
  intros H.
  specialize (H Sample.instance Sample.service Sample.inbox Sample.provider 5%nat
                (Sample.world [Sample.agent] [false; true] [Sample.hi] [])).
  vm_compute in H. specialize (H eq_refl). discriminate H.
Qed.

(** ** What a failed import leaves staged (revision V2) *)

Lemma spliceStagedMessages_drained instance c0 hm0 hc0 ordered n :
  maintains (messagesDrained (InstanceDto.instanceName instance) c0 hm0 hc0 ordered)
    (V2.spliceStagedMessages instance n).
Proof.
  intros w (Hc & Hhc & k & Hhm).
  unfold messagesDrained, onStore, V2.spliceStagedMessages.
  rewrite Hhm, lookup_insert_eq. simpl.
  repeat split; [done|done|].
  exists (k + n)%nat. by rewrite insert_insert_eq, drop_drop.
Qed.

Lemma spliceStagedContacts_drained instance c0 hm0 hc0 staged n :
  maintains (contactsDrained (InstanceDto.instanceName instance) c0 hm0 hc0 staged)
    (V2.spliceStagedContacts instance n).
Proof.
  intros w (Hc & Hhm & k & Hhc).
  unfold contactsDrained, onStore, V2.spliceStagedContacts.
  rewrite Hhc, lookup_insert_eq. simpl.
  repeat split; [done|done|].
  exists (k + n)%nat. by rewrite insert_insert_eq, drop_drop.
Qed.

Lemma V2_messagesLoop_drained instance svc inbox p fuel pts chunk n c0 hm0 hc0 ordered :
  maintains (messagesDrained (InstanceDto.instanceName instance) c0 hm0 hc0 ordered)
    (V2.messagesLoop instance svc inbox p fuel pts chunk n).
Proof.
  apply V2_messagesLoop_maintains.
  - intros A s. apply onStore_query.
  - intros k. apply spliceStagedMessages_drained.
Qed.

Lemma V2_contactsLoop_drained instance p fuel chunk n c0 hm0 hc0 staged :
  maintains (contactsDrained (InstanceDto.instanceName instance) c0 hm0 hc0 staged)
    (V2.contactsLoop instance p fuel chunk n).
Proof.
  apply V2_contactsLoop_maintains;
    first [ intros A s; apply onStore_query
          | intros pre e; apply onStore_loggerError
          | intros k; apply spliceStagedContacts_drained ].
Qed.

Lemma V2_importHistoryMessages_failed instance svc inbox provider fuel w w' :
  V2.importHistoryMessages instance svc inbox provider fuel w = (Ok None, w') ->
  repositoryMessagesCache w' = repositoryMessagesCache w /\
  historyContacts w' = historyContacts w /\
  (historyMessages w' = historyMessages w \/
   exists staged k,
     historyMessages w !! InstanceDto.instanceName instance = Some staged /\
     historyMessages w' =
       <[InstanceDto.instanceName instance := drop k (Js.sort compareMessages staged)]>
         (historyMessages w)).
Proof.
  set (name := InstanceDto.instanceName instance).
  unfold V2.importHistoryMessages, tryCatch. unfold bind at 1.
  pose proof (V2_getChatwootUser_maintains
                (storeIs (repositoryMessagesCache w) (historyMessages w) (historyContacts w))
                (fun A s => onStore_query _ s) provider w) as H1.
  destruct (V2.getChatwootUser provider w) as [[[u|]|e|] w1]; simpl in H1;
    destruct (H1 (conj eq_refl (conj eq_refl eq_refl))) as (Hc1 & Hm1 & Hh1); clear H1;
    simpl; try (intros [= <-]; simpl; by auto); try done.
  unfold bind at 1. unfold gets at 1. simpl.
  fold name. rewrite Hm1.
  destruct (historyMessages w !! name) as [staged|] eqn:Es; simpl; [|done].
  destruct (length staged =? 0)%nat; [done|].
  unfold bind at 1. unfold sortStagedMessages at 1. fold name. rewrite Hm1, Es. simpl.
  set (ordered := Js.sort compareMessages staged).
  set (w2 := with_historyMessages w1 _).
  assert (messagesDrained name (repositoryMessagesCache w) (historyMessages w)
            (historyContacts w) ordered w2) as H2.
  { repeat split; [done|done|]. exists 0%nat. by rewrite drop_0. }
  unfold bind at 1.
  pose proof (spliceStagedMessages_drained instance _ _ _ ordered 4000 w2 H2) as H3.
  destruct (V2.spliceStagedMessages instance 4000 w2) as [[chunk|e|] w3] eqn:E3; simpl in H3.
  2,3: unfold V2.spliceStagedMessages in E3;
       destruct (historyMessages w2 !! _); simpl in E3; discriminate E3.
  unfold bind at 1.
  pose proof (V2_messagesLoop_drained instance svc inbox provider fuel
                (timestampsByPhoneNumber (V2.createMessagesMapByPhoneNumber ordered))
                chunk 0 _ _ _ ordered w3 H3) as H4.
  destruct (V2.messagesLoop _ _ _ _ _ _ _ _ w3) as [[n|e|] w4]; simpl in H4; simpl; try done.
  intros [= <-]. destruct H4 as (Hc4 & Hh4 & k & Hm4).
  repeat split; [done|done|]. right. exists staged, k. done.
Qed.

Lemma V2_importHistoryContacts_failed instance provider fuel w w' :
  V2.importHistoryContacts instance provider fuel w = (Ok None, w') ->
  repositoryMessagesCache w' = repositoryMessagesCache w /\
  historyMessages w' = historyMessages w /\
  (historyContacts w' = historyContacts w \/
   exists staged k,
     historyContacts w !! InstanceDto.instanceName instance = Some staged /\
     historyContacts w' =
       <[InstanceDto.instanceName instance := drop k staged]> (historyContacts w)).
Proof.
  set (name := InstanceDto.instanceName instance).
  unfold V2.importHistoryContacts, tryCatch, getHistoryMessagesLenght.
  unfold bind at 1. unfold gets at 1. simpl. fold name.
  destruct (0 <? length (default [] (historyMessages w !! name)))%nat; simpl.
  { intros [= <-]. by auto. }
  unfold bind at 1. unfold gets at 1. simpl. fold name.
  destruct (historyContacts w !! name) as [staged|] eqn:Es; simpl; [|done].
  destruct (length staged =? 0)%nat; [done|].
  unfold bind at 1.
  assert (contactsDrained name (repositoryMessagesCache w) (historyMessages w)
            (historyContacts w) staged w) as H2.
  { split; [done|split; [done|]]. exists 0%nat. by rewrite drop_0, insert_id. }
  pose proof (spliceStagedContacts_drained instance _ _ _ staged 3000 w H2) as H3.
  destruct (V2.spliceStagedContacts instance 3000 w) as [[chunk|e|] w3] eqn:E3; simpl in H3.
  2,3: unfold V2.spliceStagedContacts in E3;
       destruct (historyContacts w !! _); simpl in E3; discriminate E3.
  unfold bind at 1.
  pose proof (V2_contactsLoop_drained instance provider fuel chunk 0 _ _ _ staged w3 H3) as H4.
  destruct (V2.contactsLoop _ _ _ _ _ w3) as [[n|e|] w4]; simpl in H4; simpl; try done.
  intros [= <-]. destruct H4 as (Hc4 & Hh4 & k & Hm4).
  repeat split; [done|done|]. right. exists staged, k. done.
Qed.




Example failed_import_state :
  let w := Sample.world [Sample.agent] [false; true] [Sample.hi] [] in
  let r := V2.importHistoryMessages Sample.instance Sample.service Sample.inbox
             Sample.provider 5 w in
  r.1 = Ok None /\
  historyMessages w !! "tenant-a" = Some [Sample.hi] /\
  historyMessages r.2 !! "tenant-a" = Some [].
Proof. vm_compute. repeat split. Qed.

Lemma tenant_isolation_witness :
  let w := (addHistoryMessages (InstanceDto.mk "tenant-b") [Sample.bye]
              (Sample.world [Sample.agent] [] [Sample.hi; Sample.yo] [Sample.alice])).2 in
  tenantView "tenant-b"
    (perform Sample.instance
       (ImportHistoryMessagesV2 Sample.service Sample.inbox Sample.provider 5) w).2
  = tenantView "tenant-b" w.
Proof.
  intros w. apply tenant_isolation. simpl. discriminate.
Defined.

(** ** The provenance tag (revision V1) *)



Example insertTag_creates_the_tag :
  let d := Pg.with_tags (Sample.tables []) [Pg.mkTag 4 "other" 10] in
  let r := V1.insertTag "tenant-a" 2 (mkWorld ∅ ∅ ∅ d [] []) in
  r.1 = Ok (Some 5) /\
  Pg.tags (db r.2) = [Pg.mkTag 4 "other" 10; Pg.mkTag 5 "tenant-a" 2].
Proof. vm_compute. done. Qed.

(** The older [insertTag] of revision [V3] inserts without looking: a second
    tag of the same name appears and the first keeps its count. *)
Example V3_insertTag_inserts_again :
  let d := Pg.with_tags (Sample.tables []) [Pg.mkTag 9 "tenant-a" 3] in
  let r := V3.insertTag "tenant-a" 2 (mkWorld ∅ ∅ ∅ d [] []) in
  r.1 = Ok (Some 10) /\
  Pg.tags (db r.2) = [Pg.mkTag 9 "tenant-a" 3; Pg.mkTag 10 "tenant-a" 2].
Proof. vm_compute. done. Qed.

(** ** The key resolver (revision V3) *)

(** Every execution of the resolver's statement that succeeds inserts one
    conversation row, whether or not the contact and a conversation for it
    exist. *)
Lemma V3_resolver_statement_inserts_a_conversation
    account phone name contactAt identifier inbox conversationAt d r d' :
  V3Sql.selectOrCreateContactConversation account phone name contactAt identifier inbox
    conversationAt d = inr (r, d') ->
  length (Pg.conversations d') = S (length (Pg.conversations d)).
Proof.
  unfold V3Sql.selectOrCreateContactConversation.
  destruct contactAt as [cAt|], conversationAt as [cvAt|]; try done.
  destruct (List.find _ (Pg.contacts d)) as [c|]; simpl;
    intros [= <- <-]; simpl; rewrite length_app; simpl; lia.
Qed.

(** C7.  Two invocations of the key resolver of revision [V3] for a phone
    number that has no contact yet, one after the other (each invocation is
    one statement, so this is also what any interleaving of two concurrent
    invocations amounts to when statements are atomic): one contact row and
    two conversation rows for it. *)
Theorem resolver_twice_creates_two_conversations :
  let w := Sample.world [Sample.agent] [] [] [] in
  let byPhone := V3.createMessagesMapByPhoneNumber [Sample.hi] in
  let pts := timestampsByPhoneNumber byPhone in
  let resolve := V3.selectOrCreateFksFromChatwoot Sample.provider pts byPhone in
  let first := resolve w in
  let second := resolve first.2 in
  first.1 = Ok [("100@d", FksChatwoot.mk "100@d" (Some 1) (Some 1))] /\
  second.1 = Ok [("100@d", FksChatwoot.mk "100@d" (Some 1) (Some 2))] /\
  Pg.contacts (db second.2) =
    [Pg.mkContact 1 (Some "Alice") "+100" 1 "100@d" 10] /\
  Pg.conversations (db second.2) =
    [Pg.mkConversation 1 1 5 1 10; Pg.mkConversation 2 1 5 1 10].
Proof. vm_compute. done. Qed.

(** ** The conflict clause of the bulk message insert (revision V2) *)

Lemma messageKey_spec conv at_ r :
  Sql.messageKey conv at_ r = true <-> (Pg.m_conversation_id r, Pg.m_created_at r) = (conv, at_).
Proof.
  unfold Sql.messageKey. rewrite andb_true_iff, !Z.eqb_eq.
  split; [intros [-> ->]; done|intros [= -> ->]; done].
Qed.

Lemma upsertMessageRow_keysUnique account inbox tbl v :
  keysUnique tbl -> keysUnique (Sql.upsertMessageRow account inbox tbl v).
Proof.
  unfold keysUnique, messageKeys, Sql.upsertMessageRow. intros Hu.
  destruct (existsb _ tbl) eqn:E.
  - rewrite map_map.
    erewrite map_ext; [exact Hu|].
    intros r. simpl. by destruct (Sql.messageKey _ _ r).
  - rewrite map_app. simpl. apply NoDup_app. split; [done|]. split.
    + intros k Hk Hin. apply list_elem_of_singleton in Hin. subst k.
      apply list_elem_of_fmap in Hk as (r & Hr & Hin).
      assert (existsb (Sql.messageKey (Sql.mv_conversation_id v) (Sql.mv_created_at v)) tbl
              = true) as Habs; [|congruence].
      apply existsb_exists. exists r. split; [by apply list_elem_of_In|].
      apply messageKey_spec. done.
    + apply NoDup_singleton.
Qed.

Lemma upsertMessageRows_keysUnique account inbox vs tbl :
  keysUnique tbl -> keysUnique (fold_left (Sql.upsertMessageRow account inbox) vs tbl).
Proof.
  revert tbl. induction vs as [|v vs IH]; intros tbl Hu; simpl; [done|].
  apply IH. by apply upsertMessageRow_keysUnique.
Qed.

Lemma upsertMessages_keysUnique account inbox vs d a d' :
  Sql.upsertMessages account inbox vs d = inr (a, d') ->
  keysUnique (Pg.messages d) -> keysUnique (Pg.messages d').
Proof.
  unfold Sql.upsertMessages, Sql.ok. destruct vs as [|v vs]; [done|].
  destruct (Sql.hasDup _ _); [done|].
  intros [= <- <-] Hu. cbn [Pg.messages Pg.with_messages].
  apply (upsertMessageRows_keysUnique account inbox (v :: vs)), Hu.
Qed.

Section MessageTable.
Variable P : list Pg.MessageRow -> Prop.
Variable instance : InstanceDto.t.

Lemma onMessages_selectUser email : maintains (onMessages P) (query (Sql.selectUser email)).
Proof. apply onMessages_query. by intros d a d' [= <- <-]. Qed.

Lemma onMessages_selectFks phones : maintains (onMessages P) (query (Sql.selectFks phones)).
Proof. apply onMessages_query. by intros d a d' [= <- <-]. Qed.

Lemma onMessages_insertContact n ph acc idf :
  maintains (onMessages P) (query (Sql.insertContact n ph acc idf)).
Proof.
  apply onMessages_query. intros d a d'. unfold Sql.insertContact.
  destruct (existsb _ _); [done|]. by intros [= <- <-].
Qed.

Lemma onMessages_insertConversation acc inbox c :
  maintains (onMessages P) (query (Sql.insertConversation acc inbox c)).
Proof.
  apply onMessages_query. intros d a d'. unfold Sql.insertConversation.
  destruct c; [|done]. by intros [= <- <-].
Qed.

Lemma onMessages_loggerError p e : maintains (onMessages P) (loggerError p e).
Proof. by apply onMessages_modify. Qed.

Lemma onMessages_sortStagedMessages : maintains (onMessages P) (sortStagedMessages instance).
Proof.
  intros w Hw. unfold sortStagedMessages, onMessages in *.
  by destruct (historyMessages w !! _).
Qed.

Lemma onMessages_spliceStagedMessages n :
  maintains (onMessages P) (V2.spliceStagedMessages instance n).
Proof.
  intros w Hw. unfold V2.spliceStagedMessages, onMessages in *.
  by destruct (historyMessages w !! _).
Qed.

Lemma onMessages_deleteHistoryMessages : maintains (onMessages P) (deleteHistoryMessages instance).
Proof. by apply onMessages_modify. Qed.

Lemma onMessages_addHistoryMessages l : maintains (onMessages P) (addHistoryMessages instance l).
Proof. by apply onMessages_modify. Qed.
End MessageTable.

Section UniqueKeys.
Variable instance : InstanceDto.t.
Variable chatwootService : ChatwootService.t.
Variable inbox : Inbox.t.
Variable provider : ChatwootRaw.t.

#[local] Hint Resolve onMessages_selectUser onMessages_selectFks onMessages_insertContact
  onMessages_insertConversation onMessages_loggerError onMessages_sortStagedMessages
  onMessages_spliceStagedMessages onMessages_deleteHistoryMessages
  onMessages_addHistoryMessages : maintain.

Lemma onMessages_upsertMessages vs :
  maintains (onMessages keysUnique)
    (query (Sql.upsertMessages (ChatwootRaw.account_id provider) (Inbox.id inbox) vs)).
Proof. apply onMessages_query. intros d a d'. apply upsertMessages_keysUnique. Qed.

#[local] Hint Resolve onMessages_upsertMessages : maintain.

Lemma V2_resolveAll_keysUnique rows pts byPhone fks phones :
  maintains (onMessages keysUnique) (V2.resolveAll inbox provider rows pts byPhone fks phones).
Proof.
  revert fks. induction phones as [|phone rest IH]; intros fks; simpl.
  - apply maintains_ret.
  - apply maintains_bind; [|intros fks'; apply IH].
    unfold V2.resolveOne, V2.insertContactChatwoot, V2.insertConversationChatwoot. walk.
Qed.

Lemma V2_messagesLoop_keysUnique fuel pts chunk n :
  maintains (onMessages keysUnique)
    (V2.messagesLoop instance chatwootService inbox provider fuel pts chunk n).
Proof.
  revert chunk n. induction fuel as [|fuel IH]; intros chunk n;
    destruct chunk as [|c chunk]; simpl; walk.
  unfold V2.selectOrCreateFksFromChatwoot. walk. apply V2_resolveAll_keysUnique.
Qed.

Lemma V2_importHistoryMessages_keysUnique fuel :
  maintains (onMessages keysUnique)
    (V2.importHistoryMessages instance chatwootService inbox provider fuel).
Proof.
  unfold V2.importHistoryMessages, V2.getChatwootUser. walk.
  apply V2_messagesLoop_keysUnique.
Qed.
End UniqueKeys.



(** The same run, looked at row by row: the second import changes no row. *)
Example reimport_changes_nothing :
  let w := Sample.world [Sample.agent] [] [] [] in
  let run :=
    addHistoryMessages Sample.instance [Sample.hi; Sample.yo; Sample.bye] >>
    V2.importHistoryMessages Sample.instance Sample.service Sample.inbox Sample.provider 5 in
  (run w).1 = Ok (Some 3) /\
  (run (run w).2).1 = Ok (Some 3) /\
  Pg.messages (db (run w).2) =
    [Pg.mkMessage 1 "yo" 1 3 1 (Some 1) 5;
     Pg.mkMessage 2 "hi" 1 3 1 (Some 1) 10;
     Pg.mkMessage 3 "bye" 1 3 1 (Some 1) 20] /\
  Pg.messages (db (run (run w).2).2) = Pg.messages (db (run w).2).
Proof. vm_compute. done. Qed.

(** ** Order of the imported messages (revision V2) *)



(** With identifiers that do not start with a number the comparator is not a
    consistent order; the walk of the importer may then put a later message
    of a phone number first.  The rows still carry their own timestamps. *)
Example unnumbered_identifiers_can_be_walked_out_of_order :
  let m jid at_ := Sample.text jid at_ "text" in
  Js.sort compareMessages
    [m "status@broadcast" 3; m "1@d" 3; m "status@broadcast" 2; m "2@d" 1]
  = [m "status@broadcast" 3; m "1@d" 3; m "2@d" 1; m "status@broadcast" 2].
Proof. vm_compute. done. Qed.

(** ** The chunking helper *)

Arguments ceilDiv : simpl never.

Lemma ceilDiv_step n c : (0 < n)%nat -> (0 < c)%nat -> ceilDiv n c = S (ceilDiv (n - c) c).
Proof.
  intros Hn Hc. unfold ceilDiv.
  replace (n + c - 1)%nat with ((n - 1) + 1 * c)%nat by lia.
  rewrite Nat.div_add by lia.
  destruct (Nat.le_gt_cases c n) as [Hle|Hgt].
  - replace (n - c + c - 1)%nat with (n - 1)%nat by lia. lia.
  - replace (n - c + c - 1)%nat with (c - 1)%nat by lia.
    rewrite !Nat.div_small by lia. lia.
Qed.

Lemma ceilDiv_0 c : ceilDiv 0 c = 0%nat.
Proof.
  unfold ceilDiv. destruct c as [|c]; [done|].
  apply Nat.div_small. lia.
Qed.

Lemma slice_take_drop {A} (arr : list A) i c : Js.slice i (i + c) arr = take c (drop i arr).
Proof. unfold Js.slice. by replace (i + c - i)%nat with c by lia. Qed.

(** The array [res] of revision [V1], just before it is flattened. *)
Lemma V1_chunkLoop_spec {A} (arr : list A) (chunkSize : nat) :
  (0 < chunkSize)%nat ->
  forall fuel i res,
    (length arr - i <= fuel)%nat ->
    exists out,
      V1.chunkLoop fuel arr chunkSize i res = Some out /\
      concat out = concat res ++ drop i arr /\
      (Forall (fun c => (length c <= chunkSize)%nat) res ->
       Forall (fun c => (length c <= chunkSize)%nat) out) /\
      length out = (length res + ceilDiv (length arr - i) chunkSize)%nat.
Proof.
  intros Hc. induction fuel as [|fuel IH]; intros i res Hfuel; simpl.
  - destruct (Nat.ltb_spec i (length arr)) as [Hlt|Hge]; [lia|].
    exists res. rewrite drop_ge by lia.
    replace (length arr - i)%nat with 0%nat by lia. rewrite ceilDiv_0, app_nil_r.
    repeat split; [done|lia].
  - destruct (Nat.ltb_spec i (length arr)) as [Hlt|Hge].
    + destruct (IH (i + chunkSize)%nat (res ++ [Js.slice i (i + chunkSize) arr]))
        as (out & Hout & Hcat & Hall & Hlen); [lia|].
      exists out. split; [done|]. split; [|split].
      * rewrite Hcat, concat_app. simpl. rewrite app_nil_r, slice_take_drop.
        rewrite <- app_assoc. f_equal.
        rewrite <- (take_drop chunkSize (drop i arr)) at 2.
        by rewrite drop_drop.
      * intros Hres. apply Hall. apply Forall_app. split; [done|].
        constructor; [|done]. rewrite slice_take_drop, length_take. lia.
      * rewrite Hlen, length_app. simpl.
        rewrite (ceilDiv_step (length arr - i) chunkSize) by lia.
        replace (length arr - (i + chunkSize))%nat with (length arr - i - chunkSize)%nat by lia.
        lia.
    + exists res. rewrite drop_ge by lia.
      replace (length arr - i)%nat with 0%nat by lia. rewrite ceilDiv_0, app_nil_r.
      repeat split; [done|lia].
Qed.

Lemma V1_chunksBuilt_spec {A} (arr : list A) (chunkSize : nat) :
  (0 < chunkSize)%nat ->
  exists chunks,
    V1.chunksBuilt arr chunkSize = Some chunks /\
    length chunks = ceilDiv (length arr) chunkSize /\
    Forall (fun c => (length c <= chunkSize)%nat) chunks /\
    concat chunks = arr.
Proof.
  intros Hc. unfold V1.chunksBuilt.
  destruct (V1_chunkLoop_spec arr chunkSize Hc (length arr) 0 []) as (out & -> & Hcat & Hall & Hlen);
    [lia|].
  exists out. rewrite Nat.sub_0_r in Hlen. simpl in *. rewrite drop_0 in Hcat.
  repeat split; [done|by apply Hall|done].
Qed.

(** The chunks the loops of revision [V2] see: the claimed coverage holds. *)
Lemma V2_chunksDrained_spec {A} (chunkSize : nat) :
  (0 < chunkSize)%nat ->
  forall fuel (messages : list A),
    (length messages <= fuel)%nat ->
    let chunks := V2.chunksDrained fuel messages chunkSize in
    length chunks = ceilDiv (length messages) chunkSize /\
    Forall (fun c => (0 < length c <= chunkSize)%nat) chunks /\
    concat chunks = messages.
Proof.
  intros Hc. induction fuel as [|fuel IH]; intros messages Hfuel; simpl.
  - destruct messages; [|simpl in Hfuel; lia]. by rewrite ceilDiv_0.
  - destruct messages as [|m messages]; [by rewrite ceilDiv_0, take_nil|].
    destruct chunkSize as [|c]; [lia|]. simpl.
    destruct (IH (drop c messages)) as (Hlen & Hall & Hcat).
    { rewrite length_drop. simpl in Hfuel. lia. }
    split; [|split].
    + rewrite Hlen, (ceilDiv_step (S (length messages)) (S c)) by lia.
      rewrite length_drop. simpl. done.
    + constructor; [|done]. simpl. rewrite length_take. lia.
    + rewrite Hcat. by rewrite take_drop.
Qed.

Lemma V1_sliceIntoChunks_flat {A} (arr : list A) (chunkSize : nat) :
  (0 < chunkSize)%nat -> V1.sliceIntoChunks arr chunkSize = Some arr.
Proof.
  intros Hc. unfold V1.sliceIntoChunks.
  destruct (V1_chunksBuilt_spec arr chunkSize Hc) as (chunks & -> & _ & _ & Hcat).
  simpl. by rewrite Hcat.
Qed.

Lemma V3_sliceIntoChunks_take {A} (arr : list A) (chunkSize : nat) :
  V3.sliceIntoChunks arr chunkSize = take chunkSize arr.
Proof. unfold V3.sliceIntoChunks, Js.slice. by rewrite Nat.sub_0_r, drop_0. Qed.

(** C1, on the code.  For a positive chunk size, [sliceIntoChunks] of
    revision [V1] gives back the whole input as one sequence (the chunks it
    builds are flattened again), and [sliceIntoChunks] of revision [V3] gives
    back the first [chunkSize] elements and leaves the input as it is, so a
    loop that calls it again gets the same elements again. *)
Theorem sliceIntoChunks_on_the_code {A} (arr : list A) (chunkSize : nat) :
  (0 < chunkSize)%nat ->
  V1.sliceIntoChunks arr chunkSize = Some arr /\
  V3.sliceIntoChunks arr chunkSize = take chunkSize arr.
Proof.
  intros Hc. split; [by apply V1_sliceIntoChunks_flat|apply V3_sliceIntoChunks_take].
Qed.

Lemma sliceIntoChunks_on_the_code_witness :
  V1.sliceIntoChunks [1; 2; 3] 2 = Some [1; 2; 3] /\
  V3.sliceIntoChunks [1; 2; 3] 2 = take 2 [1; 2; 3].
Proof.
  apply (sliceIntoChunks_on_the_code [1; 2; 3] 2). lia.
Defined.

Example sliceIntoChunks_three_by_two :
  V1.chunksBuilt [1; 2; 3] 2 = Some [[1; 2]; [3]] /\
  V1.sliceIntoChunks [1; 2; 3] 2 = Some [1; 2; 3] /\
  V2.chunksDrained 3 [1; 2; 3] 2 = [[1; 2]; [3]] /\
  V3.sliceIntoChunks [1; 2; 3] 2 = [1; 2].
Proof. vm_compute. done. Qed.

(** ** Termination of the chunk loops *)

Lemma bind_returns {A B} (m : M A) (k : A -> M B) w a :
  (m w).1 = Ok a -> bind m k w = k a (m w).2.
Proof. unfold bind. destruct (m w) as [r w']. simpl. by intros ->. Qed.

Lemma bind_diverges {A B} (m : M A) (k : A -> M B) w :
  (m w).1 = Diverge -> (bind m k w).1 = Diverge.
Proof. unfold bind. destruct (m w) as [r w']. simpl. by intros ->. Qed.

Lemma tryCatch_diverges {A} (m : M A) h w :
  (m w).1 = Diverge -> (tryCatch m h w).1 = Diverge.
Proof. unfold tryCatch. destruct (m w) as [r w']. simpl. by intros ->. Qed.

Lemma existsb_take {A} (f : A -> bool) n l : existsb f l = false -> existsb f (take n l) = false.
Proof.
  revert n. induction l as [|x l IH]; intros [|n] H; simpl in *; try done.
  apply orb_false_iff in H as [-> H]. simpl. by apply IH.
Qed.

Lemma hasDup_take {K} (eqb : K -> K -> bool) n l :
  Sql.hasDup eqb l = false -> Sql.hasDup eqb (take n l) = false.
Proof.
  revert n. induction l as [|x l IH]; intros [|n] H; simpl in *; try done.
  apply orb_false_iff in H as [Hx H].
  apply orb_false_iff. split; [by apply existsb_take|by apply IH].
Qed.

Lemma contactValues_identifiers contacts :
  map Sql.v_identifier (map contactValues contacts) = map ContactRaw.id contacts.
Proof. rewrite map_map. by apply map_ext. Qed.

(** On a connection that does not fail, the contact upsert of a non-empty
    chunk without repeated identifiers succeeds. *)
Lemma upsertContacts_succeeds returning account chunk w :
  noFaults w -> chunk <> [] ->
  Sql.hasDup String.eqb (map ContactRaw.id chunk) = false ->
  exists r,
    (query (Sql.upsertContacts returning account (map contactValues chunk)) w).1 = Ok r /\
    noFaults (query (Sql.upsertContacts returning account (map contactValues chunk)) w).2.
Proof.
  intros Hf Hne Hdup. unfold query, Sql.upsertContacts, Sql.ok. rewrite Hf.
  rewrite contactValues_identifiers, Hdup.
  destruct chunk as [|c chunk]; [done|]. simpl map.
  destruct (fold_left _ _ _) as [tbl ids]. simpl. by eexists.
Qed.

Lemma V1_contactsLoop_step provider fuel contacts chunk n ids :
  chunk <> [] ->
  V1.contactsLoop provider (S fuel) contacts chunk n ids =
  (let* result :=
     query (Sql.upsertContacts true (ChatwootRaw.account_id provider)
              (map contactValues chunk)) in
   let* next := orDiverge (V1.sliceIntoChunks contacts 3000) in
   V1.contactsLoop provider fuel contacts next (n + Pg.rowCount result)
     (ids ++ Pg.rows result)).
Proof. by destruct chunk. Qed.

Lemma V1_contactsLoop_out_of_fuel provider contacts chunk n ids :
  chunk <> [] -> V1.contactsLoop provider 0 contacts chunk n ids = diverge.
Proof. by destruct chunk. Qed.

Lemma V3_contactsLoop_step provider fuel contacts chunk n :
  chunk <> [] ->
  V3.contactsLoop provider (S fuel) contacts chunk n =
  (let* result :=
     query (Sql.upsertContacts false (ChatwootRaw.account_id provider)
              (map contactValues chunk)) in
   V3.contactsLoop provider fuel contacts (V3.sliceIntoChunks contacts 3000)
     (n + Pg.rowCount result)).
Proof. by destruct chunk. Qed.

Lemma V3_contactsLoop_out_of_fuel provider contacts chunk n :
  chunk <> [] -> V3.contactsLoop provider 0 contacts chunk n = diverge.
Proof. by destruct chunk. Qed.

Section NeverDraining.
Variable instance : InstanceDto.t.
Variable provider : ChatwootRaw.t.
Variable contacts : list ContactRaw.t.
Hypothesis staged : contacts <> [].
Hypothesis distinct : Sql.hasDup String.eqb (map ContactRaw.id contacts) = false.

Lemma V1_contactsLoop_diverges fuel n ids w :
  noFaults w -> (V1.contactsLoop provider fuel contacts contacts n ids w).1 = Diverge.
Proof.
  revert n ids w. induction fuel as [|fuel IH]; intros n ids w Hf.
  - by rewrite V1_contactsLoop_out_of_fuel.
  - rewrite V1_contactsLoop_step by done.
    destruct (upsertContacts_succeeds true (ChatwootRaw.account_id provider) contacts w Hf)
      as (r & Hr & Hf'); [done|done|].
    rewrite (bind_returns _ _ _ _ Hr).
    rewrite V1_sliceIntoChunks_flat by lia. simpl orDiverge.
    unfold bind at 1. simpl. apply IH. exact Hf'.
Qed.

Lemma V3_first_chunk : V3.sliceIntoChunks contacts 3000 <> [].
Proof. rewrite V3_sliceIntoChunks_take. by destruct contacts. Qed.

Lemma V3_contactsLoop_diverges fuel n w :
  noFaults w ->
  (V3.contactsLoop provider fuel contacts (V3.sliceIntoChunks contacts 3000) n w).1 = Diverge.
Proof.
  revert n w. induction fuel as [|fuel IH]; intros n w Hf.
  - by rewrite V3_contactsLoop_out_of_fuel by apply V3_first_chunk.
  - rewrite V3_contactsLoop_step by apply V3_first_chunk.
    destruct (upsertContacts_succeeds false (ChatwootRaw.account_id provider)
                (V3.sliceIntoChunks contacts 3000) w Hf) as (r & Hr & Hf').
    { apply V3_first_chunk. }
    { rewrite V3_sliceIntoChunks_take, <- firstn_map. by apply hasDup_take. }
    rewrite (bind_returns _ _ _ _ Hr). apply IH. exact Hf'.
Qed.
Let name := InstanceDto.instanceName instance.

Lemma noFaults_loggerError p e : maintains noFaults (loggerError p e).
Proof. by apply noFaults_modify. Qed.

Lemma staged_length : (length contacts =? 0)%nat = false.
Proof. apply Nat.eqb_neq. by destruct contacts. Qed.

Lemma V1_importHistoryContacts_diverges fuel w :
  noFaults w ->
  length (default [] (historyMessages w !! name)) = 0%nat ->
  historyContacts w !! name = Some contacts ->
  (V1.importHistoryContacts instance provider fuel w).1 = Diverge.
Proof.
  intros Hf Hm Hc. unfold V1.importHistoryContacts. apply tryCatch_diverges.
  unfold getHistoryMessagesLenght. unfold bind at 1, gets at 1. simpl.
  fold name. rewrite Hm. simpl.
  unfold bind at 1, gets at 1. simpl. fold name. rewrite Hc. simpl.
  rewrite staged_length, V1_sliceIntoChunks_flat by lia. simpl orDiverge.
  unfold bind at 1. simpl.
  destruct (insertLabel_returns name (ChatwootRaw.account_id provider) w) as [l Hl].
  rewrite (bind_returns _ _ _ _ Hl).
  pose proof (insertLabel_maintains noFaults (@noFaults_query) noFaults_loggerError
                name (ChatwootRaw.account_id provider) w Hf) as Hf1.
  destruct (V1_insertTag_returns name (Z.of_nat (length contacts)) (insertLabel name (ChatwootRaw.account_id provider) w).2)
    as [t Ht].
  rewrite (bind_returns _ _ _ _ Ht).
  pose proof (V1_insertTag_maintains noFaults (@noFaults_query) noFaults_loggerError
                name (Z.of_nat (length contacts)) _ Hf1) as Hf2.
  apply bind_diverges. by apply V1_contactsLoop_diverges.
Qed.

Lemma V3_importHistoryContacts_diverges fuel w :
  noFaults w ->
  length (default [] (historyMessages w !! name)) = 0%nat ->
  historyContacts w !! name = Some contacts ->
  (V3.importHistoryContacts instance provider fuel w).1 = Diverge.
Proof.
  intros Hf Hm Hc. unfold V3.importHistoryContacts. apply tryCatch_diverges.
  unfold getHistoryMessagesLenght. unfold bind at 1, gets at 1. simpl.
  fold name. rewrite Hm. simpl.
  unfold bind at 1, gets at 1. simpl. fold name. rewrite Hc. simpl.
  rewrite staged_length.
  destruct (insertLabel_returns name (ChatwootRaw.account_id provider) w) as [l Hl].
  rewrite (bind_returns _ _ _ _ Hl).
  pose proof (insertLabel_maintains noFaults (@noFaults_query) noFaults_loggerError
                name (ChatwootRaw.account_id provider) w Hf) as Hf1.
  destruct (V3_insertTag_returns name (Z.of_nat (length contacts)) (insertLabel name (ChatwootRaw.account_id provider) w).2)
    as [t Ht].
  rewrite (bind_returns _ _ _ _ Ht).
  pose proof (V3_insertTag_maintains noFaults (@noFaults_query) noFaults_loggerError
                name (Z.of_nat (length contacts)) _ Hf1) as Hf2.
  apply bind_diverges. by apply V3_contactsLoop_diverges.
Qed.
End NeverDraining.

(** C2, on the code.  With one or more staged contacts of distinct
    identifiers, no staged message and a connection that does not fail, the
    [while] loop of [importHistoryContacts] never ends in revisions [V1] and
    [V3]: whatever the fuel, the call is still inside the loop.  The staged
    array is not shortened by [sliceIntoChunks], so every round gets the same
    non-empty chunk. *)
Theorem importHistoryContacts_never_drains
    (instance : InstanceDto.t) (provider : ChatwootRaw.t) (contacts : list ContactRaw.t)
    (fuel : nat) (w : World) :
  contacts <> [] ->
  Sql.hasDup String.eqb (map ContactRaw.id contacts) = false ->
  noFaults w ->
  length (default [] (historyMessages w !! InstanceDto.instanceName instance)) = 0%nat ->
  historyContacts w !! InstanceDto.instanceName instance = Some contacts ->
  (V1.importHistoryContacts instance provider fuel w).1 = Diverge /\
  (V3.importHistoryContacts instance provider fuel w).1 = Diverge.
Proof.
  intros Hne Hdup Hf Hm Hc. split.
  - by apply (V1_importHistoryContacts_diverges instance provider contacts).
  - by apply (V3_importHistoryContacts_diverges instance provider contacts).
Qed.

Lemma importHistoryContacts_never_drains_witness :
  let w := Sample.world [] [] [] [Sample.alice] in
  (V1.importHistoryContacts Sample.instance Sample.provider 100 w).1 = Diverge /\
  (V3.importHistoryContacts Sample.instance Sample.provider 100 w).1 = Diverge.
Proof.
  intros w.
  apply (importHistoryContacts_never_drains Sample.instance Sample.provider [Sample.alice]).
  - discriminate.
  - reflexivity.
  - reflexivity.
  - reflexivity.
  - reflexivity.
Defined.

(** The same call, observed after a few rounds: one staged contact, upserted
    again and again. *)
Example V1_importHistoryContacts_out_of_fuel :
  let r := V1.importHistoryContacts Sample.instance Sample.provider 7
             (Sample.world [] [] [] [Sample.alice]) in
  r.1 = Diverge /\
  historyContacts r.2 !! "tenant-a" = Some [Sample.alice] /\
  Pg.contacts (db r.2) = [Pg.mkContact 1 (Some "Alice") "+100" 1 "100@d" 1000].
Proof. vm_compute. done. Qed.

(** The message loop of [V3] has the same shape; every round calls the key
    resolver and inserts the same rows again. *)
Example V3_importHistoryMessages_out_of_fuel :
  let r := V3.importHistoryMessages Sample.instance Sample.provider 4
             (Sample.world [Sample.agent] [] [Sample.hi] []) in
  r.1 = Diverge /\
  length (Pg.conversations (db r.2)) = 4%nat /\
  length (Pg.messages (db r.2)) = 4%nat.
Proof. vm_compute. done. Qed.

(** *** The loops of revision [V2] end *)

Lemma JsMap_set_nonempty {V} k (v : V) m : JsMap.set k v m <> [].
Proof. destruct m as [|[k' v'] m]; simpl; [done|]. by destruct (String.eqb k' k). Qed.

Lemma groupMessages_fold_nonempty key l acc :
  acc <> [] ->
  fold_left
    (fun map message =>
       JsMap.set (key message) (default [] (JsMap.get (key message) map) ++ [message]) map)
    l acc <> ([] : list (string * list MessageRaw.t)).
Proof.
  revert acc. induction l as [|x l IH]; intros acc Hacc; simpl; [done|].
  apply IH, JsMap_set_nonempty.
Qed.

Lemma groupMessages_nonempty key m l : groupMessages key (m :: l) <> [].
Proof. unfold groupMessages. simpl. by apply groupMessages_fold_nonempty. Qed.

Section Draining.
Variable instance : InstanceDto.t.
Variable chatwootService : ChatwootService.t.
Variable inbox : Inbox.t.
Variable provider : ChatwootRaw.t.
Let name := InstanceDto.instanceName instance.

Lemma storeIs_keeps {A} (m : M A) w :
  (forall c hm hc, maintains (storeIs c hm hc) m) ->
  historyMessages (m w).2 = historyMessages w /\ historyContacts (m w).2 = historyContacts w.
Proof.
  intros Hm.
  destruct (Hm _ _ _ w (conj eq_refl (conj eq_refl eq_refl))) as (_ & H1 & H2). done.
Qed.

Lemma V2_contactsLoop_terminates fuel chunk n w :
  (length (default [] (historyContacts w !! name)) < fuel)%nat ->
  (V2.contactsLoop instance provider fuel chunk n w).1 <> Diverge.
Proof.
  revert chunk n w. induction fuel as [|fuel IH]; intros chunk n w Hlen; [lia|].
  destruct chunk as [|c chunk]; [done|]. cbn [V2.contactsLoop].
  set (labels := forEachM _ (c :: chunk)).
  assert (total labels) as Htot.
  { apply total_forEachM. intros _. apply total_bind; [|intros; apply total_ret].
    apply returns_total, insertLabel_returns. }
  destruct (storeIs_keeps labels w) as [_ Hc1].
  { intros c0 hm0 hc0. apply maintains_forEachM. intros _.
    apply maintains_bind; [|intros; apply maintains_ret].
    apply insertLabel_maintains; intros; [apply onStore_query|apply onStore_loggerError]. }
  specialize (Htot w). unfold bind at 1.
  destruct (labels w) as [[u|e|] w1]; simpl in *; [|done|done].
  set (q := query _).
  pose proof (total_query _ w1 : (q w1).1 <> Diverge) as Hq.
  destruct (storeIs_keeps q w1) as [_ Hc2].
  { intros c0 hm0 hc0. apply onStore_query. }
  unfold bind at 1.
  destruct (q w1) as [[r|e|] w2]; simpl in *; [|done|done].
  unfold bind at 1, V2.spliceStagedContacts at 1. fold name.
  rewrite Hc2, Hc1.
  destruct (historyContacts w !! name) as [stored|] eqn:Es; simpl in *.
  - destruct stored as [|s stored]; simpl.
    + by destruct fuel.
    + apply IH. simpl. rewrite lookup_insert_eq. simpl. rewrite length_drop.
      simpl in Hlen. lia.
  - by destruct fuel.
Qed.

Lemma V2_messagesLoop_terminates fuel pts chunk n w :
  (length (default [] (historyMessages w !! name)) < fuel)%nat ->
  (V2.messagesLoop instance chatwootService inbox provider fuel pts chunk n w).1 <> Diverge.
Proof.
  revert chunk n w. induction fuel as [|fuel IH]; intros chunk n w Hlen; [lia|].
  destruct chunk as [|c chunk]; [done|]. cbn [V2.messagesLoop].
  unfold V2.createMessagesMapByPhoneNumber.
  destruct (groupMessages V2.phoneNumberOf (c :: chunk)) as [|g groups] eqn:Eg.
  { by apply groupMessages_nonempty in Eg. }
  cbn [length Nat.ltb Nat.leb].
  set (resolve := V2.selectOrCreateFksFromChatwoot _ _ _ _).
  assert (total resolve) as Htot.
  { unfold resolve, V2.selectOrCreateFksFromChatwoot.
    apply total_bind; [apply total_query|]. intros r.
    generalize ([] : list (string * FksChatwoot.t)).
    induction (map fst (g :: groups)) as [|ph phs IHp]; intros fks; simpl.
    - apply total_ret.
    - apply total_bind; [|intros; apply IHp].
      unfold V2.resolveOne, V2.insertContactChatwoot, V2.insertConversationChatwoot. walk. }
  destruct (storeIs_keeps resolve w) as [Hm1 _].
  { intros c0 hm0 hc0. apply V2_selectOrCreateFks_maintains; intros.
    apply onStore_query. }
  specialize (Htot w). unfold bind at 1.
  destruct (resolve w) as [[fks|e|] w1]; simpl in *; [|done|done].
  set (q := query _).
  pose proof (total_query _ w1 : (q w1).1 <> Diverge) as Hq.
  destruct (storeIs_keeps q w1) as [Hm2 _].
  { intros c0 hm0 hc0. apply onStore_query. }
  unfold bind at 1.
  destruct (q w1) as [[r|e|] w2]; simpl in *; [|done|done].
  unfold bind at 1, V2.spliceStagedMessages at 1. fold name.
  rewrite Hm2, Hm1.
  destruct (historyMessages w !! name) as [stored|] eqn:Es; simpl in *.
  - destruct stored as [|s stored]; simpl.
    + by destruct fuel.
    + apply IH. simpl. rewrite lookup_insert_eq. simpl. rewrite length_drop.
      simpl in Hlen. lia.
  - by destruct fuel.
Qed.
End Draining.

Lemma tryCatch_absorbs {A} (m : M (option A)) prefix w :
  (m w).1 <> Diverge ->
  exists r, (tryCatch m (fun e => loggerError prefix e >> ret None) w).1 = Ok r.
Proof.
  unfold tryCatch. destruct (m w) as [[a|e|] w']; simpl; intros H; [by exists a| |done].
  by exists None.
Qed.

(** With more fuel than staged elements, the importers of revision [V2]
    come back with a result: their loops end. *)
Lemma V2_importHistoryContacts_ends instance provider fuel w :
  (length (default [] (historyContacts w !! InstanceDto.instanceName instance)) < fuel)%nat ->
  exists r, (V2.importHistoryContacts instance provider fuel w).1 = Ok r.
Proof.
  set (name := InstanceDto.instanceName instance). intros Hlen.
  unfold V2.importHistoryContacts. apply tryCatch_absorbs.
  unfold getHistoryMessagesLenght. unfold bind at 1, gets at 1. simpl. fold name.
  destruct (0 <? length (default [] (historyMessages w !! name)))%nat; [done|].
  unfold bind at 1, gets at 1. simpl. fold name.
  destruct (length (default [] (historyContacts w !! name)) =? 0)%nat; [done|].
  unfold bind at 1, V2.spliceStagedContacts at 1. fold name.
  destruct (historyContacts w !! name) as [stored|] eqn:Es; simpl in *.
  - unfold bind at 1.
    pose proof (V2_contactsLoop_terminates instance provider fuel (take 3000 stored) 0
                  (with_historyContacts w (<[name:=drop 3000 stored]> (historyContacts w))))
      as Hloop.
    destruct (V2.contactsLoop _ _ _ _ _ _) as [[n|e|] w']; simpl in *; [done|done|].
    exfalso. apply Hloop; [|done]. fold name. rewrite lookup_insert_eq. simpl.
    rewrite length_drop. lia.
  - unfold bind at 1.
    pose proof (V2_contactsLoop_terminates instance provider fuel [] 0 w) as Hloop.
    destruct (V2.contactsLoop _ _ _ _ _ _) as [[n|e|] w']; simpl in *; [done|done|].
    exfalso. apply Hloop; [|done]. fold name. rewrite Es. simpl. lia.
Qed.

Lemma sort_staged_length instance w :
  length (default [] (historyMessages (sortStagedMessages instance w).2
                        !! InstanceDto.instanceName instance))
  = length (default [] (historyMessages w !! InstanceDto.instanceName instance)).
Proof.
  unfold sortStagedMessages.
  destruct (historyMessages w !! _) as [l|] eqn:E; simpl.
  - rewrite lookup_insert_eq. simpl. apply sort_length.
  - by rewrite E.
Qed.

Lemma splice_staged_length instance n w :
  (length (default [] (historyMessages (V2.spliceStagedMessages instance n w).2
                         !! InstanceDto.instanceName instance))
   <= length (default [] (historyMessages w !! InstanceDto.instanceName instance)))%nat.
Proof.
  unfold V2.spliceStagedMessages.
  destruct (historyMessages w !! _) as [l|] eqn:E; simpl.
  - rewrite lookup_insert_eq. simpl. rewrite length_drop. lia.
  - by rewrite E.
Qed.

Lemma V2_importHistoryMessages_ends instance chatwootService inbox provider fuel w :
  (length (default [] (historyMessages w !! InstanceDto.instanceName instance)) < fuel)%nat ->
  exists r, (V2.importHistoryMessages instance chatwootService inbox provider fuel w).1 = Ok r.
Proof.
  set (name := InstanceDto.instanceName instance). intros Hlen.
  unfold V2.importHistoryMessages. apply tryCatch_absorbs.
  assert (total (V2.getChatwootUser provider)) as Hu.
  { unfold V2.getChatwootUser. walk. }
  destruct (storeIs_keeps (V2.getChatwootUser provider) w) as [Hm1 _].
  { intros c0 hm0 hc0. apply V2_getChatwootUser_maintains; intros. apply onStore_query. }
  specialize (Hu w). unfold bind at 1.
  destruct (V2.getChatwootUser provider w) as [[[u|]|e|] w1]; simpl in *; try done.
  unfold bind at 1, gets at 1. simpl. fold name.
  destruct (length (default [] (historyMessages w1 !! name)) =? 0)%nat; [done|].
  unfold bind at 1.
  pose proof (sort_staged_length instance w1) as Hs. fold name in Hs.
  destruct (sortStagedMessages instance w1) as [[ordered|e|] w2] eqn:E2; simpl in *.
  2,3: unfold sortStagedMessages in E2; destruct (historyMessages w1 !! _); discriminate E2.
  unfold bind at 1.
  pose proof (splice_staged_length instance 4000 w2) as Hp. fold name in Hp.
  destruct (V2.spliceStagedMessages instance 4000 w2) as [[chunk|e|] w3] eqn:E3; simpl in *.
  2,3: unfold V2.spliceStagedMessages in E3; destruct (historyMessages w2 !! _);
       discriminate E3.
  unfold bind at 1.
  pose proof (V2_messagesLoop_terminates instance chatwootService inbox provider fuel
                (timestampsByPhoneNumber (V2.createMessagesMapByPhoneNumber ordered))
                chunk 0 w3) as Hloop.
  destruct (V2.messagesLoop _ _ _ _ _ _ _ _ _) as [[n|e|] w']; simpl in *; [done|done|].
  exfalso. apply Hloop; [|done]. fold name. rewrite Hm1 in Hs. lia.
Qed.

Example V2_importers_end_run :
  (V2.importHistoryContacts Sample.instance Sample.provider 3
     (Sample.world [] [] [] [Sample.alice; Sample.bob])).1 = Ok (Some 2) /\
  (V2.importHistoryMessages Sample.instance Sample.service Sample.inbox Sample.provider 4
     (Sample.world [Sample.agent] [] [Sample.hi; Sample.yo; Sample.bye] [])).1 = Ok (Some 3).
Proof. vm_compute. done. Qed.

(** ** Grouping keeps the order inside every phone number *)

Lemma JsMap_get_In {V} k (v : V) m : JsMap.get k m = Some v -> (k, v) ∈ m.
Proof.
  induction m as [|[k' v'] m IH]; simpl; [done|].
  destruct (String.eqb_spec k' k) as [->|Hk].
  - intros [= ->]. apply list_elem_of_here.
  - intros H. apply list_elem_of_further. by apply IH.
Qed.

Lemma JsMap_get_None {V} k (m : list (string * V)) : JsMap.get k m = None -> k ∉ map fst m.
Proof.
  induction m as [|[k' v'] m IH]; simpl; [intros _; apply not_elem_of_nil|].
  destruct (String.eqb_spec k' k) as [->|Hk]; [done|].
  intros H Hin. apply elem_of_cons in Hin as [->|Hin]; [done|]. by apply IH.
Qed.

Lemma JsMap_set_keys {V} k (v : V) m :
  map fst (JsMap.set k v m) = map fst m \/
  ((k ∉ map fst m) /\ map fst (JsMap.set k v m) = map fst m ++ [k]).
Proof.
  induction m as [|[k' v'] m IH]; simpl.
  - right. split; [apply not_elem_of_nil|done].
  - destruct (String.eqb_spec k' k) as [->|Hk]; simpl; [by left|].
    destruct IH as [->|[Hnot ->]]; [by left|right].
    split; [|done]. intros Hin. apply elem_of_cons in Hin as [->|Hin]; done.
Qed.

Lemma JsMap_set_NoDup {V} k (v : V) m :
  NoDup (map fst m) -> NoDup (map fst (JsMap.set k v m)).
Proof.
  intros Hm. destruct (JsMap_set_keys k v m) as [->|[Hnot ->]]; [done|].
  apply NoDup_app. split; [done|]. split; [|apply NoDup_singleton].
  intros x Hx Hk. apply list_elem_of_singleton in Hk. by subst x.
Qed.

Lemma JsMap_set_In {V} k (v : V) m p g :
  NoDup (map fst m) ->
  (p, g) ∈ JsMap.set k v m -> (p = k /\ g = v) \/ (p <> k /\ (p, g) ∈ m).
Proof.
  induction m as [|[k' v'] m IH]; simpl; intros Hm.
  - intros H. apply list_elem_of_singleton in H as [= -> ->]. by left.
  - apply NoDup_cons in Hm as [Hk' Hm].
    destruct (String.eqb_spec k' k) as [->|Hk]; intros H;
      apply elem_of_cons in H as [[= -> ->]|H].
    + by left.
    + right. split; [|by apply list_elem_of_further].
      intros ->. apply Hk'. apply list_elem_of_fmap. by exists (k, g).
    + right. split; [done|apply list_elem_of_here].
    + destruct (IH Hm H) as [?|[? ?]]; [by left|right].
      split; [done|by apply list_elem_of_further].
Qed.

Lemma filter_other key p m l :
  key m <> p -> List.filter (sameKey key p) (l ++ [m]) = List.filter (sameKey key p) l.
Proof.
  intros H. rewrite List.filter_app. simpl. unfold sameKey at 2.
  destruct (String.eqb_spec (key m) p); [done|]. by rewrite app_nil_r.
Qed.

Lemma filter_same key m l :
  List.filter (sameKey key (key m)) (l ++ [m]) = List.filter (sameKey key (key m)) l ++ [m].
Proof.
  rewrite List.filter_app. simpl. unfold sameKey at 2. by rewrite String.eqb_refl.
Qed.

Lemma groupsOf_step key groups messages m :
  groupsOf key groups messages ->
  groupsOf key
    (JsMap.set (key m) (default [] (JsMap.get (key m) groups) ++ [m]) groups)
    (messages ++ [m]).
Proof.
  intros (Hnd & Hin & Hkeys). split; [by apply JsMap_set_NoDup|]. split.
  - intros p g Hg. apply JsMap_set_In in Hg; [|exact Hnd].
    destruct Hg as [[-> ->]|[Hp Hg]].
    + rewrite filter_same. f_equal.
      destruct (JsMap.get (key m) groups) as [old|] eqn:E; simpl.
      * apply Hin. by apply JsMap_get_In.
      * apply JsMap_get_None in E.
        destruct (List.filter (sameKey key (key m)) messages) as [|x rest] eqn:Ef; [done|].
        exfalso. apply E.
        assert (In x (List.filter (sameKey key (key m)) messages)) as Hx by (rewrite Ef; by left).
        apply List.filter_In in Hx as [Hx Hk]. unfold sameKey in Hk.
        apply String.eqb_eq in Hk. rewrite <- Hk. apply Hkeys. by apply list_elem_of_In.
    + rewrite filter_other by done. by apply Hin.
  - intros x Hx. apply elem_of_app in Hx as [Hx|Hx].
    + specialize (Hkeys x Hx).
      destruct (JsMap_set_keys (key m) (default [] (JsMap.get (key m) groups) ++ [m]) groups)
        as [->|[_ ->]]; [done|].
      apply elem_of_app. by left.
    + apply list_elem_of_singleton in Hx as ->.
      destruct (JsMap_set_keys (key m) (default [] (JsMap.get (key m) groups) ++ [m]) groups)
        as [Hk|[_ ->]].
      * rewrite Hk.
        destruct (JsMap.get (key m) groups) as [old|] eqn:E.
        -- apply JsMap_get_In in E. apply list_elem_of_fmap. by exists (key m, old).
        -- exfalso. revert Hk. clear -E. revert E.
           induction groups as [|[k' v'] groups IH]; simpl; [done|].
           destruct (String.eqb_spec k' (key m)); [done|].
           intros E [= Hk]. by apply IH.
      * apply elem_of_app. right. apply list_elem_of_here.
Qed.

Lemma groupMessages_groupsOf key messages : groupsOf key (groupMessages key messages) messages.
Proof.
  unfold groupMessages.
  assert (forall l acc seen, groupsOf key acc seen ->
            groupsOf key
              (fold_left
                 (fun map message =>
                    JsMap.set (key message)
                      (default [] (JsMap.get (key message) map) ++ [message]) map)
                 l acc)
              (seen ++ l)) as Hfold.
  { induction l as [|m l IH]; intros acc seen Hacc; simpl.
    - by rewrite app_nil_r.
    - replace (seen ++ m :: l) with ((seen ++ [m]) ++ l) by (by rewrite <- app_assoc).
      apply IH. by apply groupsOf_step. }
  apply (Hfold messages [] []).
  split; [constructor|]. split; [intros p g H|intros x H]; by apply elem_of_nil in H.
Qed.

Lemma StronglySorted_sublist {A} (R : A -> A -> Prop) (k l : list A) :
  sublist k l -> StronglySorted R l -> StronglySorted R k.
Proof.
  intros Hsub. induction Hsub as [|x k l Hsub IH|x k l Hsub IH]; intros Hs.
  - constructor.
  - apply StronglySorted_inv in Hs as [Hs Hall]. constructor; [by apply IH|].
    rewrite Forall_forall in Hall |- *. intros y Hy. apply Hall.
    by eapply elem_of_sublist.
  - apply StronglySorted_inv in Hs as [Hs _]. by apply IH.
Qed.

Lemma filter_sublist {A} (f : A -> bool) (l : list A) : sublist (List.filter f l) l.
Proof.
  induction l as [|x l IH]; simpl; [constructor|].
  destruct (f x); by constructor.
Qed.

Lemma StronglySorted_within {A} (R R' : A -> A -> Prop) (P : A -> Prop) (l : list A) :
  (forall a b, P a -> P b -> R a b -> R' a b) ->
  Forall P l -> StronglySorted R l -> StronglySorted R' l.
Proof.
  intros HR HP Hs. induction Hs as [|x l Hs IH Hall]; [constructor|].
  apply Forall_cons in HP as [Hx HP]. constructor; [by apply IH|].
  rewrite Forall_forall in Hall, HP |- *. intros y Hy. apply HR; auto.
Qed.

Lemma messageValues_created_at svc fks m row :
  V2.messageValues svc fks m = Some row ->
  Sql.mv_created_at row = MessageRaw.messageTimestamp m.
Proof.
  unfold V2.messageValues.
  destruct (MessageRaw.message m); [|done].
  destruct (fks ≫= FksChatwoot.conversation_id), (fks ≫= FksChatwoot.contact_id); try done.
  destruct (_ && _); [|done]. destruct (nonEmpty _); [|done].
  by intros [= <-].
Qed.

Lemma rows_in_order svc fks g :
  StronglySorted olderFirst g ->
  StronglySorted Z.le (map Sql.mv_created_at (omap (V2.messageValues svc fks) g)).
Proof.
  intros Hs. induction Hs as [|x g Hs IH Hall]; simpl; [constructor|].
  destruct (V2.messageValues svc fks x) as [row|] eqn:E; simpl; [|exact IH].
  constructor; [exact IH|].
  rewrite (messageValues_created_at _ _ _ _ E).
  rewrite Forall_forall in Hall. apply Forall_forall. intros t Ht.
  apply list_elem_of_fmap in Ht as (r & -> & Hr).
  apply list_elem_of_omap in Hr as (y & Hy & Ey).
  rewrite (messageValues_created_at _ _ _ _ Ey). by apply Hall.
Qed.

(** In every statement of [importHistoryMessages] of revision [V2], the rows
    of one phone number are listed in the order of their timestamps. *)
Lemma V2_rows_of_a_group_in_order svc staged k n fks p g :
  numbered staged ->
  (p, g) ∈ V2.createMessagesMapByPhoneNumber
             (take n (drop k (Js.sort compareMessages staged))) ->
  StronglySorted Z.le
    (map Sql.mv_created_at (omap (V2.messageValues svc (JsMap.get p fks)) g)).
Proof.
  intros Hwf Hg. apply rows_in_order.
  set (chunk := take n (drop k (Js.sort compareMessages staged))) in *.
  destruct (groupMessages_groupsOf V2.phoneNumberOf chunk) as (_ & Hin & _).
  rewrite (Hin p g Hg).
  apply (StronglySorted_within (fun a b => compareMessages a b <= 0) olderFirst
           (fun m => V2.phoneNumberOf m = p)).
  - intros a b Ha Hb Hab. unfold olderFirst.
    rewrite compareMessages_same_number in Hab; [lia|].
    apply phoneNumberOf_parseInt. by rewrite Ha, Hb.
  - apply Forall_forall. intros m Hm. apply list_elem_of_In, List.filter_In in Hm as [_ Hm].
    by apply String.eqb_eq in Hm.
  - apply (StronglySorted_sublist _ _ (Js.sort compareMessages staged)).
    + etrans; [apply filter_sublist|]. etrans; [apply sublist_take|apply sublist_drop].
    + by apply sorted_messages.
Qed.

(** ** The per-message importer of revision V1, on the sample data *)

Example V1_importHistoryMessages_run :
  let d :=
    Pg.mkDB [] [] [] [Pg.mkContact 1 (Some "Alice") "+100" 1 "100@d" 0] [] [] []
      [Pg.mkAccountUser 1 7 "User"] 1000 in
  let w :=
    mkWorld ∅ {[ "tenant-a" := [Sample.hi; Sample.yo; Sample.bye] ]}
      {[ "tenant-a" := [Sample.alice] ]} d [] [] in
  let r := V1.importHistoryMessages Sample.instance Sample.service Sample.provider w in
  r.1 = Ok (Some 3) /\
  Pg.messages (db r.2) =
    [Pg.mkMessage 1 "yo" 1 3 1 (Some 7) 5;
     Pg.mkMessage 2 "hi" 1 3 1 (Some 7) 10;
     Pg.mkMessage 3 "bye" 1 3 1 (Some 7) 20] /\
  Pg.conversations (db r.2) = [Pg.mkConversation 1 1 3 1 1000] /\
  historyMessages r.2 !! "tenant-a" = None.
Proof. vm_compute. done. Qed.

Example V1_missing_account_user :
  let w := Sample.world [] [] [Sample.hi] [Sample.alice] in
  let r := V1.importHistoryMessages Sample.instance Sample.service Sample.provider w in
  r.1 = Ok None /\
  historyMessages r.2 = historyMessages w /\
  log r.2 = ["Error on import history messages: Error: User not found to import messages."].
Proof. vm_compute. done. Qed.

Example insertLabel_twice :
  let w := Sample.world [] [] [] [] in
  let r := (insertLabel "tenant-a" 1 >> insertLabel "tenant-a" 1) w in
  Pg.labels (db r.2) = [Pg.mkLabel "tenant-a" 1] /\
  log r.2 = ["Label with title tenant-a already exists for account_id 1"].
Proof. vm_compute. done. Qed.

(** * Further properties of the code *)

(** ** The staging store *)

Lemma world_eq w w' :
  repositoryMessagesCache w = repositoryMessagesCache w' ->
  historyMessages w = historyMessages w' ->
  historyContacts w = historyContacts w' ->
  db w = db w' -> faults w = faults w' -> log w = log w' -> w = w'.
Proof. destruct w, w'. simpl. by intros -> -> -> -> -> ->. Qed.

(** X1.  Staging appends: two calls of [addHistoryMessages] (or of
    [addHistoryContacts]) for a tenant leave what one call with the
    concatenated batch leaves, and the staged message count grows by the
    size of the batch.  Nothing is dropped or reordered. *)
Theorem staging_appends_in_order
    (instance : InstanceDto.t) (m1 m2 : list MessageRaw.t) (c1 c2 : list ContactRaw.t)
    (w : World) :
  (addHistoryMessages instance m1 >> addHistoryMessages instance m2) w
    = addHistoryMessages instance (m1 ++ m2) w /\
  (addHistoryContacts instance c1 >> addHistoryContacts instance c2) w
    = addHistoryContacts instance (c1 ++ c2) w /\
  (getHistoryMessagesLenght instance (addHistoryMessages instance m1 w).2).1
    = Ok ((length (default [] (historyMessages w !! InstanceDto.instanceName instance))
           + length m1)%nat) /\
  historyMessages (addHistoryMessages instance m1 w).2 !! InstanceDto.instanceName instance
    = Some (default [] (historyMessages w !! InstanceDto.instanceName instance) ++ m1).
Proof.
  unfold addHistoryMessages, addHistoryContacts, getHistoryMessagesLenght, bind, modify, gets.
  simpl. rewrite !lookup_insert_eq. simpl. rewrite !insert_insert_eq, <- !app_assoc.
  rewrite length_app. done.
Qed.

(** X2.  [clearAll] forgets the tenant: its cache, staged messages and
    staged contacts are gone, the staged message count is 0, the tables are
    not touched, and a second [clearAll] changes nothing. *)
Theorem clearAll_forgets_the_tenant (instance : InstanceDto.t) (w : World) :
  let w' := (clearAll instance w).2 in
  tenantView (InstanceDto.instanceName instance) w' = (None, None, None) /\
  (getHistoryMessagesLenght instance w').1 = Ok 0%nat /\
  (getRepositoryMessagesCache instance w').1 = Ok None /\
  db w' = db w /\
  (clearAll instance w').2 = w'.
Proof.
  unfold clearAll, deleteRepositoryMessagesCache, deleteHistoryMessages,
    deleteHistoryContacts, getHistoryMessagesLenght, getRepositoryMessagesCache,
    tenantView, bind, modify, gets. simpl.
  rewrite !lookup_delete_eq. simpl. repeat split.
  apply world_eq; simpl; try done; apply delete_delete_eq.
Qed.

(** X3.  The dedup cache is read back as it was set:
    [getRepositoryMessagesCache] returns the set given to
    [setRepositoryMessagesCache], [null] after
    [deleteRepositoryMessagesCache], and setting it does not touch the
    staged messages or contacts. *)
Theorem cache_is_read_back (instance : InstanceDto.t) (cache : gset string) (w : World) :
  ((setRepositoryMessagesCache instance cache >> getRepositoryMessagesCache instance) w).1
    = Ok (Some cache) /\
  ((setRepositoryMessagesCache instance cache >> deleteRepositoryMessagesCache instance
    >> getRepositoryMessagesCache instance) w).1 = Ok None /\
  historyMessages (setRepositoryMessagesCache instance cache w).2 = historyMessages w /\
  historyContacts (setRepositoryMessagesCache instance cache w).2 = historyContacts w.
Proof.
  unfold setRepositoryMessagesCache, getRepositoryMessagesCache,
    deleteRepositoryMessagesCache, bind, modify, gets. simpl.
  by rewrite lookup_insert_eq, lookup_delete_eq.
Qed.

(** ** Phone numbers *)

Lemma beforeAt_app p rest : noAt p = true -> Js.beforeAt (p +:+ "@" +:+ rest) = p.
Proof.
  induction p as [|c p IH]; simpl; [done|].
  intros [Hc Hp]%andb_true_iff. apply negb_true_iff in Hc. rewrite Hc.
  f_equal. by apply IH.
Qed.

(** X4.  The phone number stored for a staged contact and the phone number
    a message is grouped and looked up by (second class) are both ["+"]
    followed by what stands before the first ['@'] of the WhatsApp
    identifier, while the contact's [identifier] column keeps the whole
    identifier: a contact and a message of one identifier meet on one phone
    number. *)
Theorem phone_number_of_an_identifier
    (p domain : string) (contact : ContactRaw.t) (message : MessageRaw.t) :
  noAt p = true ->
  ContactRaw.id contact = p +:+ "@" +:+ domain ->
  MessageRaw.remoteJid message = p +:+ "@" +:+ domain ->
  Sql.v_phone_number (contactValues contact) = "+" +:+ p /\
  Sql.v_identifier (contactValues contact) = p +:+ "@" +:+ domain /\
  V2.phoneNumberOf message = "+" +:+ p.
Proof.
  intros Hp Hc Hm. unfold contactValues, V2.phoneNumberOf. simpl.
  rewrite Hc, Hm, beforeAt_app by done. done.
Qed.

Lemma phone_number_of_an_identifier_witness :
  Sql.v_phone_number (contactValues Sample.alice) = "+100" /\
  Sql.v_identifier (contactValues Sample.alice) = "100@d" /\
  V2.phoneNumberOf Sample.hi = "+100".
Proof.
  apply (phone_number_of_an_identifier "100" "d" Sample.alice Sample.hi); reflexivity.
Defined.

(** ** What the loops that never drain leave behind *)

Lemma bind_cases {A B} (m : M A) (k : A -> M B) w (Q : Res B * World -> Prop) :
  (forall a, (m w).1 = Ok a -> Q (k a (m w).2)) ->
  (forall e, (m w).1 = Throw e -> Q (Throw e, (m w).2)) ->
  ((m w).1 = Diverge -> Q (Diverge, (m w).2)) ->
  Q (bind m k w).
Proof. unfold bind. destruct (m w) as [[a|e|] w1]; simpl; eauto. Qed.

Lemma tryCatch_cases {A} (m : M A) (h : string -> M A) w (Q : Res A * World -> Prop) :
  (forall a, (m w).1 = Ok a -> Q (Ok a, (m w).2)) ->
  (forall e, (m w).1 = Throw e -> Q (h e (m w).2)) ->
  ((m w).1 = Diverge -> Q (Diverge, (m w).2)) ->
  Q (tryCatch m h w).
Proof. unfold tryCatch. destruct (m w) as [[a|e|] w1]; simpl; eauto. Qed.

Lemma sameStore_refl w : sameStore w w.
Proof. by repeat split. Qed.

Lemma sameStore_step {A} (m : M A) w0 w :
  (forall c hm hc, maintains (storeIs c hm hc) m) ->
  sameStore w0 w -> sameStore w0 (m w).2.
Proof.
  intros Hm (H1 & H2 & H3).
  destruct (Hm _ _ _ w (conj eq_refl (conj eq_refl eq_refl))) as (E1 & E2 & E3).
  unfold sameStore. by rewrite E1, E2, E3.
Qed.

Lemma V1_contactsLoop_no_result provider contacts fuel :
  contacts <> [] ->
  forall chunk n ids w x, chunk <> [] ->
  (V1.contactsLoop provider fuel contacts chunk n ids w).1 <> Ok x.
Proof.
  intros Hc. induction fuel as [|fuel IH]; intros chunk n ids w x Hne.
  - by rewrite V1_contactsLoop_out_of_fuel.
  - rewrite V1_contactsLoop_step by done. unfold bind at 1.
    destruct (query _ w) as [[r|e|] w1]; simpl; [|done|done].
    rewrite V1_sliceIntoChunks_flat by lia. simpl orDiverge.
    unfold bind at 1. simpl. by apply IH.
Qed.

Lemma V3_contactsLoop_no_result provider contacts fuel :
  contacts <> [] ->
  forall chunk n w x, chunk <> [] ->
  (V3.contactsLoop provider fuel contacts chunk n w).1 <> Ok x.
Proof.
  intros Hc. induction fuel as [|fuel IH]; intros chunk n w x Hne.
  - by rewrite V3_contactsLoop_out_of_fuel.
  - rewrite V3_contactsLoop_step by done. unfold bind at 1.
    destruct (query _ w) as [[r|e|] w1]; simpl; [|done|done].
    apply IH. rewrite V3_sliceIntoChunks_take. by destruct contacts.
Qed.

Lemma V1_importHistoryContacts_imports_nothing instance provider fuel w :
  sameStore w (V1.importHistoryContacts instance provider fuel w).2 /\
  ((V1.importHistoryContacts instance provider fuel w).1 = Ok None \/
   (V1.importHistoryContacts instance provider fuel w).1 = Ok (Some 0) \/
   (V1.importHistoryContacts instance provider fuel w).1 = Diverge).
Proof.
  set (name := InstanceDto.instanceName instance).
  unfold V1.importHistoryContacts.
  set (Q := fun rw : Res (option Z) * World =>
              sameStore w rw.2 /\ forall x, rw.1 = Ok x -> x = None \/ x = Some 0).
  match goal with |- context [tryCatch ?b _] => set (body := b) end.
  assert (Q (body w)) as [HS HR].
  { unfold body, getHistoryMessagesLenght. unfold bind at 1, gets at 1. simpl. fold name.
    destruct (0 <? _)%nat.
    { split; [apply sameStore_refl|]. simpl. intros x [= <-]. by left. }
    unfold bind at 1, gets at 1. simpl. fold name.
    destruct (default [] (historyContacts w !! name)) as [|c contacts] eqn:Ec.
    { split; [apply sameStore_refl|]. simpl. intros x [= <-]. by right. }
    cbn [length Nat.eqb].
    rewrite V1_sliceIntoChunks_flat by lia. simpl orDiverge. unfold bind at 1. simpl.
    set (m1 := insertLabel _ _).
    assert (sameStore w (m1 w).2) as S1.
    { apply sameStore_step; [|apply sameStore_refl]. intros.
      apply insertLabel_maintains; intros; [apply onStore_query|apply onStore_loggerError]. }
    apply bind_cases; [intros l _|idtac|idtac]; try (intros; split; [exact S1|by intros ? [=]]).
    set (m2 := V1.insertTag _ _).
    assert (sameStore w (m2 (m1 w).2).2) as S2.
    { apply sameStore_step; [|exact S1]. intros.
      apply V1_insertTag_maintains; intros; [apply onStore_query|apply onStore_loggerError]. }
    apply bind_cases; [intros t _|idtac|idtac]; try (intros; split; [exact S2|by intros ? [=]]).
    set (m3 := V1.contactsLoop _ _ _ _ _ _).
    assert (sameStore w (m3 (m2 (m1 w).2).2).2) as S3.
    { apply sameStore_step; [|exact S2]. intros.
      apply V1_contactsLoop_maintains; intros; apply onStore_query. }
    apply bind_cases; try (intros; split; [exact S3|by intros ? [=]]).
    intros x Hx. exfalso. revert Hx. by apply V1_contactsLoop_no_result. }
  apply tryCatch_cases.
  - intros a Ha. simpl. split; [exact HS|]. destruct (HR a Ha) as [->| ->]; auto.
  - intros e He. simpl. split; [|by left]. destruct HS as (?&?&?). by repeat split.
  - intros Hd. simpl. split; [exact HS|]. auto.
Qed.

Lemma V3_importHistoryContacts_imports_nothing instance provider fuel w :
  sameStore w (V3.importHistoryContacts instance provider fuel w).2 /\
  ((V3.importHistoryContacts instance provider fuel w).1 = Ok None \/
   (V3.importHistoryContacts instance provider fuel w).1 = Ok (Some 0) \/
   (V3.importHistoryContacts instance provider fuel w).1 = Diverge).
Proof.
  set (name := InstanceDto.instanceName instance).
  unfold V3.importHistoryContacts.
  set (Q := fun rw : Res (option Z) * World =>
              sameStore w rw.2 /\ forall x, rw.1 = Ok x -> x = None \/ x = Some 0).
  match goal with |- context [tryCatch ?b _] => set (body := b) end.
  assert (Q (body w)) as [HS HR].
  { unfold body, getHistoryMessagesLenght. unfold bind at 1, gets at 1. simpl. fold name.
    destruct (0 <? _)%nat.
    { split; [apply sameStore_refl|]. simpl. intros x [= <-]. by left. }
    unfold bind at 1, gets at 1. simpl. fold name.
    destruct (default [] (historyContacts w !! name)) as [|c contacts] eqn:Ec.
    { split; [apply sameStore_refl|]. simpl. intros x [= <-]. by right. }
    cbn [length Nat.eqb].
    set (m1 := insertLabel _ _).
    assert (sameStore w (m1 w).2) as S1.
    { apply sameStore_step; [|apply sameStore_refl]. intros.
      apply insertLabel_maintains; intros; [apply onStore_query|apply onStore_loggerError]. }
    apply bind_cases; [intros l _|idtac|idtac]; try (intros; split; [exact S1|by intros ? [=]]).
    set (m2 := V3.insertTag _ _).
    assert (sameStore w (m2 (m1 w).2).2) as S2.
    { apply sameStore_step; [|exact S1]. intros.
      apply V3_insertTag_maintains; intros; [apply onStore_query|apply onStore_loggerError]. }
    apply bind_cases; [intros t _|idtac|idtac]; try (intros; split; [exact S2|by intros ? [=]]).
    set (m3 := V3.contactsLoop _ _ _ _ _).
    assert (sameStore w (m3 (m2 (m1 w).2).2).2) as S3.
    { apply sameStore_step; [|exact S2]. intros.
      apply V3_contactsLoop_maintains; intros; apply onStore_query. }
    apply bind_cases; try (intros; split; [exact S3|by intros ? [=]]).
    intros x Hx. exfalso. revert Hx. apply V3_contactsLoop_no_result; [done|].
    by rewrite V3_sliceIntoChunks_take. }
  apply tryCatch_cases.
  - intros a Ha. simpl. split; [exact HS|]. destruct (HR a Ha) as [->| ->]; auto.
  - intros e He. simpl. split; [|by left]. destruct HS as (?&?&?). by repeat split.
  - intros Hd. simpl. split; [exact HS|]. auto.
Qed.

(** X5.  In the first and the third class [importHistoryContacts] never
    reports an imported contact and never removes a staged contact: whatever
    is staged, whatever the tables hold and whichever queries fail, the call
    ends with [null] (guard or caught error), with [0] (nothing staged), or
    does not come back, and the cache, the staged messages and the staged
    contacts are as they were before. *)
Theorem importHistoryContacts_imports_no_contact
    (instance : InstanceDto.t) (provider : ChatwootRaw.t) (fuel : nat) (w : World) :
  (sameStore w (V1.importHistoryContacts instance provider fuel w).2 /\
   ((V1.importHistoryContacts instance provider fuel w).1 = Ok None \/
    (V1.importHistoryContacts instance provider fuel w).1 = Ok (Some 0) \/
    (V1.importHistoryContacts instance provider fuel w).1 = Diverge)) /\
  (sameStore w (V3.importHistoryContacts instance provider fuel w).2 /\
   ((V3.importHistoryContacts instance provider fuel w).1 = Ok None \/
    (V3.importHistoryContacts instance provider fuel w).1 = Ok (Some 0) \/
    (V3.importHistoryContacts instance provider fuel w).1 = Diverge)).
Proof.
  split; [apply V1_importHistoryContacts_imports_nothing
         |apply V3_importHistoryContacts_imports_nothing].
Qed.

Lemma V3_messagesLoop_no_result provider pts ordered fuel :
  ordered <> [] ->
  forall chunk n w x, chunk <> [] ->
  (V3.messagesLoop provider fuel pts ordered chunk n w).1 <> Ok x.
Proof.
  intros Ho. induction fuel as [|fuel IH]; intros chunk n w x Hne.
  - by destruct chunk.
  - destruct chunk as [|m chunk]; [done|]. cbn [V3.messagesLoop]. unfold bind at 1.
    match goal with |- context [(if ?b then ?t else ?e) w] =>
      destruct ((if b then t else e) w) as [[r|e'|] w1] end; simpl; [|done|done].
    apply IH. rewrite V3_sliceIntoChunks_take. by destruct ordered.
Qed.

Lemma sortStagedMessages_Permutation instance w :
  default [] (historyMessages (sortStagedMessages instance w).2
                !! InstanceDto.instanceName instance)
  ≡ₚ default [] (historyMessages w !! InstanceDto.instanceName instance) /\
  (sortStagedMessages instance w).1
  = Ok (default [] (historyMessages (sortStagedMessages instance w).2
                      !! InstanceDto.instanceName instance)) /\
  repositoryMessagesCache (sortStagedMessages instance w).2 = repositoryMessagesCache w /\
  historyContacts (sortStagedMessages instance w).2 = historyContacts w.
Proof.
  unfold sortStagedMessages.
  destruct (historyMessages w !! _) as [l|] eqn:E; simpl.
  - rewrite lookup_insert_eq. simpl. split; [apply sort_Permutation|done].
  - by rewrite E.
Qed.

(** X6.  In the third class [importHistoryMessages] never reports an
    imported message and never removes a staged message: the call ends with
    [null], with [0] (nothing staged), or does not come back; the staged
    messages of the tenant are the ones staged before (reordered by the
    sort), and its cache and staged contacts are untouched. *)
Theorem V3_importHistoryMessages_keeps_the_staged_messages
    (instance : InstanceDto.t) (provider : ChatwootRaw.t) (fuel : nat) (w : World) :
  repositoryMessagesCache (V3.importHistoryMessages instance provider fuel w).2
    = repositoryMessagesCache w /\
  historyContacts (V3.importHistoryMessages instance provider fuel w).2 = historyContacts w /\
  default [] (historyMessages (V3.importHistoryMessages instance provider fuel w).2
                !! InstanceDto.instanceName instance)
    ≡ₚ default [] (historyMessages w !! InstanceDto.instanceName instance) /\
  ((V3.importHistoryMessages instance provider fuel w).1 = Ok None \/
   (V3.importHistoryMessages instance provider fuel w).1 = Ok (Some 0) \/
   (V3.importHistoryMessages instance provider fuel w).1 = Diverge).
Proof.
  set (name := InstanceDto.instanceName instance).
  set (J := fun (c : gmap string (gset string)) (hm : gmap string (list MessageRaw.t))
                (hc : gmap string (list ContactRaw.t)) =>
              c = repositoryMessagesCache w /\ hc = historyContacts w /\
              default [] (hm !! name) ≡ₚ default [] (historyMessages w !! name)).
  set (Q := fun rw : Res (option Z) * World =>
              onStore J rw.2 /\ forall x, rw.1 = Ok x -> x = None \/ x = Some 0).
  unfold V3.importHistoryMessages.
  match goal with |- context [tryCatch ?b _] => set (body := b) end.
  assert (onStore J w) as J0 by done.
  assert (Q (body w)) as [HS HR].
  { unfold body.
    set (m1 := V3.getChatwootUser provider).
    assert (onStore J (m1 w).2) as S1.
    { apply V3_getChatwootUser_maintains; intros;
        [apply onStore_query|apply onStore_loggerError|done]. }
    apply bind_cases; [intros u _|idtac|idtac];
      try (intros; split; [exact S1|by intros ? [=]]).
    destruct u as [u|]; [|split; [exact S1|by intros ? [=]]].
    unfold bind at 1, gets at 1. simpl. fold name.
    destruct (default [] (historyMessages (m1 w).2 !! name)) as [|s staged] eqn:Es.
    { split; [exact S1|]. simpl. intros x [= <-]. by right. }
    cbn [length Nat.eqb].
    destruct (sortStagedMessages_Permutation instance (m1 w).2) as (Hp & Hr & Hc & Hh).
    fold name in Hp, Hr. rewrite Es in Hp.
    assert (onStore J (sortStagedMessages instance (m1 w).2).2) as S2.
    { destruct S1 as (E1 & E2 & E3). unfold onStore, J. rewrite Hc, Hh.
      split; [done|split; [done|]]. rewrite Hp, <- Es. exact E3. }
    apply bind_cases; [intros ordered Ho| |].
    2,3: rewrite Hr; intros; discriminate.
    rewrite Hr in Ho. injection Ho as <-.
    set (w2 := (sortStagedMessages instance (m1 w).2).2) in *.
    set (m3 := V3.messagesLoop _ _ _ _ _ _).
    assert (onStore J (m3 w2).2) as S3.
    { apply V3_messagesLoop_maintains; intros;
        [apply onStore_query|apply onStore_loggerError|done]. }
    apply bind_cases; try (intros; split; [exact S3|by intros ? [=]]).
    intros x Hx. exfalso. revert Hx.
    assert (default [] (historyMessages w2 !! name) <> []) as Hne.
    { intros E. rewrite E in Hp. by apply Permutation_nil_cons in Hp. }
    apply V3_messagesLoop_no_result; [done|].
    rewrite V3_sliceIntoChunks_take. revert Hne.
    generalize (default [] (historyMessages w2 !! name)). by intros [|??]. }
  assert (Q (tryCatch body
               (fun e => loggerError "Error on import history messages: " e >> ret None) w))
    as [(E1 & E2 & E3) HR'].
  { apply tryCatch_cases.
    - intros a Ha. split; [exact HS|]. simpl. intros x [= <-]. by apply HR.
    - intros e He. split; [exact HS|]. simpl. intros x [= <-]. by left.
    - intros Hd. split; [exact HS|]. by intros ? [=]. }
  split; [exact E1|]. split; [exact E2|]. split; [exact E3|].
  destruct (tryCatch _ _ w) as [[a|e|] w'] eqn:E; simpl in *; auto.
  - destruct (HR' a eq_refl) as [->| ->]; auto.
  - exfalso. revert E. unfold tryCatch. destruct (body w) as [[?|?|] ?]; simpl; discriminate.
Qed.

(** ** Invariants of the tables *)

Lemma onTables_query {A} P (s : Pg.Stmt A) :
  (forall d a d', s d = inr (a, d') -> P d -> P d') ->
  maintains (onTables P) (query s).
Proof.
  intros Hs w Hw. unfold query, onTables in *.
  destruct (faults w) as [|[] fs]; simpl; try done;
    destruct (s (db w)) as [e|[a d']] eqn:E; simpl; eauto.
Qed.

Lemma onTables_modify P f :
  (forall w, db (f w) = db w) -> maintains (onTables P) (modify f).
Proof. intros Hf w Hw. unfold modify, onTables in *. simpl. by rewrite Hf. Qed.

Lemma onTables_loggerError P p e : maintains (onTables P) (loggerError p e).
Proof. by apply onTables_modify. Qed.

Lemma onTables_loggerInfo P msg : maintains (onTables P) (loggerInfo msg).
Proof. by apply onTables_modify. Qed.

Lemma onTables_sortStagedMessages P instance :
  maintains (onTables P) (sortStagedMessages instance).
Proof.
  intros w Hw. unfold sortStagedMessages, onTables in *. by destruct (historyMessages w !! _).
Qed.

Lemma onTables_spliceStagedMessages P instance n :
  maintains (onTables P) (V2.spliceStagedMessages instance n).
Proof.
  intros w Hw. unfold V2.spliceStagedMessages, onTables in *.
  by destruct (historyMessages w !! _).
Qed.

Lemma onTables_spliceStagedContacts P instance n :
  maintains (onTables P) (V2.spliceStagedContacts instance n).
Proof.
  intros w Hw. unfold V2.spliceStagedContacts, onTables in *.
  by destruct (historyContacts w !! _).
Qed.

Lemma onTables_deleteHistoryMessages P instance :
  maintains (onTables P) (deleteHistoryMessages instance).
Proof. by apply onTables_modify. Qed.

Lemma onTables_deleteHistoryContacts P instance :
  maintains (onTables P) (deleteHistoryContacts instance).
Proof. by apply onTables_modify. Qed.

Lemma onTables_deleteRepositoryMessagesCache P instance :
  maintains (onTables P) (deleteRepositoryMessagesCache instance).
Proof. by apply onTables_modify. Qed.

Lemma onTables_getHistoryMessagesLenght P instance :
  maintains (onTables P) (getHistoryMessagesLenght instance).
Proof. apply maintains_gets. Qed.

Lemma onTables_clearAll P instance : maintains (onTables P) (clearAll instance).
Proof.
  unfold clearAll.
  repeat (apply maintains_bind; [|intros ?]);
    first [apply onTables_deleteRepositoryMessagesCache
          |apply onTables_deleteHistoryMessages
          |apply onTables_deleteHistoryContacts].
Qed.

(** A statement that does not write the table an invariant reads keeps
    the invariant. *)
Ltac frame_stmt :=
  apply onTables_query; intros ? ? ?;
  unfold Sql.checkLabel, Sql.insertLabel, Sql.checkTag, Sql.insertTag, Sql.updateTag,
    Sql.insertTagging, V3Sql.insertTagging, Sql.insertTagging, Sql.insertConversation,
    Sql.selectUser, Sql.selectAccountUser, Sql.selectConversations, Sql.insertMessage,
    Sql.selectFks, Sql.upsertMessages, V3Sql.insertMessages, Sql.ok;
  repeat case_match; try discriminate; intros [= <- <-]; simpl; trivial.

Section ContactsTable.
Variable Pc : list Pg.ContactRow -> Prop.
Variable instance : InstanceDto.t.
Variable chatwootService : ChatwootService.t.
Variable inbox : Inbox.t.
Variable provider : ChatwootRaw.t.
Hypothesis Pc_upsert : forall returning account vs d r d',
  Sql.upsertContacts returning account vs d = inr (r, d') ->
  Pc (Pg.contacts d) -> Pc (Pg.contacts d').
Hypothesis Pc_insert : forall n phone account identifier d r d',
  Sql.insertContact n phone account identifier d = inr (r, d') ->
  Pc (Pg.contacts d) -> Pc (Pg.contacts d').
Hypothesis Pc_resolve : forall account phone n cAt identifier inbox' cvAt d r d',
  V3Sql.selectOrCreateContactConversation account phone n cAt identifier inbox' cvAt d
    = inr (r, d') ->
  Pc (Pg.contacts d) -> Pc (Pg.contacts d').

Lemma onContacts_upsertContacts returning account vs :
  maintains (onTables (fun d => Pc (Pg.contacts d)))
    (query (Sql.upsertContacts returning account vs)).
Proof. apply onTables_query. intros d r d'. apply Pc_upsert. Qed.

Lemma onContacts_insertContact n phone account identifier :
  maintains (onTables (fun d => Pc (Pg.contacts d)))
    (query (Sql.insertContact n phone account identifier)).
Proof. apply onTables_query. intros d r d'. apply Pc_insert. Qed.

Lemma onContacts_resolve account phone n cAt identifier inbox' cvAt :
  maintains (onTables (fun d => Pc (Pg.contacts d)))
    (query (V3Sql.selectOrCreateContactConversation account phone n cAt identifier inbox' cvAt)).
Proof. apply onTables_query. intros d r d'. apply Pc_resolve. Qed.

#[local] Hint Resolve onContacts_upsertContacts onContacts_insertContact onContacts_resolve
  onTables_loggerError onTables_loggerInfo onTables_sortStagedMessages
  onTables_spliceStagedMessages onTables_spliceStagedContacts onTables_deleteHistoryMessages
  onTables_deleteHistoryContacts onTables_getHistoryMessagesLenght onTables_clearAll : maintain.
#[local] Hint Extern 5 (maintains (onTables _) (query _)) => solve [frame_stmt] : maintain.

Lemma onContacts_insertLabel n a :
  maintains (onTables (fun d => Pc (Pg.contacts d))) (insertLabel n a).
Proof. unfold insertLabel. walk. Qed.

#[local] Hint Resolve onContacts_insertLabel : maintain.

Lemma onContacts_V1_importHistoryContacts fuel :
  maintains (onTables (fun d => Pc (Pg.contacts d)))
    (V1.importHistoryContacts instance provider fuel).
Proof.
  assert (forall contacts chunk n ids,
            maintains (onTables (fun d => Pc (Pg.contacts d)))
              (V1.contactsLoop provider fuel contacts chunk n ids)) as Hloop.
  { intros contacts. induction fuel as [|fuel' IH]; intros chunk n ids;
      destruct chunk as [|c chunk]; simpl; walk. }
  unfold V1.importHistoryContacts, V1.insertTag, V1.insertTaggings. walk.
Qed.

Lemma onContacts_V3_importHistoryContacts fuel :
  maintains (onTables (fun d => Pc (Pg.contacts d)))
    (V3.importHistoryContacts instance provider fuel).
Proof.
  assert (forall contacts chunk n,
            maintains (onTables (fun d => Pc (Pg.contacts d)))
              (V3.contactsLoop provider fuel contacts chunk n)) as Hloop.
  { intros contacts. induction fuel as [|fuel' IH]; intros chunk n;
      destruct chunk as [|c chunk]; simpl; walk. }
  unfold V3.importHistoryContacts, V3.insertTag, V3.insertTaggings. walk.
Qed.

Lemma onContacts_V2_contactsLoop fuel chunk n :
  maintains (onTables (fun d => Pc (Pg.contacts d)))
    (V2.contactsLoop instance provider fuel chunk n).
Proof.
  revert chunk n. induction fuel as [|fuel IH]; intros chunk n;
    destruct chunk as [|c chunk]; simpl; walk.
Qed.

Lemma onContacts_V2_importHistoryContacts fuel :
  maintains (onTables (fun d => Pc (Pg.contacts d)))
    (V2.importHistoryContacts instance provider fuel).
Proof.
  pose proof onContacts_V2_contactsLoop.
  unfold V2.importHistoryContacts. walk.
Qed.

Lemma onContacts_V2_resolveAll rows pts byPhone fks phones :
  maintains (onTables (fun d => Pc (Pg.contacts d)))
    (V2.resolveAll inbox provider rows pts byPhone fks phones).
Proof.
  revert fks. induction phones as [|phone rest IH]; intros fks; simpl.
  - apply maintains_ret.
  - apply maintains_bind; [|intros fks'; apply IH].
    unfold V2.resolveOne, V2.insertContactChatwoot, V2.insertConversationChatwoot. walk.
Qed.

Lemma onContacts_V2_importHistoryMessages fuel :
  maintains (onTables (fun d => Pc (Pg.contacts d)))
    (V2.importHistoryMessages instance chatwootService inbox provider fuel).
Proof.
  assert (forall pts chunk n,
            maintains (onTables (fun d => Pc (Pg.contacts d)))
              (V2.messagesLoop instance chatwootService inbox provider fuel pts chunk n))
    as Hloop.
  { intros pts. induction fuel as [|fuel' IH]; intros chunk n;
      destruct chunk as [|c chunk]; simpl; walk.
    unfold V2.selectOrCreateFksFromChatwoot. walk. apply onContacts_V2_resolveAll. }
  unfold V2.importHistoryMessages, V2.getChatwootUser. walk.
Qed.

Lemma onContacts_V3_resolveAll pts fks entries :
  maintains (onTables (fun d => Pc (Pg.contacts d))) (V3.resolveAll provider pts fks entries).
Proof.
  revert fks. induction entries as [|entry rest IH]; intros fks; simpl.
  - apply maintains_ret.
  - apply maintains_bind.
    + apply maintains_tryCatch.
      * apply maintains_bind; [|intros ?; apply maintains_ret].
        unfold V3.resolveOne. destruct entry as [phone messages]. walk.
      * intros e. walk.
    + intros [fks'|]; [apply IH|apply maintains_ret].
Qed.

Lemma onContacts_V3_importHistoryMessages fuel :
  maintains (onTables (fun d => Pc (Pg.contacts d)))
    (V3.importHistoryMessages instance provider fuel).
Proof.
  assert (forall pts ordered chunk n,
            maintains (onTables (fun d => Pc (Pg.contacts d)))
              (V3.messagesLoop provider fuel pts ordered chunk n)) as Hloop.
  { intros pts ordered. induction fuel as [|fuel' IH]; intros chunk n;
      destruct chunk as [|c chunk]; simpl; walk.
    apply onContacts_V3_resolveAll. }
  unfold V3.importHistoryMessages, V3.getChatwootUser. walk.
Qed.
End ContactsTable.

(** *** The key [(identifier, account_id)] of the contacts *)

Lemma contactKey_spec account identifier r :
  Sql.contactKey account identifier r = true <->
  (Pg.c_identifier r, Pg.c_account_id r) = (identifier, account).
Proof.
  unfold Sql.contactKey. rewrite andb_true_iff, String.eqb_eq, Z.eqb_eq.
  split; [by intros [-> ->]|by intros [= -> ->]].
Qed.

Lemma find_contactKey_Some account identifier tbl hit :
  List.find (Sql.contactKey account identifier) tbl = Some hit ->
  (identifier, account) ∈ contactKeys tbl.
Proof.
  intros H. apply find_some in H as [Hin Hk]. apply contactKey_spec in Hk.
  unfold contactKeys. rewrite <- Hk. apply list_elem_of_In, in_map_iff. by exists hit.
Qed.

Lemma find_contactKey_None account identifier tbl :
  List.find (Sql.contactKey account identifier) tbl = None ->
  (identifier, account) ∉ contactKeys tbl.
Proof.
  intros H Hin. apply list_elem_of_In, in_map_iff in Hin as (r & Hr & Hin).
  pose proof (find_none _ _ H r Hin) as Hk.
  apply contactKey_spec in Hr. congruence.
Qed.

Lemma overwritten_contact_keys account (v : Sql.ContactValues) tbl :
  contactKeys
    (map (fun r => if Sql.contactKey account (Sql.v_identifier v) r
                   then Pg.mkContact (Pg.c_id r) (Some (Sql.v_name v)) (Sql.v_phone_number v)
                          (Pg.c_account_id r) (Sql.v_identifier v) (Pg.c_created_at r)
                   else r) tbl)
  = contactKeys tbl.
Proof.
  unfold contactKeys. rewrite map_map. apply map_ext. intros r.
  destruct (Sql.contactKey _ _ r) eqn:E; [|done].
  apply contactKey_spec in E. simpl. congruence.
Qed.

(** One [VALUES] row of the upsert adds its key when the table does not
    have it, and leaves the keys as they are when it has. *)
Lemma upsertContactRow_keys account at_ tbl ids v :
  contactKeys (Sql.upsertContactRow account at_ (tbl, ids) v).1 =
  if bool_decide ((Sql.v_identifier v, account) ∈ contactKeys tbl)
  then contactKeys tbl
  else contactKeys tbl ++ [(Sql.v_identifier v, account)].
Proof.
  unfold Sql.upsertContactRow.
  destruct (List.find _ tbl) as [hit|] eqn:E; simpl.
  - rewrite bool_decide_eq_true_2 by by eapply find_contactKey_Some.
    apply overwritten_contact_keys.
  - rewrite bool_decide_eq_false_2 by by apply find_contactKey_None.
    unfold contactKeys. by rewrite map_app.
Qed.

Lemma upsertContactRow_facts account at_ acc v :
  (NoDup (contactKeys acc.1) -> NoDup (contactKeys (Sql.upsertContactRow account at_ acc v).1)) /\
  (forall k, k ∈ contactKeys acc.1 -> k ∈ contactKeys (Sql.upsertContactRow account at_ acc v).1) /\
  (Sql.v_identifier v, account) ∈ contactKeys (Sql.upsertContactRow account at_ acc v).1.
Proof.
  destruct acc as [tbl ids]. rewrite upsertContactRow_keys. simpl.
  case_bool_decide as Hin.
  - done.
  - split; [|split].
    + intros Hn. apply NoDup_app. split; [done|]. split; [|apply NoDup_singleton].
      intros k Hk ->%list_elem_of_singleton. done.
    + intros k Hk. apply elem_of_app. by left.
    + apply elem_of_app. right. by apply list_elem_of_singleton.
Qed.

Lemma upsertContactRows_facts account at_ vs acc :
  (NoDup (contactKeys acc.1) ->
   NoDup (contactKeys (fold_left (Sql.upsertContactRow account at_) vs acc).1)) /\
  (forall k, k ∈ contactKeys acc.1 ->
   k ∈ contactKeys (fold_left (Sql.upsertContactRow account at_) vs acc).1) /\
  (forall v, v ∈ vs ->
   (Sql.v_identifier v, account)
     ∈ contactKeys (fold_left (Sql.upsertContactRow account at_) vs acc).1).
Proof.
  revert acc. induction vs as [|v vs IH]; intros acc; simpl.
  - split; [done|]. split; [done|]. intros v Hv. by apply elem_of_nil in Hv.
  - destruct (IH (Sql.upsertContactRow account at_ acc v)) as (IH1 & IH2 & IH3).
    destruct (upsertContactRow_facts account at_ acc v) as (F1 & F2 & F3).
    split; [auto|]. split; [auto|].
    intros v' [->|Hv]%elem_of_cons; auto.
Qed.

Lemma upsertContacts_facts returning account vs d r d' :
  Sql.upsertContacts returning account vs d = inr (r, d') ->
  (NoDup (contactKeys (Pg.contacts d)) -> NoDup (contactKeys (Pg.contacts d'))) /\
  (forall k, k ∈ contactKeys (Pg.contacts d) -> k ∈ contactKeys (Pg.contacts d')) /\
  (forall v, v ∈ vs -> (Sql.v_identifier v, account) ∈ contactKeys (Pg.contacts d')) /\
  Pg.rowCount r = Z.of_nat (length vs).
Proof.
  unfold Sql.upsertContacts, Sql.ok. destruct vs as [|v vs]; [done|].
  destruct (Sql.hasDup _ _); [done|].
  pose proof (upsertContactRows_facts account (Pg.now d) (v :: vs) (Pg.contacts d, []))
    as (F1 & F2 & F3).
  destruct (fold_left _ _ _) as [tbl ids]. intros [= <- <-]. simpl in *. done.
Qed.

Lemma insertContact_facts n phone account identifier d r d' :
  Sql.insertContact n phone account identifier d = inr (r, d') ->
  (NoDup (contactKeys (Pg.contacts d)) -> NoDup (contactKeys (Pg.contacts d'))) /\
  (forall k, k ∈ contactKeys (Pg.contacts d) -> k ∈ contactKeys (Pg.contacts d')).
Proof.
  unfold Sql.insertContact, Sql.ok.
  destruct (existsb _ _) eqn:E; [done|]. intros [= <- <-]. simpl.
  unfold contactKeys. rewrite map_app. simpl. split.
  - intros Hn. apply NoDup_app. split; [done|]. split; [|apply NoDup_singleton].
    intros k Hk ->%list_elem_of_singleton.
    apply list_elem_of_In, in_map_iff in Hk as (row & Hr & Hin).
    assert (existsb (Sql.contactKey account identifier) (Pg.contacts d) = true); [|congruence].
    apply existsb_exists. exists row. split; [done|]. by apply contactKey_spec.
  - intros k Hk. apply elem_of_app. by left.
Qed.

Lemma resolve_statement_facts account phone n cAt identifier inbox cvAt d r d' :
  V3Sql.selectOrCreateContactConversation account phone n cAt identifier inbox cvAt d
    = inr (r, d') ->
  (NoDup (contactKeys (Pg.contacts d)) -> NoDup (contactKeys (Pg.contacts d'))) /\
  (forall k, k ∈ contactKeys (Pg.contacts d) -> k ∈ contactKeys (Pg.contacts d')).
Proof.
  unfold V3Sql.selectOrCreateContactConversation.
  destruct cAt as [cAt|]; [|done]. destruct cvAt as [cvAt|]; [|done].
  destruct (List.find _ _) as [hit|] eqn:E; simpl.
  - intros [= <- <-]. simpl. done.
  - intros [= <- <-]. simpl. unfold contactKeys. rewrite map_app. simpl. split.
    + intros Hn. apply NoDup_app. split; [done|]. split; [|apply NoDup_singleton].
      intros k Hk ->%list_elem_of_singleton. by apply find_contactKey_None in E.
    + intros k Hk. apply elem_of_app. by left.
Qed.

(** X7.  No importer of the three classes that writes contacts with SQL
    ever leaves two contact rows with one [(identifier, account_id)]: the
    batch upsert, the single insert of the key resolver (second class) and
    the resolver statement (third class) all keep that key unique, whatever
    is staged and whichever queries fail. *)
Theorem importers_keep_contact_keys_unique
    (instance : InstanceDto.t) (chatwootService : ChatwootService.t) (inbox : Inbox.t)
    (provider : ChatwootRaw.t) (fuel : nat) (w : World) :
  contactKeysUnique (db w) ->
  contactKeysUnique (db (V1.importHistoryContacts instance provider fuel w).2) /\
  contactKeysUnique (db (V2.importHistoryContacts instance provider fuel w).2) /\
  contactKeysUnique (db (V2.importHistoryMessages instance chatwootService inbox provider
                           fuel w).2) /\
  contactKeysUnique (db (V3.importHistoryContacts instance provider fuel w).2) /\
  contactKeysUnique (db (V3.importHistoryMessages instance provider fuel w).2).
Proof.
  intros Hw.
  assert (forall returning account vs d r d',
            Sql.upsertContacts returning account vs d = inr (r, d') ->
            NoDup (contactKeys (Pg.contacts d)) -> NoDup (contactKeys (Pg.contacts d'))) as H1.
  { intros. by eapply upsertContacts_facts. }
  assert (forall n phone account identifier d r d',
            Sql.insertContact n phone account identifier d = inr (r, d') ->
            NoDup (contactKeys (Pg.contacts d)) -> NoDup (contactKeys (Pg.contacts d'))) as H2.
  { intros. by eapply insertContact_facts. }
  assert (forall account phone n cAt identifier inbox' cvAt d r d',
            V3Sql.selectOrCreateContactConversation account phone n cAt identifier inbox' cvAt d
              = inr (r, d') ->
            NoDup (contactKeys (Pg.contacts d)) -> NoDup (contactKeys (Pg.contacts d'))) as H3.
  { intros. by eapply resolve_statement_facts. }
  set (Pc := fun tbl => NoDup (contactKeys tbl)).
  split; [|split; [|split; [|split]]].
  - exact (onContacts_V1_importHistoryContacts Pc instance provider H1 fuel w Hw).
  - exact (onContacts_V2_importHistoryContacts Pc instance provider H1 fuel w Hw).
  - exact (onContacts_V2_importHistoryMessages Pc instance chatwootService inbox provider
             H2 fuel w Hw).
  - exact (onContacts_V3_importHistoryContacts Pc instance provider H1 fuel w Hw).
  - exact (onContacts_V3_importHistoryMessages Pc instance provider H3 fuel w Hw).
Qed.

Lemma importers_keep_contact_keys_unique_witness :
  let w := Sample.world [Sample.agent] [] [Sample.hi; Sample.yo] [Sample.alice; Sample.bob] in
  contactKeysUnique (db (V1.importHistoryContacts Sample.instance Sample.provider 5 w).2) /\
  contactKeysUnique (db (V2.importHistoryContacts Sample.instance Sample.provider 5 w).2) /\
  contactKeysUnique (db (V2.importHistoryMessages Sample.instance Sample.service Sample.inbox
                           Sample.provider 5 w).2) /\
  contactKeysUnique (db (V3.importHistoryContacts Sample.instance Sample.provider 5 w).2) /\
  contactKeysUnique (db (V3.importHistoryMessages Sample.instance Sample.provider 5 w).2).
Proof.
  apply importers_keep_contact_keys_unique. apply NoDup_nil_2.
Defined.

(** ** A successful contact import of the second class *)

Lemma query_Ok {A} (s : Pg.Stmt A) w a :
  (query s w).1 = Ok a -> s (db w) = inr (a, db (query s w).2).
Proof.
  unfold query. destruct (faults w) as [|[] fs]; simpl; try done;
    destruct (s (db w)) as [e|[a' d']]; simpl; try done; by intros [= ->].
Qed.

Lemma tryCatch_Some {A} (m : M (option A)) prefix w a w' :
  tryCatch m (fun e => loggerError prefix e >> ret None) w = (Ok (Some a), w') ->
  m w = (Ok (Some a), w').
Proof. unfold tryCatch. by destruct (m w) as [[?|?|] ?]. Qed.

Lemma contact_keys_kept_by_the_loop instance provider fuel chunk n w k :
  k ∈ contactKeys (Pg.contacts (db w)) ->
  k ∈ contactKeys (Pg.contacts (db (V2.contactsLoop instance provider fuel chunk n w).2)).
Proof.
  intros Hk.
  apply (onContacts_V2_contactsLoop (fun tbl => k ∈ contactKeys tbl) instance provider);
    [|done].
  intros returning account vs d r d' H.
  apply upsertContacts_facts in H as (_ & H & _). apply H.
Qed.

Lemma V2_contactsLoop_imports instance provider fuel :
  forall chunk n w stored m w',
  historyContacts w !! InstanceDto.instanceName instance = Some stored ->
  (chunk = [] -> stored = []) ->
  V2.contactsLoop instance provider fuel chunk n w = (Ok m, w') ->
  m = n + Z.of_nat (length chunk + length stored) /\
  historyContacts w' = <[InstanceDto.instanceName instance := []]> (historyContacts w) /\
  historyMessages w' = historyMessages w /\
  repositoryMessagesCache w' = repositoryMessagesCache w /\
  forall c, c ∈ chunk ++ stored ->
    (ContactRaw.id c, ChatwootRaw.account_id provider) ∈ contactKeys (Pg.contacts (db w')).
Proof.
  set (name := InstanceDto.instanceName instance).
  assert (forall n w stored m w',
            historyContacts w !! name = Some stored -> stored = [] ->
            ret n w = (Ok m, w') ->
            m = n + Z.of_nat (0 + length stored) /\
            historyContacts w' = <[name := []]> (historyContacts w) /\
            historyMessages w' = historyMessages w /\
            repositoryMessagesCache w' = repositoryMessagesCache w /\
            forall c : ContactRaw.t, c ∈ [] ++ stored ->
              (ContactRaw.id c, ChatwootRaw.account_id provider)
                ∈ contactKeys (Pg.contacts (db w'))) as Hdone.
  { intros n w stored m w' Hs -> [= <- <-]. simpl. split; [lia|]. split.
    - symmetry. by apply insert_id.
    - repeat split. intros c Hc. by apply elem_of_nil in Hc. }
  induction fuel as [|fuel IH]; intros chunk n w stored m w' Hs Hempty.
  { destruct chunk as [|c chunk]; [|done]. apply Hdone; auto. }
  destruct chunk as [|c chunk]; [apply Hdone; auto|]. clear Hempty.
  cbn [V2.contactsLoop]. fold name.
  set (labels := forEachM _ (c :: chunk)).
  assert (sameStore w (labels w).2) as S1.
  { apply sameStore_step; [|apply sameStore_refl]. intros c0 hm0 hc0.
    apply maintains_forEachM. intros _.
    apply maintains_bind; [|intros; apply maintains_ret].
    apply insertLabel_maintains; intros; [apply onStore_query|apply onStore_loggerError]. }
  unfold bind at 1. destruct (labels w) as [[u|e|] w1]; simpl; [|done|done].
  simpl in S1.
  set (q := query _).
  assert (sameStore w1 (q w1).2) as S2.
  { apply sameStore_step; [|apply sameStore_refl]. intros. apply onStore_query. }
  assert (forall r, (q w1).1 = Ok r ->
            (forall c', c' ∈ c :: chunk ->
               (ContactRaw.id c', ChatwootRaw.account_id provider)
                 ∈ contactKeys (Pg.contacts (db (q w1).2))) /\
            Pg.rowCount r = Z.of_nat (length (c :: chunk))) as Hq.
  { intros r Hr. apply query_Ok, upsertContacts_facts in Hr as (_ & _ & Hkeys & Hcount).
    split.
    - intros c' Hc'. apply (Hkeys (contactValues c')).
      apply list_elem_of_In, (in_map contactValues (c :: chunk)), list_elem_of_In, Hc'.
    - rewrite Hcount. f_equal. apply (length_map contactValues (c :: chunk)). }
  unfold bind at 1. revert S2 Hq.
  destruct (q w1) as [[r|e|] w2]; simpl; intros S2 Hq; [|done|done].
  destruct (Hq r eq_refl) as [Hkeys Hcount].
  destruct S1 as (C1 & M1 & H1). destruct S2 as (C2 & M2 & H2).
  unfold bind at 1, V2.spliceStagedContacts at 1. fold name.
  rewrite H2, H1, Hs. cbn [V2.sliceIntoChunks].
  set (w3 := with_historyContacts w2 _).
  intros Hm.
  pose proof (contact_keys_kept_by_the_loop instance provider fuel (take 3000 stored)
                (n + Pg.rowCount r) w3) as Hkept.
  rewrite Hm in Hkept. simpl in Hkept.
  destruct (IH (take 3000 stored) (n + Pg.rowCount r) w3 (drop 3000 stored) m w')
    as (-> & Hhc & Hhm & Hcache & Hrest); [| |exact Hm|].
  { simpl. apply lookup_insert_eq. }
  { by destruct stored. }
  split.
  { rewrite Hcount. rewrite <- (take_drop 3000 stored) at 3.
    rewrite !length_app. simpl length. lia. }
  split; [by rewrite Hhc; unfold w3; simpl; rewrite insert_insert_eq|].
  split; [by rewrite Hhm; unfold w3; simpl; rewrite M2, M1|].
  split; [by rewrite Hcache; unfold w3; simpl; rewrite C2, C1|].
  intros c' Hc'. rewrite <- (take_drop 3000 stored) in Hc'.
  rewrite app_comm_cons in Hc'.
  apply elem_of_app in Hc' as [Hc'|Hc']; [|by apply Hrest].
  apply Hkept. by apply Hkeys.
Qed.

(** X8.  When [importHistoryContacts] of the second class reports a count,
    the count is the number of contacts that were staged for the tenant, no
    message was staged, every staged contact has a row in [contacts] under
    its identifier and the provider's account, the tenant's contact staging
    entry is gone (it is left as it is when nothing was staged), and the
    cache and the staged messages are untouched. *)
Theorem V2_importHistoryContacts_imports_every_contact
    (instance : InstanceDto.t) (provider : ChatwootRaw.t) (fuel : nat) (w : World) (n : Z) :
  (V2.importHistoryContacts instance provider fuel w).1 = Ok (Some n) ->
  n = Z.of_nat (length (default [] (historyContacts w !! InstanceDto.instanceName instance))) /\
  default [] (historyMessages w !! InstanceDto.instanceName instance) = [] /\
  (forall c, c ∈ default [] (historyContacts w !! InstanceDto.instanceName instance) ->
     (ContactRaw.id c, ChatwootRaw.account_id provider)
       ∈ contactKeys (Pg.contacts (db (V2.importHistoryContacts instance provider fuel w).2))) /\
  historyContacts (V2.importHistoryContacts instance provider fuel w).2
    = (if default [] (historyContacts w !! InstanceDto.instanceName instance) is []
       then historyContacts w
       else delete (InstanceDto.instanceName instance) (historyContacts w)) /\
  historyMessages (V2.importHistoryContacts instance provider fuel w).2 = historyMessages w /\
  repositoryMessagesCache (V2.importHistoryContacts instance provider fuel w).2
    = repositoryMessagesCache w.
Proof.
  set (name := InstanceDto.instanceName instance).
  destruct (V2.importHistoryContacts instance provider fuel w) as [res w'] eqn:E.
  simpl. intros ->. revert E.
  unfold V2.importHistoryContacts. intros E. apply tryCatch_Some in E. revert E.
  unfold getHistoryMessagesLenght. unfold bind at 1, gets at 1. simpl. fold name.
  destruct (default [] (historyMessages w !! name)) as [|x xs]; [|done].
  cbn [length Nat.ltb Nat.leb].
  unfold bind at 1, gets at 1. simpl. fold name.
  destruct (historyContacts w !! name) as [stored|] eqn:Es; simpl.
  2: { intros [= <- <-]. repeat split. intros c Hc. by apply elem_of_nil in Hc. }
  destruct stored as [|s stored]; simpl.
  { intros [= <- <-]. repeat split. intros c Hc. by apply elem_of_nil in Hc. }
  unfold bind at 1, V2.spliceStagedContacts at 1. fold name. rewrite Es.
  cbn [V2.sliceIntoChunks].
  set (w1 := with_historyContacts w _).
  pose proof (V2_contactsLoop_imports instance provider fuel (take 3000 (s :: stored)) 0 w1
                (drop 3000 (s :: stored))) as Hloop.
  unfold bind at 1.
  destruct (V2.contactsLoop instance provider fuel (take 3000 (s :: stored)) 0 w1)
    as [[m|e|] w2]; simpl; [|done|done].
  intros [= <- <-].
  destruct (Hloop m w2) as (-> & Hhc & Hhm & Hcache & Hrows);
    [apply lookup_insert_eq|done|done|].
  rewrite take_drop in Hrows.
  split.
  { rewrite <- length_app, take_drop. simpl length. lia. }
  split; [done|]. split; [exact Hrows|].
  split; [|done].
  simpl. fold name. rewrite Hhc. simpl. by rewrite !delete_insert_eq.
Qed.

Lemma V2_importHistoryContacts_imports_every_contact_witness :
  let w := Sample.world [] [] [] [Sample.alice; Sample.bob] in
  let w' := (V2.importHistoryContacts Sample.instance Sample.provider 5 w).2 in
  2 = Z.of_nat (length (default [] (historyContacts w !! "tenant-a"))) /\
  default [] (historyMessages w !! "tenant-a") = [] /\
  (forall c, c ∈ default [] (historyContacts w !! "tenant-a") ->
     (ContactRaw.id c, 1) ∈ contactKeys (Pg.contacts (db w'))) /\
  historyContacts w'
    = (if default [] (historyContacts w !! "tenant-a") is []
       then historyContacts w else delete "tenant-a" (historyContacts w)) /\
  historyMessages w' = historyMessages w /\
  repositoryMessagesCache w' = repositoryMessagesCache w.
Proof.
  apply (V2_importHistoryContacts_imports_every_contact Sample.instance Sample.provider 5
           (Sample.world [] [] [] [Sample.alice; Sample.bob]) 2).
  vm_compute. reflexivity.
Defined.

(** ** Labels and tags *)

Lemma label_filter_nil title account tbl :
  List.filter (fun r => String.eqb (Pg.l_title r) title && (Pg.l_account_id r =? account)) tbl
    = [] ->
  (title, account) ∉ labelKeys tbl.
Proof.
  intros E Hin. apply list_elem_of_In, in_map_iff in Hin as (r & Hr & Hin).
  assert (In r []) as []. rewrite <- E. apply filter_In. split; [done|].
  injection Hr as -> ->. by rewrite String.eqb_refl, Z.eqb_refl.
Qed.

Lemma label_filter_cons title account tbl r rs :
  List.filter (fun r => String.eqb (Pg.l_title r) title && (Pg.l_account_id r =? account)) tbl
    = r :: rs ->
  (title, account) ∈ labelKeys tbl.
Proof.
  intros E. assert (In r (r :: rs)) as Hin by by left. rewrite <- E in Hin.
  apply filter_In in Hin as [Hin Hk]. apply andb_true_iff in Hk as [Ht Ha].
  apply String.eqb_eq in Ht. apply Z.eqb_eq in Ha. subst.
  apply list_elem_of_In, in_map_iff. by exists r.
Qed.

(** X9.  [insertLabel] never leaves two labels with one
    [(title, account_id)]: it inserts only after its check found no such
    label, every label that was there stays, and when no query fails the
    label of the instance is there afterwards.  This holds whichever of its
    two queries fail. *)
Theorem insertLabel_keeps_labels_unique (instanceName : string) (accountId : Z) (w : World) :
  labelsUnique (db w) ->
  labelsUnique (db (insertLabel instanceName accountId w).2) /\
  (forall k, k ∈ labelKeys (Pg.labels (db w)) ->
     k ∈ labelKeys (Pg.labels (db (insertLabel instanceName accountId w).2))) /\
  (faults w = [] ->
   (instanceName, accountId) ∈ labelKeys (Pg.labels (db (insertLabel instanceName accountId w).2))).
Proof.
  unfold labelsUnique. intros Hu.
  unfold insertLabel, tryCatch, bind, query, Sql.checkLabel, Sql.insertLabel, Sql.ok,
    loggerInfo, loggerError, modify, ret, Pg.resultOf.
  destruct (faults w) as [|[] fs] eqn:Ef; simpl.
  - destruct (List.filter _ (Pg.labels (db w))) as [|r rs] eqn:E; simpl.
    + unfold labelKeys. rewrite map_app. simpl.
      apply label_filter_nil in E.
      split; [|split].
      * apply NoDup_app. split; [done|]. split; [|apply NoDup_singleton].
        by intros k Hk ->%list_elem_of_singleton.
      * intros k Hk. apply elem_of_app. by left.
      * intros _. apply elem_of_app. right. by apply list_elem_of_singleton.
    + apply label_filter_cons in E. done.
  - done.
  - destruct (List.filter _ (Pg.labels (db w))) as [|r rs] eqn:E; simpl.
    + destruct fs as [|[] fs']; simpl.
      * unfold labelKeys. rewrite map_app. simpl. apply label_filter_nil in E.
        split; [|split]; [| |done].
        -- apply NoDup_app. split; [done|]. split; [|apply NoDup_singleton].
           by intros k Hk ->%list_elem_of_singleton.
        -- intros k Hk. apply elem_of_app. by left.
      * done.
      * unfold labelKeys. rewrite map_app. simpl. apply label_filter_nil in E.
        split; [|split]; [| |done].
        -- apply NoDup_app. split; [done|]. split; [|apply NoDup_singleton].
           by intros k Hk ->%list_elem_of_singleton.
        -- intros k Hk. apply elem_of_app. by left.
    + done.
Qed.

Lemma insertLabel_keeps_labels_unique_witness :
  let w := Sample.world [] [] [] [] in
  labelsUnique (db (insertLabel "tenant-a" 1 w).2) /\
  (forall k, k ∈ labelKeys (Pg.labels (db w)) ->
     k ∈ labelKeys (Pg.labels (db (insertLabel "tenant-a" 1 w).2))) /\
  ("tenant-a", 1) ∈ labelKeys (Pg.labels (db (insertLabel "tenant-a" 1 w).2)).
Proof.
  intros w.
  destruct (insertLabel_keeps_labels_unique "tenant-a" 1 w) as (H1 & H2 & H3).
  - apply NoDup_nil_2.
  - split; [exact H1|]. split; [exact H2|]. apply H3. reflexivity.
Defined.

Lemma tag_filter_nil name tbl :
  List.filter (fun r => String.eqb (Pg.t_name r) name) tbl = [] -> name ∉ map Pg.t_name tbl.
Proof.
  intros E Hin. apply list_elem_of_In, in_map_iff in Hin as (r & Hr & Hin).
  assert (In r []) as []. rewrite <- E. apply filter_In. split; [done|].
  subst. apply String.eqb_refl.
Qed.

Lemma updated_tag_names count name tbl :
  map Pg.t_name
    (map (fun r => if String.eqb (Pg.t_name r) name
                   then Pg.mkTag (Pg.t_id r) (Pg.t_name r) (Pg.t_taggings_count r + count)
                   else r) tbl)
  = map Pg.t_name tbl.
Proof. rewrite map_map. apply map_ext. intros r. by destruct (String.eqb _ _). Qed.

Lemma inserted_tag_names name (tbl : list Pg.TagRow) i count :
  name ∉ map Pg.t_name tbl -> NoDup (map Pg.t_name tbl) ->
  NoDup (map Pg.t_name (tbl ++ [Pg.mkTag i name count])).
Proof.
  intros Hn Hu. rewrite map_app. simpl. apply NoDup_app. split; [done|].
  split; [|apply NoDup_singleton]. by intros k Hk ->%list_elem_of_singleton.
Qed.

(** X10.  [insertTag] of the first class never leaves two tags with one
    name: it inserts only after its check found no tag of that name and
    otherwise only raises the counter of the tag that is there, whichever
    of its queries fail.  The [insertTag] of the third class has no check:
    when a tag of that name exists and its query succeeds, two tags carry
    the name afterwards. *)
Theorem V1_insertTag_keeps_tag_names_unique
    (instanceName : string) (totalContacts : Z) (w : World) :
  tagNamesUnique (db w) ->
  tagNamesUnique (db (V1.insertTag instanceName totalContacts w).2) /\
  (faults w = [] -> instanceName ∈ map Pg.t_name (Pg.tags (db w)) ->
   ~ tagNamesUnique (db (V3.insertTag instanceName totalContacts w).2)).
Proof.
  unfold tagNamesUnique. intros Hu. split.
  - unfold V1.insertTag, tryCatch, bind, query, Sql.checkTag, Sql.insertTag, Sql.updateTag,
      Sql.ok, loggerInfo, loggerError, modify, ret, typeError, throw, Pg.resultOf.
    destruct (faults w) as [|[] fs] eqn:Ef; simpl; [|done|].
    + destruct (List.filter _ (Pg.tags (db w))) as [|r rs] eqn:E; simpl.
      * apply inserted_tag_names; [by apply tag_filter_nil|done].
      * rewrite E. simpl. by rewrite updated_tag_names.
    + destruct (List.filter _ (Pg.tags (db w))) as [|r rs] eqn:E; simpl.
      * destruct fs as [|[] fs']; simpl; [|done|];
          (apply inserted_tag_names; [by apply tag_filter_nil|done]).
      * destruct fs as [|[] fs']; simpl; [|done|];
          rewrite E; simpl; by rewrite updated_tag_names.
  - intros Hf Hin.
    unfold V3.insertTag, tryCatch, bind, query, Sql.insertTag, Sql.ok, ret, Pg.resultOf.
    rewrite Hf. simpl. rewrite map_app. simpl. intros Hn.
    apply NoDup_app in Hn as (_ & Hn & _). apply (Hn _ Hin).
    by apply list_elem_of_singleton.
Qed.

Lemma V1_insertTag_keeps_tag_names_unique_witness :
  let d := Pg.with_tags (Sample.tables []) [Pg.mkTag 4 "other" 10; Pg.mkTag 9 "tenant-a" 3] in
  let w := mkWorld ∅ ∅ ∅ d [] [] in
  tagNamesUnique (db (V1.insertTag "tenant-a" 2 w).2) /\
  ~ tagNamesUnique (db (V3.insertTag "tenant-a" 2 w).2).
Proof.
  intros d w.
  destruct (V1_insertTag_keeps_tag_names_unique "tenant-a" 2 w) as (H1 & H2).
  - unfold tagNamesUnique. simpl. apply NoDup_cons. split.
    + intros H%list_elem_of_singleton. discriminate H.
    + apply NoDup_singleton.
  - split; [exact H1|]. apply H2; [reflexivity|].
    simpl. apply list_elem_of_further, list_elem_of_here.
Defined.

Lemma insertTagging_step tagId i w res w1 :
  (query (Sql.insertTagging tagId i) >> ret tt) w = (res, w1) ->
  (res = Ok tt /\ Pg.taggings (db w1) = Pg.taggings (db w) ++ [Pg.mkTagging tagId i] /\
   (faults w = [] -> faults w1 = [])) \/
  ((exists e, res = Throw e) /\ db w1 = db w /\ faults w <> []).
Proof.
  unfold bind, query, Sql.insertTagging, Sql.ok, ret.
  destruct (faults w) as [|[] fs] eqn:Ef; simpl; intros [= <- <-]; simpl.
  - by left.
  - right. split; [by eexists|]. done.
  - by left.
Qed.

Lemma insertTagging_loop tagId contactIds :
  forall w res w',
  forEachM (fun contactId => query (Sql.insertTagging tagId contactId) >> ret tt) contactIds w
    = (res, w') ->
  exists k : nat,
    (k <= length contactIds)%nat /\
    Pg.taggings (db w') = Pg.taggings (db w) ++ map (Pg.mkTagging tagId) (take k contactIds) /\
    res <> Diverge /\
    (faults w = [] -> k = length contactIds).
Proof.
  induction contactIds as [|i ids IH]; intros w res w'.
  - intros [= <- <-]. exists 0%nat. simpl. by rewrite app_nil_r.
  - cbn [forEachM]. unfold bind at 1.
    destruct ((query (Sql.insertTagging tagId i) >> ret tt) w) as [r1 w1] eqn:E1.
    apply insertTagging_step in E1 as [(-> & Ht & Hf)|([e ->] & Hd & Hf)].
    + intros E. apply IH in E as (k & Hk & Ht' & Hd & Hf').
      exists (S k). simpl. rewrite Ht', Ht, <- app_assoc. simpl.
      split; [lia|]. split; [done|]. split; [done|]. intros Hw. f_equal. auto.
    + intros [= <- <-]. exists 0%nat. simpl. rewrite app_nil_r, Hd.
      split; [lia|]. done.
Qed.

(** X11.  [insertTaggings] of the first class always comes back without an
    error, and the taggings it leaves are the ones that were there followed
    by one row [(tagId, contactId)] for each contact id of a prefix of its
    argument, in order; no other row is written.  When no query fails the
    prefix is the whole argument. *)
Theorem V1_insertTaggings_tags_a_prefix
    (instanceName : string) (tagId : option Z) (contactIds : list Z) (w : World) :
  (V1.insertTaggings instanceName tagId contactIds w).1 = Ok tt /\
  exists k : nat,
    (k <= length contactIds)%nat /\
    Pg.taggings (db (V1.insertTaggings instanceName tagId contactIds w).2)
      = Pg.taggings (db w) ++ map (Pg.mkTagging tagId) (take k contactIds) /\
    (faults w = [] -> k = length contactIds).
Proof.
  unfold V1.insertTaggings, tryCatch.
  destruct (forEachM _ contactIds w) as [res w1] eqn:E.
  apply insertTagging_loop in E as (k & Hk & Ht & Hd & Hf).
  destruct res as [[]|e|]; simpl; [| |done].
  - split; [done|]. by exists k.
  - split; [done|]. by exists k.
Qed.

(** ** Errors stay inside *)

Lemma tryCatch_never_throws {A} (m : M (option A)) prefix w e :
  (tryCatch m (fun e => loggerError prefix e >> ret None) w).1 <> Throw e.
Proof. unfold tryCatch. by destruct (m w) as [[?|?|] ?]. Qed.

Lemma dropped_result_never_throws {A} (m : M A) w :
  (forall e, (m w).1 <> Throw e) -> forall e, ((m >> ret tt) w).1 <> Throw e.
Proof.
  intros H e. unfold bind. specialize (H e). destruct (m w) as [[?|e'|] ?]; simpl in *;
    [done| |done]. intros [= ->]. done.
Qed.

(** X12.  No public method of the three classes rejects: the staging
    operations cannot fail, every importer catches what its queries and
    helpers throw and resolves to [null], and the helpers [insertLabel],
    [insertTag], [insertTaggings], [getChatwootUser] (first and third class)
    and [getAllConversationIds] catch their own errors as well. *)
Theorem no_public_method_throws (instance : InstanceDto.t) (op : Operation) (w : World)
    (e : string) :
  (perform instance op w).1 <> Throw e /\
  (forall n a, (insertLabel n a w).1 <> Throw e) /\
  (forall n c, (V1.insertTag n c w).1 <> Throw e) /\
  (forall n c, (V3.insertTag n c w).1 <> Throw e) /\
  (forall n t ids, (V1.insertTaggings n t ids w).1 <> Throw e) /\
  (forall t cs, (V3.insertTaggings t cs w).1 <> Throw e) /\
  (forall p, (V1.getChatwootUser p w).1 <> Throw e) /\
  (forall p, (V3.getChatwootUser p w).1 <> Throw e) /\
  (forall a f l, (V1.getAllConversationIds a f l w).1 <> Throw e).
Proof.
  split.
  { destruct op; simpl; try done;
      apply dropped_result_never_throws; intros e'; apply tryCatch_never_throws. }
  repeat split; intros; try apply tryCatch_never_throws.
  - unfold V1.insertTaggings, tryCatch, loggerError, modify.
    by destruct (forEachM _ _ w) as [[?|?|] ?].
  - unfold V3.insertTaggings, tryCatch, loggerError, modify.
    by destruct (forEachM _ _ w) as [[?|?|] ?].
Qed.

(** ** Sorting the staged messages *)

Lemma byTimestamp_sorted staged : StronglySorted olderFirst (Js.sort byTimestamp staged).
Proof.
  assert (StronglySorted (fun a b => byTimestamp a b <= 0) (Js.sort byTimestamp staged)) as H.
  { apply (sort_sorted byTimestamp (fun _ => True)).
    - unfold byTimestamp. intros; lia.
    - unfold byTimestamp. intros; lia.
    - by apply Forall_forall. }
  eapply StronglySorted_within with (P := fun _ => True); [| |exact H].
  - unfold byTimestamp, olderFirst. intros; lia.
  - by apply Forall_forall.
Qed.



(** ** A successful message import of the second class *)

Lemma JsMap_set_append_size {V} k (x : V) (m : list (string * list V)) :
  length (flat_map snd (JsMap.set k (default [] (JsMap.get k m) ++ [x]) m))
  = S (length (flat_map snd m)).
Proof.
  induction m as [|[k' v'] m IH]; simpl; [done|].
  destruct (String.eqb k' k); simpl.
  - rewrite !length_app. simpl. lia.
  - rewrite !length_app, IH. lia.
Qed.

Lemma groupMessages_size key messages :
  length (flat_map snd (groupMessages key messages)) = length messages.
Proof.
  unfold groupMessages.
  assert (forall l acc,
            length (flat_map snd
                      (fold_left
                         (fun map message =>
                            JsMap.set (key message)
                              (default [] (JsMap.get (key message) map) ++ [message]) map)
                         l acc))
            = (length (flat_map snd acc) + length l)%nat) as Hfold.
  { induction l as [|m l IH]; intros acc; simpl; [lia|].
    rewrite IH, JsMap_set_append_size. lia. }
  apply (Hfold messages []).
Qed.

Lemma omap_length_le {A B} (f : A -> option B) l : (length (omap f l) <= length l)%nat.
Proof.
  induction l as [|x l IH]; simpl; [lia|]. unfold omap in IH. destruct (f x); simpl; lia.
Qed.

Lemma V2_chunkValues_length svc fks groups :
  (length (V2.chunkValues svc fks groups) <= length (flat_map snd groups))%nat.
Proof.
  unfold V2.chunkValues. induction groups as [|[p g] groups IH]; simpl; [lia|].
  rewrite !length_app. pose proof (omap_length_le (V2.messageValues svc (JsMap.get p fks)) g).
  lia.
Qed.

Lemma upsertMessages_rowCount account inbox vs d r d' :
  Sql.upsertMessages account inbox vs d = inr (r, d') -> Pg.rowCount r = Z.of_nat (length vs).
Proof.
  unfold Sql.upsertMessages, Sql.ok. destruct vs as [|v vs]; [done|].
  destruct (Sql.hasDup _ _); [done|]. by intros [= <- <-].
Qed.

Lemma V2_messagesLoop_imports instance svc inbox provider fuel :
  forall pts chunk n w stored m w',
  historyMessages w !! InstanceDto.instanceName instance = Some stored ->
  (chunk = [] -> stored = []) ->
  V2.messagesLoop instance svc inbox provider fuel pts chunk n w = (Ok m, w') ->
  n <= m <= n + Z.of_nat (length chunk + length stored) /\
  historyMessages w' = <[InstanceDto.instanceName instance := []]> (historyMessages w) /\
  historyContacts w' = historyContacts w /\
  repositoryMessagesCache w' = repositoryMessagesCache w.
Proof.
  set (name := InstanceDto.instanceName instance).
  assert (forall n w stored m w',
            historyMessages w !! name = Some stored -> stored = [] ->
            ret n w = (Ok m, w') ->
            n <= m <= n + Z.of_nat (0 + length stored) /\
            historyMessages w' = <[name := []]> (historyMessages w) /\
            historyContacts w' = historyContacts w /\
            repositoryMessagesCache w' = repositoryMessagesCache w) as Hdone.
  { intros n w stored m w' Hs -> [= <- <-]. simpl. split; [lia|]. split; [|done].
    symmetry. by apply insert_id. }
  induction fuel as [|fuel IH]; intros pts chunk n w stored m w' Hs Hempty.
  { destruct chunk as [|c chunk]; [|done]. apply Hdone; auto. }
  destruct chunk as [|c chunk]; [apply Hdone; auto|]. clear Hempty.
  cbn [V2.messagesLoop]. fold name.
  pose proof (groupMessages_size V2.phoneNumberOf (c :: chunk)) as Hsize.
  unfold V2.createMessagesMapByPhoneNumber.
  destruct (groupMessages V2.phoneNumberOf (c :: chunk)) as [|g groups] eqn:Eg.
  { by apply groupMessages_nonempty in Eg. }
  cbn [length Nat.ltb Nat.leb].
  set (resolve := V2.selectOrCreateFksFromChatwoot _ _ _ _).
  assert (sameStore w (resolve w).2) as S1.
  { apply sameStore_step; [|apply sameStore_refl]. intros c0 hm0 hc0.
    apply V2_selectOrCreateFks_maintains; intros. apply onStore_query. }
  unfold bind at 1. destruct (resolve w) as [[fks|e|] w1]; simpl; [|done|done].
  simpl in S1.
  set (q := query _).
  assert (sameStore w1 (q w1).2) as S2.
  { apply sameStore_step; [|apply sameStore_refl]. intros. apply onStore_query. }
  assert (forall r, (q w1).1 = Ok r ->
            0 <= Pg.rowCount r <= Z.of_nat (length (c :: chunk))) as Hq.
  { intros r Hr. apply query_Ok, upsertMessages_rowCount in Hr. rewrite Hr.
    rewrite <- Hsize. split; [lia|]. apply Nat2Z.inj_le.
    exact (V2_chunkValues_length svc fks (g :: groups)). }
  unfold bind at 1. revert S2 Hq.
  destruct (q w1) as [[r|e|] w2]; simpl; intros S2 Hq; [|done|done].
  specialize (Hq r eq_refl).
  destruct S1 as (C1 & M1 & H1). destruct S2 as (C2 & M2 & H2).
  unfold bind at 1, V2.spliceStagedMessages at 1. fold name.
  rewrite M2, M1, Hs. cbn [V2.sliceIntoChunks].
  set (w3 := with_historyMessages w2 _).
  intros Hm.
  destruct (IH pts (take 4000 stored) (n + Pg.rowCount r) w3 (drop 4000 stored) m w')
    as (Hbound & Hhm & Hhc & Hcache); [| |exact Hm|].
  { simpl. apply lookup_insert_eq. }
  { by destruct stored. }
  split.
  { rewrite <- length_app, take_drop in Hbound. simpl length in *. lia. }
  split; [by rewrite Hhm; unfold w3; simpl; rewrite insert_insert_eq|].
  split; [by rewrite Hhc; unfold w3; simpl; rewrite H2, H1|].
  by rewrite Hcache; unfold w3; simpl; rewrite C2, C1.
Qed.

(** X14.  When [importHistoryMessages] of the second class reports a
    count, the count is between 0 and the number of messages that were
    staged for the tenant, the tenant's message staging entry is gone (the
    store is left as it is when nothing was staged), and the cache and the
    staged contacts are untouched: unlike the first class and part_000 it
    does not call [clearAll]. *)
Theorem V2_importHistoryMessages_drains_the_staged_messages
    (instance : InstanceDto.t) (chatwootService : ChatwootService.t) (inbox : Inbox.t)
    (provider : ChatwootRaw.t) (fuel : nat) (w : World) (n : Z) :
  (V2.importHistoryMessages instance chatwootService inbox provider fuel w).1 = Ok (Some n) ->
  0 <= n <= Z.of_nat (length (default [] (historyMessages w !! InstanceDto.instanceName instance)))
  /\
  historyMessages (V2.importHistoryMessages instance chatwootService inbox provider fuel w).2
    = (if default [] (historyMessages w !! InstanceDto.instanceName instance) is []
       then historyMessages w
       else delete (InstanceDto.instanceName instance) (historyMessages w)) /\
  historyContacts (V2.importHistoryMessages instance chatwootService inbox provider fuel w).2
    = historyContacts w /\
  repositoryMessagesCache
    (V2.importHistoryMessages instance chatwootService inbox provider fuel w).2
    = repositoryMessagesCache w.
Proof.
  set (name := InstanceDto.instanceName instance).
  destruct (V2.importHistoryMessages instance chatwootService inbox provider fuel w)
    as [res w'] eqn:E.
  simpl. intros ->. revert E.
  unfold V2.importHistoryMessages. intros E. apply tryCatch_Some in E. revert E.
  assert (sameStore w (V2.getChatwootUser provider w).2) as S1.
  { apply sameStore_step; [|apply sameStore_refl]. intros c0 hm0 hc0.
    apply V2_getChatwootUser_maintains; intros. apply onStore_query. }
  unfold bind at 1.
  destruct (V2.getChatwootUser provider w) as [[[u|]|e|] w1]; simpl; try done.
  simpl in S1. destruct S1 as (C1 & M1 & H1).
  unfold bind at 1, gets at 1. simpl. fold name. rewrite M1.
  destruct (historyMessages w !! name) as [staged|] eqn:Es; simpl.
  2: { intros [= <- <-]. split; [lia|]. done. }
  destruct staged as [|s staged]; simpl.
  { intros [= <- <-]. split; [lia|]. done. }
  unfold bind at 1, sortStagedMessages at 1. fold name. rewrite M1, Es.
  set (ordered := Js.sort compareMessages (s :: staged)).
  unfold bind at 1, V2.spliceStagedMessages at 1. fold name. simpl.
  rewrite lookup_insert_eq. cbn [V2.sliceIntoChunks].
  set (w3 := with_historyMessages _ _).
  pose proof (V2_messagesLoop_imports instance chatwootService inbox provider fuel
                (timestampsByPhoneNumber (V2.createMessagesMapByPhoneNumber ordered))
                (take 4000 ordered) 0 w3 (drop 4000 ordered)) as Hloop.
  unfold bind at 1.
  destruct (V2.messagesLoop _ _ _ _ _ _ _ _ _) as [[m|e|] w4]; simpl; [|done|done].
  intros [= <- <-].
  destruct (Hloop m w4) as (Hbound & Hhm & Hhc & Hcache).
  { unfold w3. simpl. apply lookup_insert_eq. }
  { intros Ht. assert (ordered = []) as Ho.
    { rewrite <- (take_drop 4000 ordered), Ht. simpl.
      destruct ordered; [done|discriminate Ht]. }
    by rewrite Ho. }
  { done. }
  rewrite <- length_app, take_drop in Hbound.
  unfold ordered in Hbound. rewrite sort_length in Hbound. simpl length in Hbound.
  split; [lia|].
  split.
  { simpl. rewrite Hhm. unfold w3. simpl. fold name. by rewrite !delete_insert_eq. }
  split; [simpl; rewrite Hhc; unfold w3; simpl; exact H1|].
  simpl. rewrite Hcache. unfold w3. simpl. exact C1.
Qed.

Lemma V2_importHistoryMessages_drains_the_staged_messages_witness :
  let w := Sample.world [Sample.agent] [] [Sample.hi; Sample.yo; Sample.bye] [Sample.alice] in
  let w' := (V2.importHistoryMessages Sample.instance Sample.service Sample.inbox
               Sample.provider 4 w).2 in
  0 <= 3 <= Z.of_nat (length (default [] (historyMessages w !! "tenant-a"))) /\
  historyMessages w'
    = (if default [] (historyMessages w !! "tenant-a") is []
       then historyMessages w else delete "tenant-a" (historyMessages w)) /\
  historyContacts w' = historyContacts w /\
  repositoryMessagesCache w' = repositoryMessagesCache w.
Proof.
  apply (V2_importHistoryMessages_drains_the_staged_messages Sample.instance Sample.service
           Sample.inbox Sample.provider 4
           (Sample.world [Sample.agent] [] [Sample.hi; Sample.yo; Sample.bye] [Sample.alice]) 3).
  vm_compute. reflexivity.
Defined.

(** ** Grouping by phone number *)

Lemma groupMessages_keys_used key messages p :
  p ∈ map fst (groupMessages key messages) -> exists x, x ∈ messages /\ key x = p.
Proof.
  unfold groupMessages.
  assert (forall l acc seen,
            (forall p, p ∈ map fst acc -> exists x, x ∈ seen /\ key x = p) ->
            forall p,
              p ∈ map fst
                    (fold_left
                       (fun map message =>
                          JsMap.set (key message)
                            (default [] (JsMap.get (key message) map) ++ [message]) map)
                       l acc) ->
              exists x, x ∈ seen ++ l /\ key x = p) as Hfold.
  { induction l as [|m l IH]; intros acc seen Hacc q; simpl.
    - rewrite app_nil_r. apply Hacc.
    - replace (seen ++ m :: l) with ((seen ++ [m]) ++ l) by (by rewrite <- app_assoc).
      apply IH. intros q' Hq'.
      destruct (JsMap_set_keys (key m) (default [] (JsMap.get (key m) acc) ++ [m]) acc)
        as [E|[_ E]]; rewrite E in Hq'.
      + destruct (Hacc q' Hq') as (x & Hx & Hk). exists x. split; [|done].
        apply elem_of_app. by left.
      + apply elem_of_app in Hq' as [Hq'|Hq'].
        * destruct (Hacc q' Hq') as (x & Hx & Hk). exists x. split; [|done].
          apply elem_of_app. by left.
        * apply list_elem_of_singleton in Hq' as ->. exists m. split; [|done].
          apply elem_of_app. right. by apply list_elem_of_singleton. }
  apply (Hfold messages [] []). intros q Hq. by apply elem_of_nil in Hq.
Qed.

Lemma groupMessages_group_nonempty key messages p g :
  (p, g) ∈ groupMessages key messages -> g <> [].
Proof.
  intros Hg. destruct (groupMessages_groupsOf key messages) as (_ & Hin & _).
  rewrite (Hin p g Hg).
  destruct (groupMessages_keys_used key messages p) as (x & Hx & Hk).
  { apply list_elem_of_fmap. by exists (p, g). }
  intros E. assert (In x (List.filter (sameKey key p) messages)) as Hf.
  { apply filter_In. split; [by apply list_elem_of_In|]. unfold sameKey.
    by apply String.eqb_eq. }
  by rewrite E in Hf.
Qed.

(** X15.  [createMessagesMapByPhoneNumber] splits a sequence of messages
    into groups without losing, repeating or reordering anything: no key
    occurs twice, the group of a key is exactly the messages of that key in
    the order of the input, every message's key has a group, no group is
    empty, and the groups together hold as many messages as the input.  The
    key is the phone number ['+' + remoteJid.split('@')[0]] in the second
    class and the whole [remoteJid] in part_000. *)
Theorem createMessagesMapByPhoneNumber_partitions (messages : list MessageRaw.t) :
  (groupsOf V2.phoneNumberOf (V2.createMessagesMapByPhoneNumber messages) messages /\
   (forall p g, (p, g) ∈ V2.createMessagesMapByPhoneNumber messages -> g <> []) /\
   length (flat_map snd (V2.createMessagesMapByPhoneNumber messages)) = length messages) /\
  (groupsOf MessageRaw.remoteJid (V3.createMessagesMapByPhoneNumber messages) messages /\
   (forall p g, (p, g) ∈ V3.createMessagesMapByPhoneNumber messages -> g <> []) /\
   length (flat_map snd (V3.createMessagesMapByPhoneNumber messages)) = length messages).
Proof.
  unfold V2.createMessagesMapByPhoneNumber, V3.createMessagesMapByPhoneNumber.
  split; (split; [apply groupMessages_groupsOf|]);
    (split; [intros p g; apply groupMessages_group_nonempty|apply groupMessages_size]).
Qed.

(** ** The chunks of the second class *)

(** X16.  The [splice]-based [sliceIntoChunks] of the second class takes
    the first [chunkSize] elements out of the array and leaves the rest in
    it, and a loop that calls it until it returns nothing sees, for a
    positive chunk size, [ceil(N / chunkSize)] chunks, none empty and none
    longer than [chunkSize], whose concatenation is the input. *)
Theorem V2_chunks_cover_the_input {A} (chunkSize fuel : nat) (messages : list A) :
  (0 < chunkSize)%nat -> (length messages <= fuel)%nat ->
  (V2.sliceIntoChunks messages chunkSize).1 ++ (V2.sliceIntoChunks messages chunkSize).2
    = messages /\
  length (V2.sliceIntoChunks messages chunkSize).1 = (chunkSize `min` length messages)%nat /\
  length (V2.chunksDrained fuel messages chunkSize) = ceilDiv (length messages) chunkSize /\
  Forall (fun c => (0 < length c <= chunkSize)%nat) (V2.chunksDrained fuel messages chunkSize) /\
  concat (V2.chunksDrained fuel messages chunkSize) = messages.
Proof.
  intros Hc Hfuel. unfold V2.sliceIntoChunks at 1 2 3. simpl.
  split; [apply take_drop|]. split; [apply length_take|].
  apply (V2_chunksDrained_spec chunkSize Hc fuel messages Hfuel).
Qed.

Lemma V2_chunks_cover_the_input_witness :
  (V2.sliceIntoChunks [1; 2; 3] 2).1 ++ (V2.sliceIntoChunks [1; 2; 3] 2).2 = [1; 2; 3] /\
  length (V2.sliceIntoChunks [1; 2; 3] 2).1 = (2 `min` length [1; 2; 3])%nat /\
  length (V2.chunksDrained 3 [1; 2; 3] 2) = ceilDiv (length [1; 2; 3]) 2 /\
  Forall (fun c => (0 < length c <= 2)%nat) (V2.chunksDrained 3 [1; 2; 3] 2) /\
  concat (V2.chunksDrained 3 [1; 2; 3] 2) = [1; 2; 3].
Proof.
  apply (V2_chunks_cover_the_input 2 3 [1; 2; 3]); simpl; lia.
Defined.

(** X17.  The loops of the second class end: with more rounds allowed than
    elements staged for the tenant, [importHistoryContacts] and
    [importHistoryMessages] come back with a result, whatever the tables
    hold and whichever queries fail. *)
Theorem V2_importers_come_back
    (instance : InstanceDto.t) (chatwootService : ChatwootService.t) (inbox : Inbox.t)
    (provider : ChatwootRaw.t) (fuel : nat) (w : World) :
  (length (default [] (historyContacts w !! InstanceDto.instanceName instance)) < fuel)%nat ->
  (length (default [] (historyMessages w !! InstanceDto.instanceName instance)) < fuel)%nat ->
  (exists r, (V2.importHistoryContacts instance provider fuel w).1 = Ok r) /\
  (exists r, (V2.importHistoryMessages instance chatwootService inbox provider fuel w).1 = Ok r).
Proof.
  intros Hc Hm. split.
  - by apply V2_importHistoryContacts_ends.
  - by apply V2_importHistoryMessages_ends.
Qed.

Lemma V2_importers_come_back_witness :
  let w := Sample.world [Sample.agent] [false; true] [Sample.hi; Sample.yo]
             [Sample.alice; Sample.bob] in
  (exists r, (V2.importHistoryContacts Sample.instance Sample.provider 3 w).1 = Ok r) /\
  (exists r, (V2.importHistoryMessages Sample.instance Sample.service Sample.inbox
                Sample.provider 3 w).1 = Ok r).
Proof.
  apply V2_importers_come_back; vm_compute; lia.
Defined.

(** ** No message row without content (second class) *)

Lemma V2_messageValues_content svc fks m row :
  V2.messageValues svc fks m = Some row ->
  nonEmpty (Sql.mv_content row) = true /\
  Sql.mv_content row = V2.getContentMessage svc m /\
  fks ≫= FksChatwoot.conversation_id = Some (Sql.mv_conversation_id row) /\
  fks ≫= FksChatwoot.contact_id = Some (Sql.mv_sender_id row) /\
  Sql.mv_conversation_id row <> 0 /\ Sql.mv_sender_id row <> 0 /\
  is_Some (MessageRaw.message m).
Proof.
  unfold V2.messageValues.
  destruct (MessageRaw.message m); [|done].
  destruct (fks ≫= FksChatwoot.conversation_id) as [cv|],
    (fks ≫= FksChatwoot.contact_id) as [ct|]; try done.
  destruct (cv =? 0) eqn:E1; [done|]. destruct (ct =? 0) eqn:E2; [done|]. simpl.
  destruct (nonEmpty _) eqn:E3; [|done].
  intros [= <-]. simpl. apply Z.eqb_neq in E1, E2. by repeat split.
Qed.

Lemma V2_chunkValues_contentful svc fks groups :
  Forall (fun v => nonEmpty (Sql.mv_content v) = true) (V2.chunkValues svc fks groups).
Proof.
  unfold V2.chunkValues. apply Forall_forall. intros v Hv.
  apply list_elem_of_In, in_flat_map in Hv as ([p g] & _ & Hv).
  apply list_elem_of_In, list_elem_of_omap in Hv as (m & _ & Hm).
  by apply V2_messageValues_content in Hm as (H & _).
Qed.

Lemma upsertMessageRow_contentful account inbox tbl v :
  nonEmpty (Sql.mv_content v) = true -> contentful tbl ->
  contentful (Sql.upsertMessageRow account inbox tbl v).
Proof.
  unfold contentful, Sql.upsertMessageRow. intros Hv Ht.
  destruct (existsb _ tbl).
  - apply Forall_forall. intros r Hr.
    apply list_elem_of_In, in_map_iff in Hr as (r0 & <- & Hr0).
    destruct (Sql.messageKey _ _ r0); [done|].
    rewrite Forall_forall in Ht. by apply Ht, list_elem_of_In.
  - apply Forall_app. split; [done|]. by apply Forall_singleton.
Qed.

Lemma upsertMessageRows_contentful account inbox vs tbl :
  Forall (fun v => nonEmpty (Sql.mv_content v) = true) vs -> contentful tbl ->
  contentful (fold_left (Sql.upsertMessageRow account inbox) vs tbl).
Proof.
  revert tbl. induction vs as [|x l IH]; intros tbl Hl Ht; simpl; [done|].
  apply Forall_cons in Hl as [Hx Hl]. apply IH; [done|].
  by apply upsertMessageRow_contentful.
Qed.

Lemma upsertMessages_contentful account inbox vs d r d' :
  Forall (fun v => nonEmpty (Sql.mv_content v) = true) vs ->
  Sql.upsertMessages account inbox vs d = inr (r, d') ->
  contentful (Pg.messages d) -> contentful (Pg.messages d').
Proof.
  unfold Sql.upsertMessages, Sql.ok. intros Hvs. destruct vs as [|v vs]; [done|].
  destruct (Sql.hasDup _ _); [done|]. intros [= <- <-] Ht.
  cbn [Pg.messages Pg.with_messages].
  by apply (upsertMessageRows_contentful account inbox (v :: vs)).
Qed.

Section MessageRows.
Variable P : list Pg.MessageRow -> Prop.
Variable instance : InstanceDto.t.
Variable chatwootService : ChatwootService.t.
Variable inbox : Inbox.t.
Variable provider : ChatwootRaw.t.
Hypothesis P_upsert : forall fks groups d r d',
  Sql.upsertMessages (ChatwootRaw.account_id provider) (Inbox.id inbox)
    (V2.chunkValues chatwootService fks groups) d = inr (r, d') ->
  P (Pg.messages d) -> P (Pg.messages d').

#[local] Hint Resolve onMessages_selectUser onMessages_selectFks onMessages_insertContact
  onMessages_insertConversation onMessages_loggerError onMessages_sortStagedMessages
  onMessages_spliceStagedMessages onMessages_deleteHistoryMessages : maintain.

Lemma onMessages_upsert_chunk fks groups :
  maintains (onMessages P)
    (query (Sql.upsertMessages (ChatwootRaw.account_id provider) (Inbox.id inbox)
              (V2.chunkValues chatwootService fks groups))).
Proof. apply onMessages_query. intros d a d'. apply P_upsert. Qed.

#[local] Hint Resolve onMessages_upsert_chunk : maintain.

Lemma onMessages_V2_resolveAll rows pts byPhone fks phones :
  maintains (onMessages P) (V2.resolveAll inbox provider rows pts byPhone fks phones).
Proof.
  revert fks. induction phones as [|phone rest IH]; intros fks; simpl.
  - apply maintains_ret.
  - apply maintains_bind; [|intros fks'; apply IH].
    unfold V2.resolveOne, V2.insertContactChatwoot, V2.insertConversationChatwoot. walk.
Qed.

Lemma onMessages_V2_messagesLoop fuel pts chunk n :
  maintains (onMessages P)
    (V2.messagesLoop instance chatwootService inbox provider fuel pts chunk n).
Proof.
  revert chunk n. induction fuel as [|fuel IH]; intros chunk n;
    destruct chunk as [|c chunk]; simpl; walk.
  unfold V2.selectOrCreateFksFromChatwoot. walk. apply onMessages_V2_resolveAll.
Qed.

Lemma onMessages_V2_importHistoryMessages fuel :
  maintains (onMessages P)
    (V2.importHistoryMessages instance chatwootService inbox provider fuel).
Proof.
  unfold V2.importHistoryMessages, V2.getChatwootUser. walk.
  apply onMessages_V2_messagesLoop.
Qed.
End MessageRows.

(** X18.  [importHistoryMessages] of the second class never writes a
    message without content: if every row of [messages] has a non-empty
    [content] before the call, every row has one after it, whatever is
    staged and whichever queries fail.  Messages without a body or with
    empty text are skipped, and a row in conflict is overwritten only with
    non-empty text. *)
Theorem V2_importHistoryMessages_writes_no_empty_message
    (instance : InstanceDto.t) (chatwootService : ChatwootService.t) (inbox : Inbox.t)
    (provider : ChatwootRaw.t) (fuel : nat) (w : World) :
  contentful (Pg.messages (db w)) ->
  contentful
    (Pg.messages
       (db (V2.importHistoryMessages instance chatwootService inbox provider fuel w).2)).
Proof.
  intros Hw.
  apply (onMessages_V2_importHistoryMessages contentful instance chatwootService inbox provider);
    [|exact Hw].
  intros fks groups d r d'. apply upsertMessages_contentful, V2_chunkValues_contentful.
Qed.

Lemma V2_importHistoryMessages_writes_no_empty_message_witness :
  contentful
    (Pg.messages
       (db (V2.importHistoryMessages Sample.instance Sample.service Sample.inbox
              Sample.provider 4
              (Sample.world [Sample.agent] [] [Sample.hi; Sample.yo; Sample.bye] [])).2)).
Proof.
  apply V2_importHistoryMessages_writes_no_empty_message. apply Forall_nil_2.
Defined.

(** X19.  In every [INSERT] statement that [importHistoryMessages] of the
    second class builds for a chunk, the rows of one phone number are
    listed with ascending [created_at], provided every staged identifier
    starts with a number: a chunk is a slice of the sorted sequence, and
    grouping keeps the order inside a phone number. *)
Theorem V2_statement_lists_a_phone_number_in_order
    (chatwootService : ChatwootService.t) (staged : list MessageRaw.t) (k n : nat)
    (fks : list (string * FksChatwoot.t)) (p : string) (g : list MessageRaw.t) :
  numbered staged ->
  (p, g) ∈ V2.createMessagesMapByPhoneNumber
             (take n (drop k (Js.sort compareMessages staged))) ->
  StronglySorted olderFirst g /\
  StronglySorted Z.le
    (map Sql.mv_created_at (omap (V2.messageValues chatwootService (JsMap.get p fks)) g)).
Proof.
  intros Hwf Hg. split; [|by eapply V2_rows_of_a_group_in_order].
  set (chunk := take n (drop k (Js.sort compareMessages staged))) in *.
  destruct (groupMessages_groupsOf V2.phoneNumberOf chunk) as (_ & Hin & _).
  rewrite (Hin p g Hg).
  apply (StronglySorted_within (fun a b => compareMessages a b <= 0) olderFirst
           (fun m => V2.phoneNumberOf m = p)).
  - intros a b Ha Hb Hab. unfold olderFirst.
    rewrite compareMessages_same_number in Hab; [lia|].
    apply phoneNumberOf_parseInt. by rewrite Ha, Hb.
  - apply Forall_forall. intros m Hm. apply list_elem_of_In, List.filter_In in Hm as [_ Hm].
    by apply String.eqb_eq in Hm.
  - apply (StronglySorted_sublist _ _ (Js.sort compareMessages staged)).
    + etrans; [apply filter_sublist|]. etrans; [apply sublist_take|apply sublist_drop].
    + by apply sorted_messages.
Qed.

Lemma V2_statement_lists_a_phone_number_in_order_witness :
  StronglySorted olderFirst [Sample.yo; Sample.hi] /\
  StronglySorted Z.le
    (map Sql.mv_created_at
       (omap (V2.messageValues Sample.service
                (JsMap.get "+100" [("+100", FksChatwoot.mk "+100" (Some 1) (Some 1))]))
          [Sample.yo; Sample.hi])).
Proof.
  apply (V2_statement_lists_a_phone_number_in_order Sample.service
           [Sample.hi; Sample.yo; Sample.bye] 0 2).
  - repeat constructor; by eexists.
  - vm_compute. apply list_elem_of_here.
Defined.

(** ** The per-message importer of the first class *)

Lemma bind_Ok {A B} (m : M A) (k : A -> M B) w b w' :
  bind m k w = (Ok b, w') -> exists a w1, m w = (Ok a, w1) /\ k a w1 = (Ok b, w').
Proof. unfold bind. destruct (m w) as [[a|e|] w1]; [|done|done]. intros H. by exists a, w1. Qed.

Lemma query_Ok_inv {A} (s : Pg.Stmt A) w a w' :
  query s w = (Ok a, w') -> exists d', s (db w) = inr (a, d') /\ db w' = d'.
Proof.
  unfold query. destruct (faults w) as [|[] fs]; simpl; try done;
    destruct (s (db w)) as [e|[a' d']]; simpl; try done; intros [= <- <-]; by eexists.
Qed.

Lemma find_senderStaged contacts message :
  senderStaged contacts message =
  match List.find (fun contact => String.eqb (ContactRaw.id contact) (MessageRaw.from message))
          contacts with
  | Some _ => true
  | None => false
  end.
Proof.
  unfold senderStaged. induction contacts as [|c contacts IH]; simpl; [done|].
  by destruct (String.eqb _ _).
Qed.

Lemma V1_messagesLoop_counts svc provider contacts user messages :
  forall conversations n w m w',
  V1.messagesLoop svc provider contacts user messages conversations n w = (Ok m, w') ->
  m = n + Z.of_nat (length (List.filter (senderStaged contacts) messages)).
Proof.
  induction messages as [|message rest IH]; intros conversations n w m w'.
  - intros [= <- <-]. simpl. lia.
  - cbn [V1.messagesLoop List.filter]. rewrite find_senderStaged.
    destruct (List.find _ contacts) as [sender|].
    + destruct conversations as [known|]; [|done].
      intros H. apply bind_Ok in H as (found & w1 & _ & H).
      apply bind_Ok in H as (result & w2 & Hq & H).
      apply query_Ok_inv in Hq as (d' & Hq & _).
      unfold Sql.insertMessage, Sql.ok in Hq. injection Hq as <- _.
      apply IH in H. simpl in *. lia.
    + apply IH.
Qed.

Lemma filter_length_Permutation {A} (f : A -> bool) (l l' : list A) :
  l ≡ₚ l' -> length (List.filter f l) = length (List.filter f l').
Proof.
  induction 1 as [|x l l' _ IH|x y l|l l' l'' _ IH1 _ IH2]; simpl.
  - done.
  - destruct (f x); simpl; lia.
  - destruct (f x), (f y); simpl; lia.
  - lia.
Qed.

(** X20.  When [importHistoryMessages] of the first class reports a count,
    the count is the number of staged messages whose [from] is the id of a
    staged contact; the other messages are skipped without a trace.  If
    messages were staged, the tenant's cache, staged messages and staged
    contacts are all deleted afterwards (imported or skipped); if none was
    staged the count is 0 and the staging store is as before. *)
Theorem V1_importHistoryMessages_counts_the_matched_messages
    (instance : InstanceDto.t) (chatwootService : ChatwootService.t)
    (provider : ChatwootRaw.t) (w : World) (n : Z) :
  (V1.importHistoryMessages instance chatwootService provider w).1 = Ok (Some n) ->
  n = Z.of_nat
        (length
           (List.filter
              (senderStaged (default [] (historyContacts w !! InstanceDto.instanceName instance)))
              (default [] (historyMessages w !! InstanceDto.instanceName instance)))) /\
  (if default [] (historyMessages w !! InstanceDto.instanceName instance) is []
   then historyContacts (V1.importHistoryMessages instance chatwootService provider w).2
          = historyContacts w /\
        repositoryMessagesCache (V1.importHistoryMessages instance chatwootService provider w).2
          = repositoryMessagesCache w
   else tenantView (InstanceDto.instanceName instance)
          (V1.importHistoryMessages instance chatwootService provider w).2
          = (None, None, None)).
Proof.
  set (name := InstanceDto.instanceName instance).
  destruct (V1.importHistoryMessages instance chatwootService provider w) as [res w'] eqn:E.
  simpl. intros ->. revert E.
  unfold V1.importHistoryMessages. intros E. apply tryCatch_Some in E.
  apply bind_Ok in E as (user & w1 & Hu & E).
  assert (sameStore w w1) as (C1 & M1 & H1).
  { replace w1 with (V1.getChatwootUser provider w).2 by by rewrite Hu.
    apply sameStore_step; [|apply sameStore_refl]. intros c0 hm0 hc0.
    apply V1_getChatwootUser_maintains; intros; [apply onStore_query|apply onStore_loggerError]. }
  destruct user as [user|]; [|done].
  apply bind_Ok in E as (ordered & w2 & Hs & E).
  unfold V1.sortStagedByTimestamp in Hs. fold name in Hs. rewrite M1 in Hs.
  destruct (historyMessages w !! name) as [staged|] eqn:Es; simpl.
  2: { injection Hs as <- <-. injection E as <- <-. simpl. by rewrite H1, C1. }
  injection Hs as <- <-.
  pose proof (sort_Permutation
                (fun a b => MessageRaw.messageTimestamp a - MessageRaw.messageTimestamp b) staged)
    as Hperm.
  destruct (Js.sort _ staged) as [|s sorted] eqn:Esort.
  { apply Permutation_nil in Hperm as ->. injection E as <- <-. simpl. by rewrite H1, C1. }
  destruct staged as [|s0 staged0];
    [symmetry in Hperm; by apply Permutation_nil_cons in Hperm|].
  apply bind_Ok in E as (conversations & w3 & Hc & E).
  assert (sameStore (with_historyMessages w1 (<[name := s :: sorted]> (historyMessages w))) w3)
    as (C3 & M3 & H3).
  { match type of Hc with ?m ?w0 = _ =>
      replace w3 with (m w0).2 by (by rewrite Hc);
      apply (sameStore_step m w0 w0); [|apply sameStore_refl] end.
    intros c0 hm0 hc0.
    apply V1_getAllConversationIds_maintains; intros;
      [apply onStore_query|apply onStore_loggerError]. }
  simpl in C3, M3, H3.
  apply bind_Ok in E as (contacts & w4 & Hg & E).
  injection Hg as <- <-. fold name in E. rewrite H3, H1 in E.
  apply bind_Ok in E as (total & w5 & Hloop & E).
  pose proof (V1_messagesLoop_counts _ _ _ _ _ _ _ _ _ _ Hloop) as ->.
  unfold bind, deleteHistoryMessages, clearAll, deleteRepositoryMessagesCache,
    deleteHistoryContacts, modify, ret in E. simpl in E. injection E as <- <-.
  split.
  - rewrite Z.add_0_l. f_equal.
    exact (filter_length_Permutation _ (s :: sorted) (s0 :: staged0) Hperm).
  - unfold tenantView. simpl. fold name. by rewrite !lookup_delete_eq.
Qed.

Lemma V1_importHistoryMessages_counts_the_matched_messages_witness :
  let d :=
    Pg.mkDB [] [] [] [Pg.mkContact 1 (Some "Alice") "+100" 1 "100@d" 0] [] [] []
      [Pg.mkAccountUser 1 7 "User"] 1000 in
  let w :=
    mkWorld ∅ {[ "tenant-a" := [Sample.hi; Sample.text "300@d" 7 "who"; Sample.yo] ]}
      {[ "tenant-a" := [Sample.alice] ]} d [] [] in
  2 = Z.of_nat
        (length
           (List.filter (senderStaged (default [] (historyContacts w !! "tenant-a")))
              (default [] (historyMessages w !! "tenant-a")))) /\
  (if default [] (historyMessages w !! "tenant-a") is []
   then historyContacts
          (V1.importHistoryMessages Sample.instance Sample.service Sample.provider w).2
          = historyContacts w /\
        repositoryMessagesCache
          (V1.importHistoryMessages Sample.instance Sample.service Sample.provider w).2
          = repositoryMessagesCache w
   else tenantView "tenant-a"
          (V1.importHistoryMessages Sample.instance Sample.service Sample.provider w).2
          = (None, None, None)).
Proof.
  intros d w.
  apply (V1_importHistoryMessages_counts_the_matched_messages Sample.instance Sample.service
           Sample.provider w 2).
  vm_compute. reflexivity.
Defined.

(** ** The key resolvers *)

Lemma JsMap_get_of_NoDup {V} p (g : V) (m : list (string * V)) :
  NoDup (map fst m) -> (p, g) ∈ m -> JsMap.get p m = Some g.
Proof.
  induction m as [|[k v] m IH]; simpl; intros Hn Hin.
  - by apply elem_of_nil in Hin.
  - apply NoDup_cons in Hn as [Hk Hn].
    apply elem_of_cons in Hin as [[= <- <-]|Hin].
    + by rewrite String.eqb_refl.
    + destruct (String.eqb_spec k p) as [->|_]; [|by apply IH].
      exfalso. apply Hk. apply list_elem_of_fmap. by exists (p, g).
Qed.

Lemma JsMap_get_timestamps p groups :
  JsMap.get p (timestampsByPhoneNumber groups) = firstLastOf <$> JsMap.get p groups.
Proof.
  unfold timestampsByPhoneNumber. induction groups as [|[k v] groups IH]; simpl; [done|].
  by destruct (String.eqb k p).
Qed.

(** One pass of the resolver of part_000, with all parameters bound. *)
Lemma V3_resolveOne_adds_a_conversation provider pts fks p first rest t last_ w :
  faults w = [] ->
  JsMap.get p pts = Some (FirstLastTimestamp.mk (Some t) last_) ->
  exists fks' w',
    V3.resolveOne provider pts fks (p, first :: rest) w = (Ok fks', w') /\
    faults w' = [] /\
    length (Pg.conversations (db w')) = S (length (Pg.conversations (db w))).
Proof.
  intros Hf Hp. unfold V3.resolveOne. rewrite Hp. simpl.
  unfold bind, query, V3Sql.selectOrCreateContactConversation. rewrite Hf. simpl.
  destruct (List.find _ (Pg.contacts (db w))) as [hit|]; simpl;
    (eexists _, _; split; [reflexivity|]; split; [done|]; simpl; rewrite length_app;
     simpl; lia).
Qed.

Lemma V3_resolveAll_adds_conversations provider pts entries :
  (forall p g, (p, g) ∈ entries ->
     g <> [] /\ exists t last_, JsMap.get p pts = Some (FirstLastTimestamp.mk (Some t) last_)) ->
  forall fks w, faults w = [] ->
  exists fks' w',
    V3.resolveAll provider pts fks entries w = (Ok fks', w') /\
    faults w' = [] /\
    length (Pg.conversations (db w'))
      = (length (Pg.conversations (db w)) + length entries)%nat.
Proof.
  induction entries as [|[p g] entries IH]; intros Hall fks w Hf.
  - exists fks, w. simpl. split; [done|]. split; [done|]. lia.
  - destruct (Hall p g) as (Hg & t & last_ & Hp); [apply list_elem_of_here|].
    destruct g as [|first rest]; [done|].
    destruct (V3_resolveOne_adds_a_conversation provider pts fks p first rest t last_ w Hf Hp)
      as (fks1 & w1 & E1 & Hf1 & Hlen1).
    cbn [V3.resolveAll]. unfold bind at 1, tryCatch at 1, bind at 1.
    rewrite E1. simpl.
    destruct (IH (fun p' g' H => Hall p' g' (list_elem_of_further _ _ _ H)) fks1 w1 Hf1)
      as (fks' & w' & E & Hf' & Hlen).
    exists fks', w'. split; [done|]. split; [done|]. rewrite Hlen, Hlen1. simpl. lia.
Qed.

(** X21.  The key resolver of part_000 adds one conversation row for every
    phone number of the chunk at every call, whether or not the contact and
    a conversation for it exist: on a connection that does not fail, after
    resolving the groups of any sequence of messages the [conversations]
    table has as many more rows as there are groups, and the call returns
    the keys found. *)
Theorem V3_resolver_adds_a_conversation_per_phone_number
    (provider : ChatwootRaw.t) (messages : list MessageRaw.t) (w : World) :
  faults w = [] ->
  exists fks,
    (V3.selectOrCreateFksFromChatwoot provider
       (timestampsByPhoneNumber (V3.createMessagesMapByPhoneNumber messages))
       (V3.createMessagesMapByPhoneNumber messages) w).1 = Ok fks /\
    length (Pg.conversations
              (db (V3.selectOrCreateFksFromChatwoot provider
                     (timestampsByPhoneNumber (V3.createMessagesMapByPhoneNumber messages))
                     (V3.createMessagesMapByPhoneNumber messages) w).2))
    = (length (Pg.conversations (db w))
       + length (V3.createMessagesMapByPhoneNumber messages))%nat.
Proof.
  intros Hf. unfold V3.selectOrCreateFksFromChatwoot.
  destruct (V3_resolveAll_adds_conversations provider
              (timestampsByPhoneNumber (V3.createMessagesMapByPhoneNumber messages))
              (V3.createMessagesMapByPhoneNumber messages))
    with (fks := @nil (string * FksChatwoot.t)) (w := w)
    as (fks & w' & E & _ & Hlen); [|done|rewrite E; by exists fks].
  intros p g Hg. unfold V3.createMessagesMapByPhoneNumber in *.
  pose proof (groupMessages_group_nonempty _ _ _ _ Hg) as Hne.
  split; [done|].
  destruct (groupMessages_groupsOf MessageRaw.remoteJid messages) as (Hnd & _ & _).
  rewrite JsMap_get_timestamps, (JsMap_get_of_NoDup p g) by done. simpl.
  destruct g as [|first rest]; [done|]. simpl. by eexists _, _.
Qed.

Lemma V3_resolver_adds_a_conversation_per_phone_number_witness :
  let d := Pg.mkDB [] [] [] [Pg.mkContact 1 (Some "Alice") "+100" 1 "100@d" 0]
             [Pg.mkConversation 1 1 5 1 0] [] [] [] 1000 in
  let w := mkWorld ∅ ∅ ∅ d [] [] in
  exists fks,
    (V3.selectOrCreateFksFromChatwoot Sample.provider
       (timestampsByPhoneNumber (V3.createMessagesMapByPhoneNumber [Sample.hi; Sample.yo]))
       (V3.createMessagesMapByPhoneNumber [Sample.hi; Sample.yo]) w).1 = Ok fks /\
    length (Pg.conversations
              (db (V3.selectOrCreateFksFromChatwoot Sample.provider
                     (timestampsByPhoneNumber
                        (V3.createMessagesMapByPhoneNumber [Sample.hi; Sample.yo]))
                     (V3.createMessagesMapByPhoneNumber [Sample.hi; Sample.yo]) w).2))
    = (length (Pg.conversations (db w))
       + length (V3.createMessagesMapByPhoneNumber [Sample.hi; Sample.yo]))%nat.
Proof.
  intros d w.
  exact (V3_resolver_adds_a_conversation_per_phone_number Sample.provider
           [Sample.hi; Sample.yo] w eq_refl).
Defined.

Lemma JsMap_get_set {V} p k (v : V) m :
  JsMap.get p (JsMap.set k v m) = if String.eqb k p then Some v else JsMap.get p m.
Proof.
  induction m as [|[k' v'] m IH]; simpl.
  - done.
  - destruct (String.eqb_spec k' k) as [->|Hk]; simpl.
    + by destruct (String.eqb k p).
    + rewrite IH. destruct (String.eqb_spec k p) as [->|_]; [|done].
      by destruct (String.eqb_spec k' p).
Qed.

Lemma V2_resolveAll_reuses inbox provider rows pts byPhone phones :
  (forall p, p ∈ phones ->
     exists row,
       List.find (fun row => String.eqb (FksChatwoot.phone_number row) p) rows = Some row /\
       truthy (FksChatwoot.conversation_id row) = true) ->
  forall fks w,
  exists fks',
    V2.resolveAll inbox provider rows pts byPhone fks phones w = (Ok fks', w) /\
    forall p,
      JsMap.get p fks' =
      if bool_decide (p ∈ phones)
      then List.find (fun row => String.eqb (FksChatwoot.phone_number row) p) rows
      else JsMap.get p fks.
Proof.
  induction phones as [|p phones IH]; intros Hall fks w.
  - exists fks. split; [done|]. intros p. by rewrite bool_decide_eq_false_2 by apply not_elem_of_nil.
  - destruct (Hall p) as (row & Hfind & Hconv); [apply list_elem_of_here|].
    cbn [V2.resolveAll]. unfold V2.resolveOne. rewrite Hfind. simpl. rewrite Hconv.
    unfold bind at 1. simpl.
    destruct (IH (fun p' H => Hall p' (list_elem_of_further _ _ _ H))
                (JsMap.set p row fks) w) as (fks' & E & Hget).
    exists fks'. split; [exact E|]. intros q. rewrite Hget.
    destruct (decide (q ∈ phones)) as [Hq|Hq].
    + rewrite !bool_decide_eq_true_2; [done| |done]. by apply list_elem_of_further.
    + rewrite (bool_decide_eq_false_2 _ Hq). rewrite JsMap_get_set.
      destruct (String.eqb_spec p q) as [->|Hpq].
      * by rewrite bool_decide_eq_true_2 by apply list_elem_of_here.
      * rewrite bool_decide_eq_false_2; [done|].
        intros [->|H]%elem_of_cons; done.
Qed.

(** X22.  The key resolver of the second class creates nothing for a phone
    number it finds with a conversation: when the lookup returns, for every
    phone number of the chunk, a first row that carries a conversation, the
    resolver leaves all tables as they are and returns, for every phone
    number, the row the lookup returned for it. *)
Theorem V2_resolver_reuses_what_the_lookup_finds
    (inbox : Inbox.t) (provider : ChatwootRaw.t)
    (pts : list (string * FirstLastTimestamp.t)) (groups : list (string * list MessageRaw.t))
    (w w1 : World) (result : Pg.QueryResult FksChatwoot.t) :
  query (Sql.selectFks (map fst groups)) w = (Ok result, w1) ->
  (forall p, p ∈ map fst groups ->
     exists row,
       List.find (fun row => String.eqb (FksChatwoot.phone_number row) p) (Pg.rows result)
         = Some row /\
       truthy (FksChatwoot.conversation_id row) = true) ->
  exists fks,
    V2.selectOrCreateFksFromChatwoot inbox provider pts groups w = (Ok fks, w1) /\
    db w1 = db w /\
    forall p, p ∈ map fst groups ->
      JsMap.get p fks
      = List.find (fun row => String.eqb (FksChatwoot.phone_number row) p) (Pg.rows result).
Proof.
  intros Hq Hall. unfold V2.selectOrCreateFksFromChatwoot. unfold bind at 1. rewrite Hq.
  destruct (V2_resolveAll_reuses inbox provider (Pg.rows result) pts groups (map fst groups)
              Hall [] w1) as (fks & E & Hget).
  exists fks. split; [exact E|]. split.
  - apply query_Ok_inv in Hq as (d' & Hs & ->). unfold Sql.selectFks, Sql.ok in Hs.
    by injection Hs as _ <-.
  - intros p Hp. rewrite Hget. by rewrite bool_decide_eq_true_2.
Qed.

Lemma V2_resolver_reuses_what_the_lookup_finds_witness :
  let d := Pg.mkDB [] [] [] [Pg.mkContact 1 (Some "Alice") "+100" 1 "100@d" 0]
             [Pg.mkConversation 4 1 3 1 0] [] [] [] 1000 in
  let w := mkWorld ∅ ∅ ∅ d [] [] in
  let groups := V2.createMessagesMapByPhoneNumber [Sample.hi; Sample.yo] in
  exists fks,
    V2.selectOrCreateFksFromChatwoot Sample.inbox Sample.provider
      (timestampsByPhoneNumber groups) groups w = (Ok fks, w) /\
    db w = db w /\
    forall p, p ∈ map fst groups ->
      JsMap.get p fks
      = List.find (fun row => String.eqb (FksChatwoot.phone_number row) p)
          [FksChatwoot.mk "+100" (Some 1) (Some 4)].
Proof.
  intros d w groups.
  apply (V2_resolver_reuses_what_the_lookup_finds Sample.inbox Sample.provider
           (timestampsByPhoneNumber groups) groups w w
           (Pg.resultOf [FksChatwoot.mk "+100" (Some 1) (Some 4)])).
  - reflexivity.
  - intros p Hp. vm_compute in Hp. apply list_elem_of_singleton in Hp as ->.
    by eexists.
Defined.

(** X23.  The create path of the key resolver of the second class does
    not look for the contact it is about to insert: on a connection that
    does not fail, a phone number the lookup returned without a
    conversation, with a first message of a non-empty identifier whose
    [(identifier, account_id)] already has a contact row (as after
    [importHistoryContacts]), makes the resolver throw the unique-key
    violation of [contacts] and change no table. *)
Theorem V2_resolver_rejects_a_known_contact_without_conversation
    (inbox : Inbox.t) (provider : ChatwootRaw.t) (rows : list FksChatwoot.t)
    (pts : list (string * FirstLastTimestamp.t)) (byPhone : list (string * list MessageRaw.t))
    (fks : list (string * FksChatwoot.t)) (phone : string) (w : World)
    (messages : list MessageRaw.t) (m : MessageRaw.t) (t : Z) :
  faults w = [] ->
  truthy (List.find (fun row => String.eqb (FksChatwoot.phone_number row) phone) rows
            ≫= FksChatwoot.conversation_id) = false ->
  JsMap.get phone byPhone = Some messages ->
  JsMap.get phone pts ≫= FirstLastTimestamp.first = Some t ->
  List.find (fun message => MessageRaw.messageTimestamp message =? t) messages = Some m ->
  nonEmpty (MessageRaw.remoteJid m) = true ->
  (MessageRaw.remoteJid m, ChatwootRaw.account_id provider)
    ∈ contactKeys (Pg.contacts (db w)) ->
  (V2.resolveOne inbox provider rows pts byPhone fks phone w).1
    = Throw "error: duplicate key value violates unique constraint" /\
  db (V2.resolveOne inbox provider rows pts byPhone fks phone w).2 = db w.
Proof.
  intros Hf Hconv Hmsgs Ht Hm Hjid Hkey.
  unfold V2.resolveOne. rewrite Hconv, Hmsgs. simpl.
  destruct messages as [|m0 rest]; [done|].
  rewrite Ht, Hm, Hjid.
  unfold V2.insertContactChatwoot, bind, query, Sql.insertContact. rewrite Hf.
  assert (existsb (Sql.contactKey (ChatwootRaw.account_id provider) (MessageRaw.remoteJid m))
            (Pg.contacts (db w)) = true) as ->.
  { apply list_elem_of_In, in_map_iff in Hkey as (row & Hrow & Hin).
    apply existsb_exists. exists row. split; [done|]. by apply contactKey_spec. }
  done.
Qed.

Lemma V2_resolver_rejects_a_known_contact_without_conversation_witness :
  let d := Pg.mkDB [] [] [] [Pg.mkContact 1 (Some "Alice") "+100" 1 "100@d" 0] [] [] [] [] 1000 in
  let w := mkWorld ∅ ∅ ∅ d [] [] in
  let groups := V2.createMessagesMapByPhoneNumber [Sample.yo; Sample.hi] in
  let r := V2.resolveOne Sample.inbox Sample.provider [FksChatwoot.mk "+100" (Some 1) None]
             (timestampsByPhoneNumber groups) groups [] "+100" w in
  r.1 = Throw "error: duplicate key value violates unique constraint" /\ db r.2 = db w.
Proof.
  intros d w groups.
  apply (V2_resolver_rejects_a_known_contact_without_conversation Sample.inbox Sample.provider
           [FksChatwoot.mk "+100" (Some 1) None] (timestampsByPhoneNumber groups) groups []
           "+100" w [Sample.yo; Sample.hi] Sample.yo 5); try reflexivity.
  vm_compute. apply list_elem_of_here.
Defined.

(** ** The comparator and the timestamp window of a phone number *)

Lemma group_of_sorted_chunk staged chunk p g :
  numbered staged -> sublist chunk (Js.sort compareMessages staged) ->
  (p, g) ∈ V2.createMessagesMapByPhoneNumber chunk ->
  StronglySorted olderFirst g.
Proof.
  intros Hwf Hsub Hg.
  destruct (groupMessages_groupsOf V2.phoneNumberOf chunk) as (_ & Hin & _).
  rewrite (Hin p g Hg).
  apply (StronglySorted_within (fun a b => compareMessages a b <= 0) olderFirst
           (fun m => V2.phoneNumberOf m = p)).
  - intros a b Ha Hb Hab. unfold olderFirst.
    rewrite compareMessages_same_number in Hab; [lia|].
    apply phoneNumberOf_parseInt. by rewrite Ha, Hb.
  - apply Forall_forall. intros m Hm. apply list_elem_of_In, List.filter_In in Hm as [_ Hm].
    by apply String.eqb_eq in Hm.
  - apply (StronglySorted_sublist _ _ (Js.sort compareMessages staged)).
    + etrans; [apply filter_sublist|exact Hsub].
    + by apply sorted_messages.
Qed.

Lemma sorted_last_is_latest (g : list MessageRaw.t) x :
  StronglySorted olderFirst g -> x ∈ g ->
  exists z, last g = Some z /\ olderFirst x z.
Proof.
  intros Hs. induction Hs as [|y g Hs IH Hall]; intros Hx.
  - by apply elem_of_nil in Hx.
  - destruct g as [|y' g'].
    + apply list_elem_of_singleton in Hx as ->. exists y. split; [done|]. unfold olderFirst. lia.
    + assert (is_Some (last (y' :: g'))) as [z Hz] by by apply last_is_Some.
      apply elem_of_cons in Hx as [->|Hx].
      * exists z. split; [exact Hz|].
        rewrite Forall_forall in Hall. apply Hall.
        apply last_Some_elem_of. exact Hz.
      * destruct (IH Hx) as (z' & Hz' & Hle). exists z'. by split.
Qed.

(** X24.  The comparator of the second class and of part_000 orders two
    messages of one phone number by their timestamps alone, whatever the
    identifier looks like (also when [parseInt] gives [NaN]): [parseInt]
    reads nothing behind the first ['@'], so both identifiers parse to the
    same number or both to [NaN], and the [||] falls through to the
    timestamps. *)
Theorem messages_of_a_phone_number_compare_by_timestamp (a b : MessageRaw.t) :
  V2.phoneNumberOf a = V2.phoneNumberOf b ->
  Js.parseInt (MessageRaw.remoteJid a) = Js.parseInt (MessageRaw.remoteJid b) /\
  compareMessages a b = MessageRaw.messageTimestamp a - MessageRaw.messageTimestamp b.
Proof.
  intros Hp. pose proof (phoneNumberOf_parseInt a b Hp) as Hn.
  split; [exact Hn|]. by apply compareMessages_same_number.
Qed.

Lemma messages_of_a_phone_number_compare_by_timestamp_witness :
  Js.parseInt (MessageRaw.remoteJid (Sample.text "status@broadcast" 3 "a"))
    = Js.parseInt (MessageRaw.remoteJid (Sample.text "status@other" 7 "b")) /\
  compareMessages (Sample.text "status@broadcast" 3 "a") (Sample.text "status@other" 7 "b")
    = 3 - 7.
Proof.
  apply (messages_of_a_phone_number_compare_by_timestamp
           (Sample.text "status@broadcast" 3 "a") (Sample.text "status@other" 7 "b")).
  reflexivity.
Defined.



(** ** The first class inserts without a conflict clause *)

Lemma onTables_V1_getChatwootUser P provider :
  maintains (onTables P) (V1.getChatwootUser provider).
Proof.
  unfold V1.getChatwootUser. apply maintains_tryCatch.
  - apply maintains_bind; [frame_stmt|intros; apply maintains_ret].
  - intros e. apply maintains_bind; [apply onTables_loggerError|intros; apply maintains_ret].
Qed.

Lemma onTables_V1_getAllConversationIds P account first last_ :
  maintains (onTables P) (V1.getAllConversationIds account first last_).
Proof.
  unfold V1.getAllConversationIds. apply maintains_tryCatch.
  - apply maintains_bind; [frame_stmt|intros; apply maintains_ret].
  - intros e. apply maintains_bind; [apply onTables_loggerError|intros; apply maintains_ret].
Qed.

Lemma V1_messagesLoop_appends svc provider contacts user messages :
  (forall account contact inbox source d r d',
     ChatwootService.createConversation svc account contact inbox source d = inr (r, d') ->
     Pg.messages d' = Pg.messages d) ->
  forall conversations n w m w',
  V1.messagesLoop svc provider contacts user messages conversations n w = (Ok m, w') ->
  exists added,
    Pg.messages (db w') = Pg.messages (db w) ++ added /\
    Z.of_nat (length added) = m - n /\
    Forall (fun r => Pg.m_account_id r = ChatwootRaw.account_id provider /\
                     Pg.m_inbox_id r = ChatwootRaw.inbox_id provider /\
                     Pg.m_sender_id r = Some (ChatwootUser.user_id user) /\
                     exists message, message ∈ messages /\
                       Pg.m_created_at r = MessageRaw.messageTimestamp message) added.
Proof.
  intros Hsvc. induction messages as [|message rest IH]; intros conversations n w m w'.
  - intros [= <- <-]. exists []. rewrite app_nil_r. split; [done|]. split; [simpl; lia|done].
  - cbn [V1.messagesLoop].
    destruct (List.find _ contacts) as [sender|].
    + destruct conversations as [known|]; [|done].
      intros H. apply bind_Ok in H as (found & w1 & Hfound & H).
      assert (Pg.messages (db w1) = Pg.messages (db w)) as E1.
      { destruct (List.find _ known) as [conversation|].
        - by injection Hfound as _ <-.
        - apply bind_Ok in Hfound as (created & w0 & Hq & Hr).
          injection Hr as _ <-.
          apply query_Ok_inv in Hq as (d' & Hq & ->). by apply Hsvc in Hq. }
      apply bind_Ok in H as (result & w2 & Hq & H).
      apply query_Ok_inv in Hq as (d' & Hq & E2).
      unfold Sql.insertMessage, Sql.ok in Hq. injection Hq as <- <-.
      apply IH in H as (added & Hadded & Hlen & Hall).
      rewrite E2 in Hadded. simpl in Hadded. rewrite <- app_assoc, E1 in Hadded.
      eexists. split; [exact Hadded|]. split; [simpl in *; lia|].
      constructor.
      * simpl. repeat split. exists message. split; [apply list_elem_of_here|done].
      * eapply Forall_impl; [exact Hall|]. intros r (?&?&?&x&Hx&?).
        repeat split; try done. exists x. split; [by apply list_elem_of_further|done].
    + intros H. apply IH in H as (added & Hadded & Hlen & Hall).
      exists added. split; [done|]. split; [done|].
      eapply Forall_impl; [exact Hall|]. intros r (?&?&?&x&Hx&?).
      repeat split; try done. exists x. split; [by apply list_elem_of_further|done].
Qed.

(** X26.  [importHistoryMessages] of the first class inserts without
    looking at what is there: when it reports a count [n] (and the helpdesk
    service that opens conversations does not write [messages]), the
    [messages] table afterwards is the old table followed by exactly [n] new
    rows, each for the provider's account and inbox, sent by the acting
    user and dated with the timestamp of a staged message.  Staging the
    same messages again and importing again adds them again. *)
Theorem V1_importHistoryMessages_appends_a_row_per_message
    (instance : InstanceDto.t) (chatwootService : ChatwootService.t)
    (provider : ChatwootRaw.t) (w : World) (n : Z) :
  (forall account contact inbox source d r d',
     ChatwootService.createConversation chatwootService account contact inbox source d
       = inr (r, d') ->
     Pg.messages d' = Pg.messages d) ->
  (V1.importHistoryMessages instance chatwootService provider w).1 = Ok (Some n) ->
  exists added,
    Pg.messages (db (V1.importHistoryMessages instance chatwootService provider w).2)
      = Pg.messages (db w) ++ added /\
    Z.of_nat (length added) = n /\
    Forall (fun r => Pg.m_account_id r = ChatwootRaw.account_id provider /\
                     Pg.m_inbox_id r = ChatwootRaw.inbox_id provider /\
                     exists message,
                       message ∈ default [] (historyMessages w
                                               !! InstanceDto.instanceName instance) /\
                       Pg.m_created_at r = MessageRaw.messageTimestamp message) added.
Proof.
  set (name := InstanceDto.instanceName instance). intros Hsvc.
  destruct (V1.importHistoryMessages instance chatwootService provider w) as [res w'] eqn:E.
  simpl. intros ->. revert E.
  unfold V1.importHistoryMessages. intros E. apply tryCatch_Some in E.
  apply bind_Ok in E as (user & w1 & Hu & E).
  assert (Pg.messages (db w1) = Pg.messages (db w) /\ historyMessages w1 = historyMessages w)
    as [D1 M1].
  { replace w1 with (V1.getChatwootUser provider w).2 by by rewrite Hu. split.
    - by apply (onTables_V1_getChatwootUser (fun d => Pg.messages d = Pg.messages (db w))).
    - apply (sameStore_step (V1.getChatwootUser provider) w w); [|apply sameStore_refl].
      intros c0 hm0 hc0. apply V1_getChatwootUser_maintains; intros;
        [apply onStore_query|apply onStore_loggerError]. }
  destruct user as [user|]; [|done].
  apply bind_Ok in E as (ordered & w2 & Hs & E).
  unfold V1.sortStagedByTimestamp in Hs. fold name in Hs. rewrite M1 in Hs.
  destruct (historyMessages w !! name) as [staged|] eqn:Es; simpl.
  2: { injection Hs as <- <-. injection E as <- <-. exists []. by rewrite app_nil_r. }
  injection Hs as <- <-.
  pose proof (sort_Permutation
                (fun a b => MessageRaw.messageTimestamp a - MessageRaw.messageTimestamp b) staged)
    as Hperm.
  destruct (Js.sort _ staged) as [|s sorted] eqn:Esort.
  { injection E as <- <-. exists []. by rewrite app_nil_r. }
  apply bind_Ok in E as (conversations & w3 & Hc & E).
  assert (Pg.messages (db w3) = Pg.messages (db w)) as D3.
  { match type of Hc with ?m ?w0 = _ =>
      replace w3 with (m w0).2 by (by rewrite Hc);
      apply (onTables_V1_getAllConversationIds
               (fun d => Pg.messages d = Pg.messages (db w)) _ _ _ w0) end.
    exact D1. }
  apply bind_Ok in E as (contacts & w4 & Hg & E). injection Hg as <- <-.
  apply bind_Ok in E as (total & w5 & Hloop & E).
  apply (V1_messagesLoop_appends _ _ _ _ _ Hsvc) in Hloop as (added & Hadded & Hlen & Hall).
  unfold bind, deleteHistoryMessages, clearAll, deleteRepositoryMessagesCache,
    deleteHistoryContacts, modify, ret in E. simpl in E. injection E as <- <-.
  exists added. simpl. rewrite Hadded, D3. split; [done|]. split; [lia|].
  eapply Forall_impl; [exact Hall|]. intros r (?&?&?&x&Hx&?).
  repeat split; try done. exists x. split; [|done]. by rewrite <- Hperm.
Qed.

Lemma V1_importHistoryMessages_appends_a_row_per_message_witness :
  let d :=
    Pg.mkDB [] [] [] [Pg.mkContact 1 (Some "Alice") "+100" 1 "100@d" 0] []
      [Pg.mkMessage 1 "yo" 1 3 1 (Some 7) 5] []
      [Pg.mkAccountUser 1 7 "User"] 1000 in
  let w :=
    mkWorld ∅ {[ "tenant-a" := [Sample.yo] ]} {[ "tenant-a" := [Sample.alice] ]} d [] [] in
  exists added,
    Pg.messages (db (V1.importHistoryMessages Sample.instance Sample.service Sample.provider
                       w).2)
      = Pg.messages (db w) ++ added /\
    Z.of_nat (length added) = 1 /\
    Forall (fun r => Pg.m_account_id r = 1 /\ Pg.m_inbox_id r = 3 /\
                     exists message,
                       message ∈ default [] (historyMessages w !! "tenant-a") /\
                       Pg.m_created_at r = MessageRaw.messageTimestamp message) added.
Proof.
  intros d w.
  apply (V1_importHistoryMessages_appends_a_row_per_message Sample.instance Sample.service
           Sample.provider w 1).
  - intros account contact inbox source d0 r d'. unfold Sample.service. simpl.
    unfold Sample.openConversation. destruct (List.find _ _); [|done]. by intros [= _ <-].
  - vm_compute. reflexivity.
Defined.
